(** * OOLONG-Pairs: ground-truth pair enumeration and scoring

    A shallow embedding of the pair engine of [experiments/oolong-pairs]:
    - [generate_oolong_pairs.py]: [parse_date], [check_user_constraint],
      [compute_ground_truth];
    - [generate_dataset.py]: the asymmetric branch of
      [compute_ground_truth_pairs] with its local [matches_a], [matches_b];
    - [evaluate.py]: [parse_pairs], [compute_f1].

    Python dicts are finite maps ([gmap]), Python sets are finite sets
    ([gset]), raised exceptions are the [Raise] results of a small error monad,
    Python floats are the kernel's binary64 floats. *)

From Stdlib Require Import ZArith Ascii String List Lia.
From Stdlib Require Import Floats.PrimFloat Numbers.Cyclic.Int63.Uint63.
From stdpp Require Import gmap strings list sorting pretty.

Local Open Scope Z_scope.

(** ** Exceptions *)

Inductive exn := KeyError | ValueError.

Inductive result (A : Type) : Type :=
| Ok (a : A)
| Raise (e : exn).
Arguments Ok {A} a.
Arguments Raise {A} e.

(** Sequencing: an exception raised by the first computation propagates.
    With this instance [x ← r; k] is stdpp's bind notation. *)
#[global] Instance result_bind : MBind result := λ A B k r,
  match r with
  | Ok a => k a
  | Raise e => Raise e
  end.

(** [d[k]] on a dict: [KeyError] when the key is absent. *)
Definition getitem `{Countable K} {V} (d : gmap K V) (k : K) : result V :=
  match d !! k with
  | Some v => Ok v
  | None => Raise KeyError
  end.

(** Truth value of a set: non-empty. *)
Definition truthy (s : gset string) : bool := bool_decide (s ≠ ∅).

(** ** Loops shared by the two generators *)

(** [sorted(user_labels.keys())] *)
Definition sorted_keys {V} (user_labels : gmap Z V) : list Z :=
  merge_sort Z.le (elements (dom user_labels)).

(** The nested loops
    [for i, uid1 in enumerate(user_ids): for uid2 in user_ids[i+1:]: ...]
    where the body decides whether [(uid1, uid2)] is appended to [pairs]. *)
Section loops.
Context (body : Z → Z → result bool).

Fixpoint inner_loop (uid1 : Z) (rest : list Z) (pairs : list (Z * Z))
  : result (list (Z * Z)) :=
  match rest with
  | [] => Ok pairs
  | uid2 :: rest' =>
      hit ← body uid1 uid2;
      inner_loop uid1 rest' (if (hit : bool) then pairs ++ [(uid1, uid2)] else pairs)
  end.

Fixpoint outer_loop (user_ids : list Z) (pairs : list (Z * Z))
  : result (list (Z * Z)) :=
  match user_ids with
  | [] => Ok pairs
  | uid1 :: rest =>
      pairs' ← inner_loop uid1 rest pairs;
      outer_loop rest pairs'
  end.
End loops.

(** ** generate_oolong_pairs.py *)

Module GenerateOolongPairs.

(** One element of [user_labels[uid]]: [{"label": ..., "timestamp": ...}]. *)
Record entry := { label : string; timestamp : string }.

(** A requirement bundle: each of the keys "has_all", "at_least", "exactly"
    may be absent. *)
Record constraint := {
  has_all : option (list string);
  at_least : option (gmap string Z);
  exactly : option (gmap string Z)
}.

(** [task["date_constraint"]]: "category" with "before" and/or "after". *)
Record date_constraint := {
  category : string;
  before : option string;
  after : option string
}.

(** A task dict, by its "type"; any other type string selects no branch. *)
Inductive task :=
| both_have_any (categories : list string)
| both_have_any_with_date (categories : list string) (dc : date_constraint)
| asymmetric (user_a user_b : constraint)
| other_type (type : string).

(** The value of [strptime] for the two date-only formats used here: the
    time of day is midnight, so only the calendar date takes part in
    comparisons. *)
Record datetime := { year : Z; month : Z; day : Z }.

(** [a < b] on datetimes. *)
Definition datetime_lt (a b : datetime) : bool :=
  (year a <? year b)
  || ((year a =? year b)
      && ((month a <? month b)
          || ((month a =? month b) && (day a <? day b)))).

(** [label_counts = defaultdict(int)], then [label_counts[e['label']] += 1]
    for every entry. *)
Definition count_labels (user_entries : list entry) : gmap string Z :=
  fold_left
    (λ label_counts e,
       <[label e := default 0 (label_counts !! label e) + 1]> label_counts)
    user_entries ∅.

(** [label_counts.get(cat, 0)] *)
Definition get0 (label_counts : gmap string Z) (cat : string) : Z :=
  default 0 (label_counts !! cat).

(** [for cat, n in d.items(): if bad(cat, n): return False] — [true] when the
    loop falls through. *)
Fixpoint items_loop (bad : string → Z → bool) (items : list (string * Z)) : bool :=
  match items with
  | [] => true
  | (cat, n) :: rest => if bad cat n then false else items_loop bad rest
  end.

Fixpoint cats_loop (bad : string → bool) (cats : list string) : bool :=
  match cats with
  | [] => true
  | cat :: rest => if bad cat then false else cats_loop bad rest
  end.

Definition check_user_constraint (user_entries : list entry) (c : constraint) : bool :=
  let label_counts := count_labels user_entries in
  let has_all_passed :=
    match has_all c with
    | Some cats => cats_loop (λ cat, get0 label_counts cat <? 1) cats
    | None => true
    end in
  if negb has_all_passed then false else
  let at_least_passed :=
    match at_least c with
    | Some d =>
        items_loop (λ cat min_count, get0 label_counts cat <? min_count)
                   (map_to_list d)
    | None => true
    end in
  if negb at_least_passed then false else
  let exactly_passed :=
    match exactly c with
    | Some d =>
        items_loop (λ cat exact_count, negb (get0 label_counts cat =? exact_count))
                   (map_to_list d)
    | None => true
    end in
  if negb exactly_passed then false else
  true.

(** [set(e["label"] for e in entries)] *)
Definition labels_of (entries : list entry) : gset string :=
  list_to_set (label <$> entries).

Section with_strptime.
(** [datetime.strptime(date_string, format)]; [None] stands for the
    exception it raises on a string that does not match the format. *)
Variable strptime : string → string → option datetime.

Definition parse_date (date_str : string) : result datetime :=
  match strptime date_str "%b %d, %Y" with
  | Some d => Ok d
  | None =>
      match strptime date_str "%Y-%m-%d" with
      | Some d => Ok d
      | None => Raise ValueError
      end
  end.

(** The local [user_passes_date] of the with-date branch. *)
Fixpoint user_passes_date (date_check : string → result bool) (date_cat : string)
    (entries : list entry) : result bool :=
  match entries with
  | [] => Ok true
  | e :: rest =>
      if decide (label e = date_cat) then
        ok ← date_check (timestamp e);
        if negb ok then Ok false else user_passes_date date_check date_cat rest
      else user_passes_date date_check date_cat rest
  end.

Definition compute_ground_truth (user_labels : gmap Z (list entry)) (t : task)
  : result (list (Z * Z)) :=
  let user_ids := sorted_keys user_labels in
  match t with
  | both_have_any categories =>
      let target_cats : gset string := list_to_set categories in
      outer_loop
        (λ uid1 uid2,
           entries1 ← getitem user_labels uid1;
           let cats1 := labels_of entries1 in
           entries2 ← getitem user_labels uid2;
           let cats2 := labels_of entries2 in
           Ok (truthy (cats1 ∩ target_cats) && truthy (cats2 ∩ target_cats)))
        user_ids []
  | both_have_any_with_date categories dc =>
      let target_cats : gset string := list_to_set categories in
      let date_cat := category dc in
      date_check ←
        match before dc return result (string → result bool) with
        | Some b =>
            cutoff ← parse_date b;
            Ok (λ ts, d ← parse_date ts; Ok (datetime_lt d cutoff))
        | None =>
            a ← match after dc with Some a => Ok a | None => Raise KeyError end;
            cutoff ← parse_date a;
            Ok (λ ts, d ← parse_date ts; Ok (datetime_lt cutoff d))
        end;
      outer_loop
        (λ uid1 uid2,
           entries1 ← getitem user_labels uid1;
           entries2 ← getitem user_labels uid2;
           let cats1 := labels_of entries1 in
           let cats2 := labels_of entries2 in
           if negb (truthy (cats1 ∩ target_cats) && truthy (cats2 ∩ target_cats))
           then Ok false
           else
             p1 ← user_passes_date date_check date_cat entries1;
             if (p1 : bool) then user_passes_date date_check date_cat entries2
             else Ok false)
        user_ids []
  | asymmetric user_a_req user_b_req =>
      outer_loop
        (λ uid1 uid2,
           entries1 ← getitem user_labels uid1;
           entries2 ← getitem user_labels uid2;
           if check_user_constraint entries1 user_a_req
              && check_user_constraint entries2 user_b_req
           then Ok true
           else if check_user_constraint entries2 user_a_req
                   && check_user_constraint entries1 user_b_req
           then Ok true
           else Ok false)
        user_ids []
  | other_type _ => Ok []
  end.
End with_strptime.

End GenerateOolongPairs.

(** ** generate_dataset.py *)

Module GenerateDataset.

(** One element of [ground_truth[str(uid)]]. *)
Record entry := { category : string; timestamp : string; question : string }.

(** The same event as the other generator records it. *)
Definition as_label (e : entry) : GenerateOolongPairs.entry :=
  {| GenerateOolongPairs.label := category e;
     GenerateOolongPairs.timestamp := timestamp e |}.

Import GenerateOolongPairs (constraint, has_all, at_least, exactly, items_loop).

(** The local [matches_a] of the asymmetric branch; [user_a_req] is the
    variable it closes over. *)
Definition matches_a (user_a_req : constraint) (entries : list entry) : bool :=
  let cats : gset string := list_to_set (category <$> entries) in
  forallb (λ c, bool_decide (c ∈ cats)) (default [] (has_all user_a_req)).

(** The local [matches_b]. *)
Definition matches_b (user_b_req : constraint) (entries : list entry) : bool :=
  let cat_counts : gmap string Z :=
    fold_left
      (λ cat_counts e,
         <[category e := default 0 (cat_counts !! category e) + 1]> cat_counts)
      entries ∅ in
  items_loop (λ cat count, negb (default 0 (cat_counts !! cat) =? count))
             (map_to_list (default ∅ (exactly user_b_req))).

(** The asymmetric branch of [compute_ground_truth_pairs]. The dict
    [ground_truth] is keyed by [str(user_id)] for the integers
    [generate_dataset] numbers its users with; the keys are read back with
    [int] and looked up again with [str], so the store is keyed here by the
    integer itself. *)
Definition compute_ground_truth_pairs_asymmetric
    (ground_truth : gmap Z (list entry)) (user_a_req user_b_req : constraint)
  : result (list (Z * Z)) :=
  let user_ids := sorted_keys ground_truth in
  outer_loop
    (λ uid1 uid2,
       entries1 ← getitem ground_truth uid1;
       entries2 ← getitem ground_truth uid2;
       Ok ((matches_a user_a_req entries1 && matches_b user_b_req entries2)
           || (matches_a user_a_req entries2 && matches_b user_b_req entries1)))
    user_ids [].

End GenerateDataset.

(** ** evaluate.py *)

Module Evaluate.

(** Texts are ASCII strings, read as lists of characters. On ASCII, a [str]
    pattern's [\s] is one of tab, newline, vertical tab, form feed, carriage
    return, the four separators 0x1c-0x1f and space; [\d] is one of 0-9.
    The two classes below are these; they say nothing of the white space
    and of the digits outside ASCII, and the statements about texts assume
    an ASCII text ([Spec.ascii_text]). *)
Definition is_space (c : ascii) : bool :=
  let n := nat_of_ascii c in
  ((9 <=? n)%nat && (n <=? 13)%nat) || ((28 <=? n)%nat && (n <=? 32)%nat).

Definition is_digit (c : ascii) : bool :=
  let n := nat_of_ascii c in
  (48 <=? n)%nat && (n <=? 57)%nat.

(** [int(group)] for a run of at most 4300 decimal digits. On a longer run
    the interpreter raises ValueError; the statements about texts assume
    that there is none ([Spec.within_int_limit]). *)
Definition int (digits : list ascii) : Z :=
  fold_left (λ acc c, 10 * acc + (Z.of_nat (nat_of_ascii c) - 48)) digits 0.

(** [\s*]: the longest run of whitespace is consumed. *)
Fixpoint skip_spaces (s : list ascii) : list ascii :=
  match s with
  | c :: rest => if is_space c then skip_spaces rest else s
  | [] => []
  end.

(** The digits of a group: the longest run of digits and what follows it. *)
Fixpoint span_digits (s : list ascii) : list ascii * list ascii :=
  match s with
  | c :: rest =>
      if is_digit c
      then let '(ds, rest') := span_digits rest in (c :: ds, rest')
      else ([], s)
  | [] => ([], [])
  end.

(** [\(?] and [\)?]: one optional character. *)
Definition skip_optional (ch : ascii) (s : list ascii) : list ascii :=
  match s with
  | c :: rest => if Ascii.eqb c ch then rest else s
  | [] => []
  end.

(** One attempt of the pattern [\(?\s*(\d+)\s*,\s*(\d+)\s*\)?] at the head of
    [s]: the two groups as integers, and the text after the match. Every
    quantifier is greedy, and the character classes that follow one another
    are disjoint, so giving back a character never turns a failed attempt
    into a match: the greedy attempt is the one the backtracking engine
    reports (see [match_at_complete]). *)
Definition match_at (s : list ascii) : option (Z * Z * list ascii) :=
  let s := skip_optional "(" s in
  let s := skip_spaces s in
  match span_digits s with
  | ([], _) => None
  | (group1, s) =>
      let s := skip_spaces s in
      match s with
      | c :: s =>
          if Ascii.eqb c "," then
            let s := skip_spaces s in
            match span_digits s with
            | ([], _) => None
            | (group2, s) =>
                let s := skip_spaces s in
                let s := skip_optional ")" s in
                Some (int group1, int group2, s)
            end
          else None
      | [] => None
      end
  end.

(** [re.finditer(pattern, text)]: the scan tries the pattern at the current
    position; after a match it resumes where the match ended, otherwise one
    character further. A match is never empty, so [fuel] above the length of
    the text is never exhausted. *)
Fixpoint finditer (fuel : nat) (s : list ascii) : list (Z * Z) :=
  match fuel with
  | O => []
  | S fuel =>
      match match_at s with
      | Some (id1, id2, rest) => (id1, id2) :: finditer fuel rest
      | None =>
          match s with
          | [] => []
          | _ :: rest => finditer fuel rest
          end
      end
  end.

Definition parse_pairs (text : string) : gset (Z * Z) :=
  let s := list_ascii_of_string text in
  fold_left
    (λ pairs '(id1, id2),
       let pair := (Z.min id1 id2, Z.max id1 id2) in
       pairs ∪ {[ pair ]})
    (finditer (S (length s)) s) ∅.

(** The dict returned by [compute_f1]; the three counts are present only on
    the general path. *)
Record metrics := {
  precision : float;
  recall : float;
  f1 : float;
  true_positives : option Z;
  predicted_count : option Z;
  ground_truth_count : option Z
}.

(** [len(s)] *)
Definition len (s : gset (Z * Z)) : Z := Z.of_nat (size s).

(** [a / b] on two ints is the correctly rounded quotient; below 2^53 both
    conversions are exact and the binary64 division is that quotient. *)
Definition true_div (a b : Z) : float :=
  PrimFloat.div (of_uint63 (Uint63.of_Z a)) (of_uint63 (Uint63.of_Z b)).

Definition compute_f1 (predicted ground_truth : gset (Z * Z)) : metrics :=
  if (len predicted =? 0) && (len ground_truth =? 0) then
    {| precision := 1; recall := 1; f1 := 1;
       true_positives := None; predicted_count := None; ground_truth_count := None |}
  else if len predicted =? 0 then
    {| precision := 0; recall := 0; f1 := 0;
       true_positives := None; predicted_count := None; ground_truth_count := None |}
  else if len ground_truth =? 0 then
    {| precision := 0; recall := 0; f1 := 0;
       true_positives := None; predicted_count := None; ground_truth_count := None |}
  else
    let true_positives := len (predicted ∩ ground_truth) in
    let precision := true_div true_positives (len predicted) in
    let recall := true_div true_positives (len ground_truth) in
    let f1 :=
      if PrimFloat.eqb (precision + recall) 0 then 0%float
      else (2 * precision * recall / (precision + recall))%float in
    {| precision := precision; recall := recall; f1 := f1;
       true_positives := Some true_positives;
       predicted_count := Some (len predicted);
       ground_truth_count := Some (len ground_truth) |}.

End Evaluate.

(** ** A sample [strptime]

    The theorems hold for every [strptime]; the examples need one to run.
    This one reads a ten-character YYYY-MM-DD date of the proleptic Gregorian
    calendar under the format [%Y-%m-%d], and nothing else. *)

Module Sample.
Import GenerateOolongPairs.

Definition days_in_month (y m : Z) : Z :=
  if m =? 2 then
    if ((y mod 4 =? 0) && negb (y mod 100 =? 0)) || (y mod 400 =? 0) then 29 else 28
  else if (m =? 4) || (m =? 6) || (m =? 9) || (m =? 11) then 30
  else 31.

Definition strptime (date_string format : string) : option datetime :=
  if String.eqb format "%Y-%m-%d" then
    match list_ascii_of_string date_string with
    | [y1; y2; y3; y4; dash1; m1; m2; dash2; d1; d2] =>
        let y := Evaluate.int [y1; y2; y3; y4] in
        let m := Evaluate.int [m1; m2] in
        let d := Evaluate.int [d1; d2] in
        if forallb Evaluate.is_digit [y1; y2; y3; y4; m1; m2; d1; d2]
           && Ascii.eqb dash1 "-" && Ascii.eqb dash2 "-"
           && (1 <=? y) && (1 <=? m) && (m <=? 12)
           && (1 <=? d) && (d <=? days_in_month y m)
        then Some {| year := y; month := m; day := d |}
        else None
    | _ => None
    end
  else None.

(** The event store of the scenarios:
    [{1: [NUM@2023-01-01], 2: [NUM@2023-01-01, LOC@2023-06-01], 3: [ENTY@2023-01-01]}]. *)
Definition store : gmap Z (list entry) :=
  {[ 1 := [ {| label := "NUM"; timestamp := "2023-01-01" |} ];
     2 := [ {| label := "NUM"; timestamp := "2023-01-01" |};
            {| label := "LOC"; timestamp := "2023-06-01" |} ];
     3 := [ {| label := "ENTY"; timestamp := "2023-01-01" |} ] ]}.

End Sample.

(** ** Vocabulary of the specification *)

Module Spec.
Import GenerateOolongPairs.

Definition is_Ok {A} (r : result A) : Prop := ∃ a, r = Ok a.

(** The closed enumeration of categories ([COARSE_LABELS]). *)
Definition known_category (cat : string) : Prop :=
  cat ∈ ["DESC"; "ENTY"; "HUM"; "NUM"; "LOC"; "ABBR"].

#[global] Instance known_category_dec (cat : string) : Decision (known_category cat).
Proof. unfold known_category. apply _. Defined.

(** The categories a requirement bundle and a task refer to. *)
Definition bundle_categories (c : constraint) : list string :=
  default [] (has_all c)
  ++ (map_to_list (default ∅ (at_least c))).*1
  ++ (map_to_list (default ∅ (exactly c))).*1.

Definition task_categories (t : task) : list string :=
  match t with
  | both_have_any categories => categories
  | both_have_any_with_date categories dc => category dc :: categories
  | asymmetric a b => bundle_categories a ++ bundle_categories b
  | other_type _ => []
  end.

Definition references_unknown (t : task) : Prop :=
  ∃ cat, cat ∈ task_categories t ∧ ¬ known_category cat.

(** Every event of the store carries a category of the enumeration. *)
Definition labels_known (user_labels : gmap Z (list entry)) : Prop :=
  ∀ x ex e, user_labels !! x = Some ex → e ∈ ex → known_category (label e).

(** Number of events of a user that carry the category. *)
Definition count_label (cat : string) (entries : list entry) : Z :=
  Z.of_nat (length (filter (λ e, label e = cat) entries)).

(** The user has at least one event whose category is among [categories]. *)
Definition has_any_of (categories : list string) (entries : list entry) : Prop :=
  ∃ e, e ∈ entries ∧ label e ∈ categories.

(** All present clauses of a requirement bundle hold. *)
Definition satisfies_side (entries : list entry) (c : constraint) : Prop :=
  (∀ cats, has_all c = Some cats →
     ∀ cat, cat ∈ cats → 1 ≤ count_label cat entries)
  ∧ (∀ d, at_least c = Some d →
       ∀ cat n, d !! cat = Some n → n ≤ count_label cat entries)
  ∧ (∀ d, exactly c = Some d →
       ∀ cat n, d !! cat = Some n → count_label cat entries = n).

(** A requirement bundle reduced to one of its clauses. *)
Definition only_has_all (c : constraint) : constraint :=
  {| has_all := has_all c; at_least := None; exactly := None |}.

Definition only_exactly (c : constraint) : constraint :=
  {| has_all := None; at_least := None; exactly := exactly c |}.

Inductive bound_kind := Before | After.

(** The bound of a date constraint as the with-date branch reads it:
    "before" when that key is present, "after" otherwise. *)
Definition bound_of (dc : date_constraint) : option (bound_kind * string) :=
  match before dc with
  | Some b => Some (Before, b)
  | None =>
      match after dc with
      | Some a => Some (After, a)
      | None => None
      end
  end.

(** Strictly earlier than the cutoff ([Before]) or strictly later ([After]). *)
Definition in_bound (kind : bound_kind) (cutoff d : datetime) : bool :=
  match kind with
  | Before => datetime_lt d cutoff
  | After => datetime_lt cutoff d
  end.

Definition within_bound (kind : bound_kind) (cutoff d : datetime) : Prop :=
  in_bound kind cutoff d = true.

(** Every event of the date category parses to a date within the bound. *)
Definition date_constraint_satisfied (strptime : string → string → option datetime)
    (date_cat : string) (kind : bound_kind) (cutoff : datetime)
    (entries : list entry) : Prop :=
  ∀ e, e ∈ entries → label e = date_cat →
    ∃ d, parse_date strptime (timestamp e) = Ok d ∧ within_bound kind cutoff d.

(** The with-date branch once its bound is read and parsed: the check of one
    timestamp, and the body of the nested loops. *)
Definition date_check (strptime : string → string → option datetime)
    (kind : bound_kind) (cutoff : datetime) (ts : string) : result bool :=
  d ← parse_date strptime ts; Ok (in_bound kind cutoff d).

Definition with_date_body (strptime : string → string → option datetime)
    (user_labels : gmap Z (list entry)) (categories : list string)
    (date_cat : string) (kind : bound_kind) (cutoff : datetime) (uid1 uid2 : Z)
  : result bool :=
  entries1 ← getitem user_labels uid1;
  entries2 ← getitem user_labels uid2;
  if negb (truthy (labels_of entries1 ∩ list_to_set categories)
           && truthy (labels_of entries2 ∩ list_to_set categories))
  then Ok false
  else
    p1 ← user_passes_date (date_check strptime kind cutoff) date_cat entries1;
    if (p1 : bool)
    then user_passes_date (date_check strptime kind cutoff) date_cat entries2
    else Ok false.

(** The dates a task needs are well formed: the bound of a with-date task
    parses, and so does the timestamp of every event of its date category. *)
Definition dates_parse (strptime : string → string → option datetime)
    (user_labels : gmap Z (list entry)) (t : task) : Prop :=
  match t with
  | both_have_any_with_date _ dc =>
      (∃ kind bound, bound_of dc = Some (kind, bound)
                     ∧ is_Ok (parse_date strptime bound))
      ∧ ∀ x ex e, user_labels !! x = Some ex → e ∈ ex → label e = category dc →
          is_Ok (parse_date strptime (timestamp e))
  | _ => True
  end.

(** Ascending first identifier, then ascending second identifier. *)
Definition lex_lt (p q : Z * Z) : Prop :=
  p.1 < q.1 ∨ (p.1 = q.1 ∧ p.2 < q.2).

(** The canonical pairs of two users of the store that satisfy [P]. *)
Definition pairs_where (user_labels : gmap Z (list entry))
    (P : list entry → list entry → Prop) (pairs : list (Z * Z)) : Prop :=
  ∀ x y, (x, y) ∈ pairs ↔
    x < y ∧ ∃ ex ey, user_labels !! x = Some ex ∧ user_labels !! y = Some ey ∧ P ex ey.

(** The pairs the nested loops visit, in the order they visit them. *)
Fixpoint ordered_pairs (user_ids : list Z) : list (Z * Z) :=
  match user_ids with
  | [] => []
  | uid1 :: rest => (pair uid1 <$> rest) ++ ordered_pairs rest
  end.

(** The loop body returned [True] (and raised nothing). *)
Definition returns_true (r : result bool) : bool :=
  match r with
  | Ok true => true
  | _ => false
  end.

(** *** Integer pairs in a text *)

Definition spaces (w : list ascii) : Prop :=
  Forall (λ c, Evaluate.is_space c = true) w.

Definition digits (d : list ascii) : Prop :=
  d ≠ [] ∧ Forall (λ c, Evaluate.is_digit c = true) d.

Definition optional (ch : ascii) (o : list ascii) : Prop := o = [] ∨ o = [ch].

(** The first character of a text, if any, is outside a character class. *)
Definition head_is_not (P : ascii → bool) (s : list ascii) : Prop :=
  match s with
  | [] => True
  | c :: _ => P c = false
  end.

(** A text that the pattern matches from its first to its last character:
    an optional opening parenthesis, whitespace, digits, whitespace, the
    comma, whitespace, digits, whitespace, an optional closing parenthesis;
    with the integers the two runs of digits denote. *)
Inductive pair_occurrence : list ascii → Z → Z → Prop :=
| pair_occurrence_intro lp w1 d1 w2 w3 d2 w4 rp :
    optional "(" lp → spaces w1 → digits d1 → spaces w2 →
    spaces w3 → digits d2 → spaces w4 → optional ")" rp →
    pair_occurrence
      (lp ++ w1 ++ d1 ++ w2 ++ "," :: w3 ++ d2 ++ w4 ++ rp)%char
      (Evaluate.int d1) (Evaluate.int d2).

Definition substring (m text : list ascii) : Prop :=
  ∃ pre post, text = pre ++ m ++ post.

(** The texts on which [Evaluate.is_space] and [Evaluate.is_digit] are the
    classes of the pattern: every character is an ASCII character. Outside
    ASCII a [str] pattern has further white space and further decimal
    digits, which the statements below do not cover. *)
Definition ascii_text (s : list ascii) : Prop :=
  Forall (λ c, (nat_of_ascii c < 128)%nat) s.

(** The texts on which [Evaluate.int] is the conversion the code makes: no
    run of digits is longer than the 4300 characters beyond which [int]
    raises ValueError. *)
Definition within_int_limit (s : list ascii) : Prop :=
  ∀ d, substring d s → Forall (λ c, Evaluate.is_digit c = true) d →
       (length d ≤ 4300)%nat.

(** The integer pairs a left-to-right scan without overlaps reports: where an
    occurrence starts at the current position, the longest one is reported
    and the scan resumes after it; otherwise the scan moves one character
    on. *)
Inductive scan : list ascii → list (Z * Z) → Prop :=
| scan_end : scan [] []
| scan_skip c s ps :
    (∀ m a b post, c :: s = m ++ post → ¬ pair_occurrence m a b) →
    scan s ps →
    scan (c :: s) ps
| scan_match m rest a b ps :
    pair_occurrence m a b →
    (∀ m' a' b' post, m ++ rest = m' ++ post → pair_occurrence m' a' b' →
       (length m' ≤ length m)%nat) →
    scan rest ps →
    scan (m ++ rest) ((a, b) :: ps).

End Spec.

(** ** Derived notions *)

Module Derived.
Import GenerateOolongPairs Spec.

(** The user is in the store and has an event of one of the categories. *)
Definition qualifies (user_labels : gmap Z (list entry)) (categories : list string)
    (uid : Z) : bool :=
  match user_labels !! uid with
  | Some entries => truthy (labels_of entries ∩ list_to_set categories)
  | None => false
  end.

(** Two events that a task cannot tell apart: they carry the same label and,
    when the task constrains the dates of that label, the same timestamp. *)
Definition same_for (t : task) (e e' : entry) : Prop :=
  label e = label e'
  ∧ match t with
    | both_have_any_with_date _ dc =>
        label e = category dc → timestamp e = timestamp e'
    | _ => True
    end.

(** Two stores with the same users, whose events correspond one to one. *)
Definition stores_agree (t : task) (user_labels user_labels' : gmap Z (list entry))
  : Prop :=
  ∀ x, option_Forall2 (Forall2 (same_for t)) (user_labels !! x) (user_labels' !! x).

(** The task has no date constraint, or its bound is present and parses. *)
Definition bound_parses (strptime : string → string → option datetime) (t : task)
  : Prop :=
  match t with
  | both_have_any_with_date _ dc =>
      ∃ kind bound, bound_of dc = Some (kind, bound)
                    ∧ is_Ok (parse_date strptime bound)
  | _ => True
  end.

End Derived.

(** ** evaluate.py: [main] *)

Module EvaluateMain.
Import Evaluate.

(** What [main] reports: the metrics it returns, and the three sets whose
    first elements it prints. *)
Record report := {
  metrics_of : metrics;
  correct : gset (Z * Z);
  missed : gset (Z * Z);
  false_positives : gset (Z * Z)
}.

(** [metrics[key]] for one of the three keys of the general path. *)
Definition metrics_getitem (field : option Z) : result Z :=
  match field with
  | Some v => Ok v
  | None => Raise KeyError
  end.

(** [main], with the two files it reads given by their contents: the
    "correct_pairs" entry of the dataset and the text of the prediction. The
    printed lines are left out; the dictionary accesses they make are kept,
    in their order. *)
Definition main (correct_pairs : list (Z * Z)) (prediction_text : string)
  : result report :=
  let ground_truth : gset (Z * Z) := list_to_set correct_pairs in
  let predicted := parse_pairs prediction_text in
  let metrics := compute_f1 predicted ground_truth in
  _ ← metrics_getitem (ground_truth_count metrics);
  _ ← metrics_getitem (predicted_count metrics);
  _ ← metrics_getitem (true_positives metrics);
  Ok {| metrics_of := metrics;
        correct := predicted ∩ ground_truth;
        missed := ground_truth ∖ predicted;
        false_positives := predicted ∖ ground_truth |}.

End EvaluateMain.

(** ** Exceptions of the scripts around the engine *)

Module Py.

Inductive error :=
  IndexError | ZeroDivisionError | ValueError | KeyError | FileNotFoundError.

Inductive outcome (A : Type) : Type :=
| Return (a : A)
| Throw (e : error).
Arguments Return {A} a.
Arguments Throw {A} e.

#[global] Instance outcome_bind : MBind outcome := λ A B k r,
  match r with
  | Return a => k a
  | Throw e => Throw e
  end.

(** A loop [for x in xs: acc = step(acc, x)] whose body may raise. *)
Fixpoint for_each {A B} (step : B → A → outcome B) (xs : list A) (acc : B)
  : outcome B :=
  match xs with
  | [] => Return acc
  | x :: xs' => acc' ← step acc x; for_each step xs' acc'
  end.

(** [[f(x) for x in xs]] *)
Definition comprehension {A B} (f : A → outcome B) (xs : list A) : outcome (list B) :=
  for_each (λ out x, y ← f x; Return (out ++ [y])) xs [].

(** [l[i]] for an index that is not negative. *)
Definition item {A} (l : list A) (i : nat) : outcome A :=
  match l !! i with
  | Some x => Return x
  | None => Throw IndexError
  end.

End Py.

(** ** find_user_pairs.py and summary.py *)

Module FindUserPairs.
Import Py.

(** One classified question: its category and the identifiers, as strings,
    of the users who asked it (the keys "idx" and "question" are not read
    here). *)
Record classified := { category : string; users : list string }.

(** The order of two elements under [key=int]. *)
Definition key_le (a b : Z * string) : Prop := a.1 ≤ b.1.

#[global] Instance key_le_dec : RelDecision key_le.
Proof. intros a b. unfold key_le. apply _. Defined.

Section with_int.
(** [int(u)] on a string; [None] stands for its ValueError. *)
Variable int : string → option Z.

Definition int_of (u : string) : outcome Z :=
  match int u with
  | Some n => Return n
  | None => Throw ValueError
  end.

(** [sorted(xs, key=int)]: the keys are computed first, then the elements
    are put in ascending order of their keys. *)
Definition sorted_by_int (xs : list string) : outcome (list string) :=
  keyed ← comprehension (λ u, n ← int_of u; Return (n, u)) xs;
  Return ((merge_sort key_le keyed).*2).

(** The set is a [gset]; its iteration order, which only decides the order
    of identifiers that denote the same integer, is the one of [elements]. *)
Definition find_users_with_numeric_or_location (classified_data : list classified)
  : outcome (list string) :=
  let target_users : gset string :=
    fold_left
      (λ target_users item,
         if bool_decide (category item ∈ ["numeric value"; "location"])
         then target_users ∪ list_to_set (users item)
         else target_users)
      classified_data ∅ in
  sorted_by_int (elements target_users).

Definition find_user_pairs (target_users : list string) : outcome (list (Z * Z)) :=
  ids ← comprehension int_of target_users;
  let user_ids := merge_sort Z.le ids in
  for_each
    (λ pairs i,
       for_each
         (λ pairs j,
            a ← item user_ids i;
            b ← item user_ids j;
            Return (pairs ++ [(a, b)]))
         (seq (i + 1) (length user_ids - (i + 1))) pairs)
    (seq 0 (length user_ids)) [].
End with_int.

(** The figures of summary.py that concern users: the number of users with
    a numeric value question, with a location question, with either, and the
    number of pairs it announces. *)
Record summary := {
  users_numeric : gset string;
  users_location : gset string;
  users_both : gset string;
  num_pairs : Z
}.

Definition summarize (classified_data : list classified) : summary :=
  let '(users_numeric, users_location) :=
    fold_left
      (λ '(users_numeric, users_location) item,
         if String.eqb (category item) "numeric value"
         then (users_numeric ∪ list_to_set (users item), users_location)
         else if String.eqb (category item) "location"
         then (users_numeric, users_location ∪ list_to_set (users item))
         else (users_numeric, users_location))
      classified_data ((∅ : gset string), (∅ : gset string)) in
  let users_both := users_numeric ∪ users_location in
  let n := Z.of_nat (size users_both) in
  {| users_numeric := users_numeric;
     users_location := users_location;
     users_both := users_both;
     num_pairs := n * (n - 1) / 2 |}.

(** The user asked a question classified as numeric value or location. *)
Definition selected (classified_data : list classified) (u : string) : Prop :=
  ∃ item, item ∈ classified_data
          ∧ category item ∈ ["numeric value"; "location"]
          ∧ u ∈ users item.

(** A sample [int]: it reads a non-empty run of decimal digits. *)
Definition sample_int (u : string) : option Z :=
  let s := list_ascii_of_string u in
  match s with
  | [] => None
  | _ => if forallb Evaluate.is_digit s then Some (Evaluate.int s) else None
  end.

End FindUserPairs.

(** ** find_user_pairs.py: the file of pairs it writes *)

Module PairFile.

(** [str(n)] for an int: its decimal numeral, with a minus sign when it is
    negative. *)
Definition str (n : Z) : string := pretty n.

(** [f"({pair[0]}, {pair[1]})\n"] *)
Definition pair_line (pair : Z * Z) : string :=
  "(" +:+ str pair.1 +:+ ", " +:+ str pair.2 +:+ ")" +:+ String "010" "".

(** The contents of the file after [for pair in pairs: f.write(...)]. *)
Definition written (pairs : list (Z * Z)) : string :=
  fold_left (λ contents pair, contents +:+ pair_line pair) pairs "".

(** The characters of one line. *)
Definition line_chars (pair : Z * Z) : list ascii :=
  ("(" :: list_ascii_of_string (str pair.1)
       ++ "," :: " " :: list_ascii_of_string (str pair.2)
       ++ [")"; "010"])%char.

End PairFile.

(** ** split_for_classification.py *)

Module SplitForClassification.
Import Py.

(** [a // b] on ints: the floor of the quotient. *)
Definition floordiv (a b : Z) : outcome Z :=
  if b =? 0 then Throw ZeroDivisionError else Return (a / b).

(** [range(start, stop, step)], as the list of its elements. *)
Definition range (start stop step : Z) : outcome (list Z) :=
  if step =? 0 then Throw ValueError
  else
    let n :=
      if 0 <? step
      then (if start <? stop then (stop - start - 1) / step + 1 else 0)
      else (if stop <? start then (start - stop - 1) / (- step) + 1 else 0) in
    Return ((λ k, start + Z.of_nat k * step) <$> seq 0 (Z.to_nat n)).

(** A bound of a slice, brought into the list: a negative bound counts from
    the end, and both ends are clipped. *)
Definition clip (len i : Z) : Z :=
  if i <? 0 then Z.max (i + len) 0 else Z.min i len.

(** [l[lo:hi]] *)
Definition slice {A} (l : list A) (lo hi : Z) : list A :=
  let len := Z.of_nat (length l) in
  take (Z.to_nat (clip len hi - clip len lo)) (drop (Z.to_nat (clip len lo)) l).

Definition split_into_batches {A} (questions_list : list A) (num_batches : Z)
  : outcome (list (list A)) :=
  q ← floordiv (Z.of_nat (length questions_list)) num_batches;
  let batch_size := q + 1 in
  indices ← range 0 (Z.of_nat (length questions_list)) batch_size;
  Return
    (fold_left
       (λ batches i, batches ++ [slice questions_list i (i + batch_size)])
       indices []).

End SplitForClassification.

(** ** The task catalogues and the selection of a task by its number *)

Module TaskCatalog.
Import Py GenerateOolongPairs.

(** [l[i]] for an int index: a negative index counts from the end of the
    list. *)
Definition index {A} (l : list A) (i : Z) : outcome A :=
  let i := if i <? 0 then i + Z.of_nat (length l) else i in
  if i <? 0 then Throw IndexError else item l (Z.to_nat i).

(** A task of a catalogue: its "id" and the keys that select and
    parametrise a branch of the ground truth. The "query" text, which the
    ground truth does not read, is left out. *)
Record numbered := { id : Z; criteria : task }.

(** A requirement bundle, by the keys it has. *)
Definition bundle (has_all : option (list string))
    (at_least exactly : option (gmap string Z)) : constraint :=
  {| has_all := has_all; at_least := at_least; exactly := exactly |}.

Definition before_date (category bound : string) : date_constraint :=
  {| category := category; before := Some bound; after := None |}.

Definition after_date (category bound : string) : date_constraint :=
  {| category := category; before := None; after := Some bound |}.

(** generate_oolong_pairs.py: [OOLONG_PAIRS_TASKS] *)
Definition OOLONG_PAIRS_TASKS : list numbered :=
  [ {| id := 1; criteria := both_have_any ["NUM"; "LOC"] |};
    {| id := 2; criteria := both_have_any ["ENTY"; "HUM"] |};
    {| id := 3; criteria := both_have_any ["DESC"; "ABBR"] |};
    {| id := 4; criteria := both_have_any_with_date ["HUM"; "LOC"]
                              (after_date "HUM" "2023-01-06") |};
    {| id := 5; criteria := both_have_any_with_date ["ENTY"; "NUM"]
                              (before_date "ENTY" "2023-03-15") |};
    {| id := 6; criteria := both_have_any ["LOC"; "ABBR"] |};
    {| id := 7; criteria := both_have_any_with_date ["DESC"; "NUM"]
                              (after_date "NUM" "2023-02-01") |};
    {| id := 8; criteria := both_have_any ["HUM"; "DESC"] |};
    {| id := 9; criteria := both_have_any_with_date ["ENTY"; "LOC"]
                              (after_date "LOC" "2023-04-10") |};
    {| id := 10; criteria := both_have_any_with_date ["NUM"; "ABBR"]
                               (before_date "ABBR" "2023-05-20") |};
    {| id := 11; criteria := asymmetric
         (bundle (Some ["ENTY"; "ABBR"]) None None)
         (bundle None None (Some {[ "ENTY" := 1 ]})) |};
    {| id := 12; criteria := asymmetric
         (bundle None (Some {[ "NUM" := 2 ]}) None)
         (bundle (Some ["LOC"; "HUM"]) None None) |};
    {| id := 13; criteria := asymmetric
         (bundle None None (Some {[ "DESC" := 1 ]}))
         (bundle (Some ["ABBR"; "ENTY"]) None None) |};
    {| id := 14; criteria := asymmetric
         (bundle (Some ["HUM"; "NUM"]) None None)
         (bundle None None (Some {[ "LOC" := 2 ]})) |};
    {| id := 15; criteria := asymmetric
         (bundle (Some ["ENTY"; "LOC"; "ABBR"]) None None)
         (bundle None None (Some {[ "NUM" := 1 ]})) |};
    {| id := 16; criteria := asymmetric
         (bundle (Some ["DESC"; "HUM"]) None None)
         (bundle None (Some {[ "ENTY" := 2 ]}) (Some {[ "ABBR" := 1 ]})) |};
    {| id := 17; criteria := asymmetric
         (bundle None None (Some {[ "NUM" := 1 ]}))
         (bundle (Some ["LOC"; "DESC"]) None None) |};
    {| id := 18; criteria := asymmetric
         (bundle (Some ["ABBR"]) None (Some {[ "HUM" := 1 ]}))
         (bundle (Some ["ENTY"; "NUM"]) None None) |};
    {| id := 19; criteria := asymmetric
         (bundle (Some ["ENTY"]) (Some {[ "LOC" := 2 ]}) None)
         (bundle None None (Some {[ "DESC" := 1; "ABBR" := 1 ]})) |};
    {| id := 20; criteria := asymmetric
         (bundle (Some ["NUM"; "HUM"]) None None)
         (bundle (Some ["LOC"; "ENTY"]) None (Some {[ "ABBR" := 1 ]})) |} ].

(** generate_oolong_pairs.py, [main]:
    [task = OOLONG_PAIRS_TASKS[args.task_id - 1]] *)
Definition select_task (task_id : Z) : outcome numbered :=
  index OOLONG_PAIRS_TASKS (task_id - 1).

(** generate_dataset.py: [generate_task] *)
Definition generate_task (task_num : Z) : outcome numbered :=
  let tasks :=
    [ {| id := 1; criteria := both_have_any ["ENTY"; "LOC"] |};
      {| id := 2; criteria := both_have_any ["DESC"; "HUM"] |};
      {| id := 3; criteria := both_have_any ["NUM"; "ABBR"] |};
      {| id := 4; criteria := both_have_any_with_date ["ENTY"; "NUM"]
                                (before_date "ENTY" "2023-03-15") |};
      {| id := 5; criteria := asymmetric
           (bundle (Some ["ENTY"; "ABBR"]) None None)
           (bundle None None (Some {[ "ENTY" := 1 ]})) |} ] in
  if task_num <=? Z.of_nat (length tasks)
  then index tasks (task_num - 1)
  else index tasks 0.

(** The task selects one of the three branches of the ground truth. *)
Definition handled (t : task) : bool :=
  match t with
  | other_type _ => false
  | _ => true
  end.

End TaskCatalog.

(** ** generate_dataset.py: [compute_ground_truth_pairs] *)

Module GenerateDatasetTasks.
Import GenerateOolongPairs
  (task, both_have_any, both_have_any_with_date, asymmetric, other_type,
   date_constraint, before, datetime, year, month, day, datetime_lt).
Import GenerateDataset.

(** A [datetime] with its time of day, as [strptime] returns it under the
    format [%Y-%m-%d %H:%M:%S]; under [%Y-%m-%d] the time of day is
    midnight. The microseconds, which are zero under both formats, are left
    out. *)
Record timepoint := { date : datetime; hour : Z; minute : Z; second : Z }.

(** Comparison of two moments: field by field, the year first. *)
Definition then_cmp (c next : comparison) : comparison :=
  match c with
  | Eq => next
  | _ => c
  end.

Definition cmp (a b : timepoint) : comparison :=
  then_cmp (year (date a) ?= year (date b))
    (then_cmp (month (date a) ?= month (date b))
       (then_cmp (day (date a) ?= day (date b))
          (then_cmp (hour a ?= hour b)
             (then_cmp (minute a ?= minute b) (second a ?= second b))))).

(** [a >= b] *)
Definition ge (a b : timepoint) : bool :=
  match cmp a b with
  | Lt => false
  | _ => true
  end.

(** [set(e["category"] for e in entries)] *)
Definition categories_of (entries : list entry) : gset string :=
  list_to_set (category <$> entries).

Section with_strptime.
(** [datetime.strptime(date_string, format)]; [None] stands for its
    ValueError. *)
Variable strptime : string → string → option timepoint.

Definition parse (date_string format : string) : result timepoint :=
  match strptime date_string format with
  | Some t => Ok t
  | None => Raise ValueError
  end.

(** The local [check_date_constraint] of the with-date branch; [date_cat]
    and [before_date] are the variables it closes over. *)
Fixpoint check_date_constraint (date_cat : string) (before_date : timepoint)
    (entries : list entry) : result bool :=
  match entries with
  | [] => Ok true
  | e :: rest =>
      if decide (category e = date_cat) then
        ts ← parse (timestamp e) "%Y-%m-%d %H:%M:%S";
        if ge ts before_date then Ok false
        else check_date_constraint date_cat before_date rest
      else check_date_constraint date_cat before_date rest
  end.

(** The loop body of the with-date branch. *)
Definition with_date_check (ground_truth : gmap Z (list entry))
    (target_cats : gset string) (date_cat : string) (before_date : timepoint)
    (uid1 uid2 : Z) : result bool :=
  entries1 ← getitem ground_truth uid1;
  entries2 ← getitem ground_truth uid2;
  let cats1 := categories_of entries1 in
  let cats2 := categories_of entries2 in
  if negb (truthy (cats1 ∩ target_cats) && truthy (cats2 ∩ target_cats))
  then Ok false
  else
    p1 ← check_date_constraint date_cat before_date entries1;
    if (p1 : bool) then check_date_constraint date_cat before_date entries2
    else Ok false.

(** As for the asymmetric branch, the store is keyed by the integer that
    [int(uid)] reads back from a key. *)
Definition compute_ground_truth_pairs (ground_truth : gmap Z (list entry)) (t : task)
  : result (list (Z * Z)) :=
  let user_ids := sorted_keys ground_truth in
  match t with
  | both_have_any categories =>
      let target_cats : gset string := list_to_set categories in
      outer_loop
        (λ uid1 uid2,
           entries1 ← getitem ground_truth uid1;
           let cats1 := categories_of entries1 in
           entries2 ← getitem ground_truth uid2;
           let cats2 := categories_of entries2 in
           Ok (truthy (cats1 ∩ target_cats) && truthy (cats2 ∩ target_cats)))
        user_ids []
  | both_have_any_with_date categories dc =>
      let target_cats : gset string := list_to_set categories in
      let date_cat := GenerateOolongPairs.category dc in
      bound ← match before dc with Some b => Ok b | None => Raise KeyError end;
      before_date ← parse bound "%Y-%m-%d";
      outer_loop (with_date_check ground_truth target_cats date_cat before_date)
        user_ids []
  | asymmetric user_a_req user_b_req =>
      compute_ground_truth_pairs_asymmetric ground_truth user_a_req user_b_req
  | other_type _ => Ok []
  end.

(** Every event of the date category carries a timestamp that parses to a
    moment of a day before the day of the cutoff. *)
Definition days_before (date_cat : string) (before_date : timepoint)
    (entries : list entry) : Prop :=
  ∀ e, e ∈ entries → category e = date_cat →
    ∃ ts, strptime (timestamp e) "%Y-%m-%d %H:%M:%S" = Some ts
          ∧ datetime_lt (date ts) (date before_date) = true.

(** The user has an event of one of the categories. *)
Definition has_any (categories : list string) (entries : list entry) : Prop :=
  ∃ e, e ∈ entries ∧ category e ∈ categories.
End with_strptime.

(** [strptime] gives a time of day that is not negative, and midnight under
    the date-only format. *)
Definition times_of_day (strptime : string → string → option timepoint) : Prop :=
  ∀ date_string format t,
    strptime date_string format = Some t →
    0 ≤ hour t ∧ 0 ≤ minute t ∧ 0 ≤ second t
    ∧ (format = "%Y-%m-%d" → hour t = 0 ∧ minute t = 0 ∧ second t = 0).

(** A sample [strptime] for the two formats: it reads a ten-character
    YYYY-MM-DD date, followed under the second format by a space and
    HH:MM:SS. *)
Definition sample_strptime (date_string format : string) : option timepoint :=
  if String.eqb format "%Y-%m-%d" then
    d ← Sample.strptime date_string "%Y-%m-%d";
    Some {| date := d; hour := 0; minute := 0; second := 0 |}
  else if String.eqb format "%Y-%m-%d %H:%M:%S" then
    d ← Sample.strptime (String.substring 0 10 date_string) "%Y-%m-%d";
    match list_ascii_of_string (String.substring 10 (String.length date_string) date_string) with
    | [sp; h1; h2; c1; m1; m2; c2; s1; s2] =>
        let h := Evaluate.int [h1; h2] in
        let m := Evaluate.int [m1; m2] in
        let s := Evaluate.int [s1; s2] in
        if forallb Evaluate.is_digit [h1; h2; m1; m2; s1; s2]
           && Ascii.eqb sp " " && Ascii.eqb c1 ":" && Ascii.eqb c2 ":"
           && (0 <=? h) && (h <=? 23) && (0 <=? m) && (m <=? 59)
           && (0 <=? s) && (s <=? 59)
        then Some {| date := d; hour := h; minute := m; second := s |}
        else None
    | _ => None
    end
  else None.

(** A store of three users around the bound 2023-03-15. *)
Definition sample_ground_truth : gmap Z (list entry) :=
  {[ 1 := [ {| category := "ENTY"; timestamp := "2023-03-14 23:59:59";
               question := "What is the largest mammal?" |} ];
     2 := [ {| category := "ENTY"; timestamp := "2023-03-15 00:00:00";
               question := "What gemstone is red?" |};
            {| category := "NUM"; timestamp := "2023-01-01 08:00:00";
               question := "How many days are in a year?" |} ];
     3 := [ {| category := "NUM"; timestamp := "2023-05-01 12:30:00";
               question := "How many days are in a year?" |} ] ]}.

End GenerateDatasetTasks.

(** ** process_questions.py, and the input file it reads *)

Module ProcessQuestions.
Import Evaluate.

(** Texts are lists of characters while they are scanned, strings where they
    are stored. *)
Local Abbreviation chars := list_ascii_of_string.
Local Abbreviation text := string_of_list_ascii.

(** *** The backtracking matcher *)

(** A piece of a pattern, tried at the head of a text, gives the ways in
    which it can match, in the order in which the backtracking engine tries
    them; each way is the text matched and the text left. *)
Fixpoint literal (w s : list ascii) : list (list ascii * list ascii) :=
  match w, s with
  | [], _ => [([], s)]
  | c :: w', d :: s' =>
      if Ascii.eqb c d then prod_map (cons c) id <$> literal w' s' else []
  | _ :: _, [] => []
  end.

(** [class*], greedy: one more character of the class is tried before
    none. *)
Fixpoint star (class : ascii → bool) (s : list ascii)
  : list (list ascii * list ascii) :=
  match s with
  | c :: s' =>
      if class c then (prod_map (cons c) id <$> star class s') ++ [([], s)]
      else [([], s)]
  | [] => [([], [])]
  end.

(** [class+] *)
Definition plus (class : ascii → bool) (s : list ascii)
  : list (list ascii * list ascii) :=
  match s with
  | c :: s' => if class c then prod_map (cons c) id <$> star class s' else []
  | [] => []
  end.

(** [[^|]] and [.] *)
Definition not_pipe (c : ascii) : bool := negb (Ascii.eqb c "|").
Definition dot (c : ascii) : bool := negb (Ascii.eqb c "010").

(** The ways in which the pattern
    [Date:\s*[^|]+\|\|\s*User:\s*(\d+)\s*\|\|\s*Instance:\s*(.+)]
    matches at the head of the line, with the two groups of each. *)
Definition pattern (line : list ascii) : list (list ascii * list ascii) :=
  '(_, s) ← literal (chars "Date:") line;
  '(_, s) ← star is_space s;
  '(_, s) ← plus not_pipe s;
  '(_, s) ← literal (chars "||") s;
  '(_, s) ← star is_space s;
  '(_, s) ← literal (chars "User:") s;
  '(_, s) ← star is_space s;
  '(group1, s) ← plus is_digit s;
  '(_, s) ← star is_space s;
  '(_, s) ← literal (chars "||") s;
  '(_, s) ← star is_space s;
  '(_, s) ← literal (chars "Instance:") s;
  '(_, s) ← star is_space s;
  '(group2, s) ← plus dot s;
  [(group1, group2)].

(** [re.match(pattern, line)]: the first way, if there is one. *)
Definition re_match (line : list ascii) : option (list ascii * list ascii) :=
  head (pattern line).

(** *** Lines *)

(** [s.strip()] *)
Definition strip (s : list ascii) : list ascii :=
  reverse (skip_spaces (reverse (skip_spaces s))).

(** [s.startswith(w)] *)
Fixpoint startswith (w s : list ascii) : bool :=
  match w, s with
  | [], _ => true
  | c :: w', d :: s' => Ascii.eqb c d && startswith w' s'
  | _ :: _, [] => false
  end.

(** [for line in f]: the text is cut after each newline; [current] is the
    line being read. *)
Fixpoint lines_from (current s : list ascii) : list (list ascii) :=
  match s with
  | [] => match current with [] => [] | _ => [current] end
  | c :: s' =>
      if Ascii.eqb c "010" then (current ++ [c]) :: lines_from [] s'
      else lines_from (current ++ [c]) s'
  end.

(** The file is opened in text mode with universal newlines: a carriage
    return, alone or followed by a newline, reaches the program as one
    newline. *)
Fixpoint universal_newlines (s : list ascii) : list ascii :=
  match s with
  | [] => []
  | c :: rest =>
      if Ascii.eqb c "013" then
        "010"%char
        :: match rest with
           | d :: rest' =>
               if Ascii.eqb d "010" then universal_newlines rest'
               else universal_newlines rest
           | [] => []
           end
      else c :: universal_newlines rest
  end.

Definition readlines (contents : string) : list (list ascii) :=
  lines_from [] (universal_newlines (chars contents)).

(** The body of the loop of [parse_input_file] over the lines of the file;
    [user_questions] is a [defaultdict(list)]. *)
Definition read_line (user_questions : gmap string (list string)) (line : list ascii)
  : gmap string (list string) :=
  let line := strip line in
  if bool_decide (line = []) || negb (startswith (chars "Date:") line)
  then user_questions
  else
    match re_match line with
    | Some (group1, group2) =>
        let user_id := text group1 in
        let question := text (strip group2) in
        <[user_id := default [] (user_questions !! user_id) ++ [question]]>
          user_questions
    | None => user_questions
    end.

(** [parse_input_file], on the text that the file holds. The character
    classes of the pattern and of [strip] are those of an ASCII text
    ([Spec.ascii_text]). *)
Definition parse_input_file (contents : string) : gmap string (list string) :=
  fold_left read_line (readlines contents) ∅.

(** *** The file: generate_oolong_pairs.py *)

(** An entry of the dataset; its label is not written to the file. *)
Record entry := { user_id : Z; timestamp : string; question : string }.

Definition newline : string := String "010" "".

(** [sep.join(lines)] *)
Fixpoint join (sep : string) (lines : list string) : string :=
  match lines with
  | [] => ""
  | [l] => l
  | l :: rest => l +:+ sep +:+ join sep rest
  end.

Definition context_line (e : entry) : string :=
  "Date: " +:+ timestamp e +:+ " || User: " +:+ PairFile.str (user_id e)
  +:+ " || Instance: " +:+ question e.

Definition header : string :=
  "The following lines contain question data. Each line has:" +:+ newline
  +:+ "Date || User || Instance (question)" +:+ newline +:+ newline.

Definition format_context (entries : list entry) : string :=
  join newline (header :: (context_line <$> entries)).

(** The text [main] writes to the input file. *)
Definition prompt (entries : list entry) (full_query : string) : string :=
  format_context entries +:+ newline +:+ newline +:+ full_query.

(** *** Vocabulary of the properties *)

(** An ASCII character that ends no line: neither a newline nor a carriage
    return. *)
Definition in_line (c : ascii) : bool :=
  (nat_of_ascii c <? 128)%nat && dot c && negb (Ascii.eqb c "013").

(** An entry that survives the way through the file: its user id is not
    negative and has at most 4300 digits (beyond which [str] raises
    ValueError), its timestamp and its question are ASCII texts on one
    line, the timestamp without a pipe and the question not blank. *)
Definition well_formed (e : entry) : Prop :=
  0 ≤ user_id e < 10 ^ 4300
  ∧ Forall (λ c, not_pipe c = true ∧ in_line c = true) (chars (timestamp e))
  ∧ Forall (λ c, in_line c = true) (chars (question e))
  ∧ strip (chars (question e)) ≠ [].

(** The line is skipped by the reader before the pattern is tried. *)
Definition skipped (line : list ascii) : Prop :=
  strip line = [] ∨ startswith (chars "Date:") (strip line) = false.

(** The questions of the entries of a user, stripped, in the order of the
    entries; [None] when the user has no entry. *)
Definition questions_of (u : string) (entries : list entry) : option (list string) :=
  match filter (λ e, PairFile.str (user_id e) = u) entries with
  | [] => None
  | es => Some ((λ e, text (strip (chars (question e)))) <$> es)
  end.

(** Three entries of two users, and the query of task 1 with the suffix
    that [main] appends to it. *)
Definition sample_entries : list entry :=
  [ {| user_id := 12345; timestamp := "Dec 12, 2022";
       question := "What is the capital of France ?" |};
    {| user_id := 40077; timestamp := "Jan 03, 2023";
       question := "Who wrote Hamlet ? " |};
    {| user_id := 12345; timestamp := "Feb 17, 2023";
       question := "How many moons does Mars have ?" |} ].

Definition sample_query : string :=
  "In the above data, list all pairs of user IDs (no duplicate pairs, list lower ID first) where both users have at least one instance with a numeric value or location."
  +:+ " "
  +:+ "Each of the questions can be labelled as one of the labels (the data does not provide the labels, you need to figure out the label from the semantics of the question): description and abstract concept, entity, human being, numeric value, location, abbreviation. In your answer, list all pairs in the format (user id 1, user id 2), separated by newlines.".

End ProcessQuestions.

(** ** The batch files: split_for_classification.py and
    classify_questions.py *)

Module Questions.

(** One element of questions_for_classification.json, and of a batch
    file. *)
Record listed := { idx : Z; question : string; users : list string }.

End Questions.

Module ClassifyQuestions.
Import Py SplitForClassification.

(** One element of a classified file. *)
Record classified := {
  idx : Z;
  question : string;
  category : string;
  users : list string
}.

(** The batch files that exist, by their number: [files !! i] is the
    contents of batch_i.json. *)
Definition directory := gmap Z (list Questions.listed).

(** split_for_classification.py, [__main__]: the list is split with
    [num_batches=3], and batch [i] is written to batch_i.json. *)
Definition write_batches (files : directory) (questions_list : list Questions.listed)
  : outcome directory :=
  batches ← split_into_batches questions_list 3;
  Return
    (fold_left (λ files '(i, batch), <[Z.of_nat i := batch]> files)
       (zip (seq 0 (length batches)) batches) files).

(** [open(batch_file)] and [json.load] *)
Definition load (files : directory) (i : Z) : outcome (list Questions.listed) :=
  match files !! i with
  | Some questions => Return questions
  | None => Throw FileNotFoundError
  end.

Section with_classifier.
(** The heuristic [classify_question], which is a function of the question
    text. *)
Variable classify_question : string → string.

(** [process_batch]: its result (the file it writes is left out). *)
Definition process_batch (questions : list Questions.listed) : list classified :=
  (λ item, {| idx := Questions.idx item;
              question := Questions.question item;
              category := classify_question (Questions.question item);
              users := Questions.users item |}) <$> questions.

(** classify_questions.py, [__main__]: the batches 0, 1 and 2 are read and
    classified in turn; the result is the list written to
    classified_all.json. *)
Definition main (files : directory) : outcome (list classified) :=
  for_each
    (λ all_results i,
       questions ← load files i;
       Return (all_results ++ process_batch questions))
    [0; 1; 2] [].
End with_classifier.

End ClassifyQuestions.

(** ** process_questions.py: [save_questions_for_classification] *)

Module SaveQuestions.

(** The order of two [str]: the first character at which they differ
    decides, by its code; a proper prefix comes first. *)
Definition str_le (a b : string) : Prop := String.leb a b = true.

#[global] Instance str_le_dec : RelDecision str_le.
Proof. intros a b. unfold str_le. apply _. Defined.

Definition str_lt (a b : string) : Prop := String.compare a b = Lt.

(** The order of two items [(question, users)] of the dict under [sorted]:
    the questions are keys of the dict, hence differ, and decide. *)
Definition item_le (a b : string * gset string) : Prop := str_le a.1 b.1.

#[global] Instance item_le_dec : RelDecision item_le.
Proof. intros a b. unfold item_le. apply _. Defined.

(** [save_questions_for_classification]: the list it returns (the file it
    writes is left out). The dict [user_questions] is visited in the order
    of [map_to_list]; the sets that are built do not depend on the order. *)
Definition save_questions_for_classification
    (user_questions : gmap string (list string)) : list Questions.listed :=
  let question_to_users : gmap string (gset string) :=
    fold_left
      (λ question_to_users '(user_id, questions),
         fold_left
           (λ question_to_users question,
              <[question := default ∅ (question_to_users !! question)
                            ∪ {[ user_id ]}]> question_to_users)
           questions question_to_users)
      (map_to_list user_questions) ∅ in
  imap
    (λ idx '(question, users),
       {| Questions.idx := Z.of_nat idx;
          Questions.question := question;
          Questions.users := merge_sort str_le (elements users) |})
    (merge_sort item_le (map_to_list question_to_users)).

(** The user asked the question. *)
Definition asked (user_questions : gmap string (list string)) (u q : string) : Prop :=
  ∃ questions, user_questions !! u = Some questions ∧ q ∈ questions.

End SaveQuestions.

Import GenerateOolongPairs Spec.

(** * Properties *)

(** ** Requirement bundles *)

Lemma count_labels_fold (entries : list entry) (acc : gmap string Z) (cat : string) :
  get0 (fold_left
          (λ label_counts e,
             <[label e := default 0 (label_counts !! label e) + 1]> label_counts)
          entries acc) cat
  = get0 acc cat + count_label cat entries.
Proof.
  revert acc. induction entries as [|e entries IH]; intros acc; simpl.
  - unfold count_label. simpl. lia.
  - rewrite IH. unfold count_label, get0. rewrite filter_cons.
    destruct (decide (label e = cat)) as [->|Hne].
    + rewrite lookup_insert_eq. simpl. lia.
    + rewrite lookup_insert_ne by done. lia.
Qed.

Lemma count_labels_get (entries : list entry) (cat : string) :
  get0 (count_labels entries) cat = count_label cat entries.
Proof.
  unfold count_labels. rewrite count_labels_fold.
  unfold get0. rewrite lookup_empty. simpl. lia.
Qed.

Lemma cats_loop_true (bad : string → bool) (cats : list string) :
  cats_loop bad cats = true ↔ ∀ cat, cat ∈ cats → bad cat = false.
Proof.
  induction cats as [|c cats IH]; simpl.
  - split; [intros _ cat Hin; inversion Hin | done].
  - destruct (bad c) eqn:Hc.
    + split; [done|]. intros H. rewrite (H c) in Hc; [done | left].
    + rewrite IH. split.
      * intros H cat Hin. inversion Hin; subst; auto.
      * intros H cat Hin. apply H. by right.
Qed.

Lemma items_loop_true (bad : string → Z → bool) (items : list (string * Z)) :
  items_loop bad items = true ↔ ∀ cat n, (cat, n) ∈ items → bad cat n = false.
Proof.
  induction items as [|[c k] items IH]; simpl.
  - split; [intros _ cat n Hin; inversion Hin | done].
  - destruct (bad c k) eqn:Hc.
    + split; [done|]. intros H. rewrite (H c k) in Hc; [done | left].
    + rewrite IH. split.
      * intros H cat n Hin. inversion Hin; subst; auto.
      * intros H cat n Hin. apply H. by right.
Qed.

Lemma items_loop_dict (bad : string → Z → bool) (d : gmap string Z) :
  items_loop bad (map_to_list d) = true ↔ ∀ cat n, d !! cat = Some n → bad cat n = false.
Proof.
  rewrite items_loop_true. split; intros H cat n Hin; apply H.
  - by apply elem_of_map_to_list.
  - by apply elem_of_map_to_list in Hin.
Qed.

Lemma check_user_constraint_true (entries : list entry) (c : constraint) :
  check_user_constraint entries c = true ↔ satisfies_side entries c.
Proof.
  unfold check_user_constraint, satisfies_side.
  destruct c as [ha al ex]; simpl.
  assert (Hha :
    match ha with
    | Some cats => cats_loop (λ cat, get0 (count_labels entries) cat <? 1) cats
    | None => true
    end = true ↔
    ∀ cats, ha = Some cats → ∀ cat, cat ∈ cats → 1 ≤ count_label cat entries).
  { destruct ha as [cats|].
    - rewrite cats_loop_true. split.
      + intros H cats' [= <-] cat Hin. specialize (H cat Hin).
        rewrite count_labels_get in H. lia.
      + intros H cat Hin. rewrite count_labels_get.
        specialize (H cats eq_refl cat Hin). lia.
    - split; [intros _ cats' [=] | done]. }
  assert (Hal :
    match al with
    | Some d => items_loop (λ cat min_count, get0 (count_labels entries) cat <? min_count)
                           (map_to_list d)
    | None => true
    end = true ↔
    ∀ d, al = Some d → ∀ cat n, d !! cat = Some n → n ≤ count_label cat entries).
  { destruct al as [d|].
    - rewrite items_loop_dict. split.
      + intros H d' [= <-] cat n Hin. specialize (H cat n Hin).
        rewrite count_labels_get in H. lia.
      + intros H cat n Hin. rewrite count_labels_get.
        specialize (H d eq_refl cat n Hin). lia.
    - split; [intros _ d' [=] | done]. }
  assert (Hex :
    match ex with
    | Some d => items_loop (λ cat exact_count,
                              negb (get0 (count_labels entries) cat =? exact_count))
                           (map_to_list d)
    | None => true
    end = true ↔
    ∀ d, ex = Some d → ∀ cat n, d !! cat = Some n → count_label cat entries = n).
  { destruct ex as [d|].
    - rewrite items_loop_dict. split.
      + intros H d' [= <-] cat n Hin. specialize (H cat n Hin).
        rewrite count_labels_get in H. lia.
      + intros H cat n Hin. rewrite count_labels_get.
        specialize (H d eq_refl cat n Hin). lia.
    - split; [intros _ d' [=] | done]. }
  rewrite <- Hha, <- Hal, <- Hex.
  repeat match goal with |- context [negb ?b] => destruct b; simpl end; intuition congruence.
Qed.

(** C4. Side satisfaction is the conjunction of the present clauses: every
    category of has_all occurs at least once, every category of at_least
    occurs at least its minimum number of times, every category of exactly
    occurs exactly its target number of times. For an exactly-one clause on a
    category, a user with 0 or 2 occurrences fails and a user with 1 passes. *)
Theorem check_user_constraint_spec (entries : list entry) (c : constraint) :
  (check_user_constraint entries c = true ↔ satisfies_side entries c)
  ∧ ∀ cat,
      let exactly_one :=
        {| has_all := None; at_least := None; exactly := Some {[ cat := 1 ]} |} in
      (count_label cat entries = 0 → check_user_constraint entries exactly_one = false)
      ∧ (count_label cat entries = 2 → check_user_constraint entries exactly_one = false)
      ∧ (count_label cat entries = 1 → check_user_constraint entries exactly_one = true).
Proof.
  split; [apply check_user_constraint_true|].
  intros cat exactly_one.
  assert (Hone : satisfies_side entries exactly_one ↔ count_label cat entries = 1).
  { unfold satisfies_side, exactly_one; simpl. split.
    - intros (_ & _ & H). apply (H _ eq_refl). apply lookup_singleton_eq.
    - intros H. repeat split; try discriminate.
      intros d [= <-] cat' n Hl. apply lookup_singleton_Some in Hl as [<- <-]. done. }
  repeat split; intros Hc.
  - apply not_true_is_false. rewrite check_user_constraint_true, Hone. lia.
  - apply not_true_is_false. rewrite check_user_constraint_true, Hone. lia.
  - rewrite check_user_constraint_true, Hone. done.
Qed.

(** ** The nested loops *)

Section loop_facts.
Context (body : Z → Z → result bool).

Let hit (p : Z * Z) : Prop := returns_true (body p.1 p.2).

Lemma inner_loop_Ok uid1 rest acc pairs :
  inner_loop body uid1 rest acc = Ok pairs →
  pairs = acc ++ filter hit (pair uid1 <$> rest).
Proof.
  revert acc. induction rest as [|uid2 rest IH]; intros acc; simpl.
  - intros [= <-]. by rewrite app_nil_r.
  - destruct (body uid1 uid2) as [[]|e] eqn:Hb; simpl; try done.
    + intros H. apply IH in H.
      rewrite filter_cons_True by (unfold hit; simpl; by rewrite Hb).
      by rewrite H, <- app_assoc.
    + rewrite filter_cons_False by (unfold hit; simpl; rewrite Hb; simpl; tauto).
      apply IH.
Qed.

Lemma inner_loop_total uid1 rest acc :
  (∀ uid2, uid2 ∈ rest → is_Ok (body uid1 uid2)) →
  is_Ok (inner_loop body uid1 rest acc).
Proof.
  revert acc. induction rest as [|uid2 rest IH]; intros acc Hok; simpl.
  - by eexists.
  - destruct (Hok uid2) as [b ->]; [left|]. simpl.
    apply IH. intros y Hy. apply Hok. by right.
Qed.

Lemma outer_loop_Ok user_ids acc pairs :
  outer_loop body user_ids acc = Ok pairs →
  pairs = acc ++ filter hit (ordered_pairs user_ids).
Proof.
  revert acc. induction user_ids as [|uid1 rest IH]; intros acc; simpl.
  - intros [= <-]. by rewrite app_nil_r.
  - destruct (inner_loop body uid1 rest acc) as [pairs'|e] eqn:Hin; simpl; [|done].
    intros H. apply IH in H. apply inner_loop_Ok in Hin.
    by rewrite H, Hin, filter_app, app_assoc.
Qed.

Lemma outer_loop_total user_ids acc :
  (∀ p, p ∈ ordered_pairs user_ids → is_Ok (body p.1 p.2)) →
  is_Ok (outer_loop body user_ids acc).
Proof.
  revert acc. induction user_ids as [|uid1 rest IH]; intros acc Hok; simpl.
  - by eexists.
  - destruct (inner_loop_total uid1 rest acc) as [pairs' ->].
    { intros y Hy. apply (Hok (uid1, y)). simpl.
      apply elem_of_app. left. apply list_elem_of_fmap. eauto. }
    simpl. apply IH. intros p Hp. apply Hok. simpl.
    apply elem_of_app. by right.
Qed.
End loop_facts.

Lemma ordered_pairs_elem (user_ids : list Z) (x y : Z) :
  StronglySorted Z.lt user_ids →
  (x, y) ∈ ordered_pairs user_ids ↔ x ∈ user_ids ∧ y ∈ user_ids ∧ x < y.
Proof.
  induction 1 as [|u rest Hs IH Hall]; simpl.
  - split; [intros H; inversion H | intros [H _]; inversion H].
  - rewrite Forall_forall in Hall.
    rewrite elem_of_app, list_elem_of_fmap, IH, !elem_of_cons. split.
    + intros [(y' & [= -> ->] & Hy) | (Hx & Hy & Hlt)]; [|by auto].
      split_and!; auto.
    + intros ([-> | Hx] & [-> | Hy] & Hlt).
      * lia.
      * left. eauto.
      * apply Hall in Hx. lia.
      * right. auto.
Qed.

(** The pairs visited are those of positions i < j of the list: [uid1] is
    [user_ids[i]] and [uid2] ranges over [user_ids[i+1:]]. *)
Lemma ordered_pairs_lookup (user_ids : list Z) (x y : Z) :
  (x, y) ∈ ordered_pairs user_ids
  ↔ ∃ i j, (i < j)%nat ∧ user_ids !! i = Some x ∧ user_ids !! j = Some y.
Proof.
  induction user_ids as [|u rest IH]; simpl.
  - split; [intros H; inversion H | intros (i & j & _ & H & _); done].
  - rewrite elem_of_app, list_elem_of_fmap, IH. split.
    + intros [(y' & [= -> ->] & Hy) | (i & j & Hlt & Hi & Hj)].
      * apply list_elem_of_lookup in Hy as [k Hk]. exists 0%nat, (S k). split_and!; [lia|done|done].
      * exists (S i), (S j). split_and!; [lia|done|done].
    + intros (i & j & Hlt & Hi & Hj). destruct j as [|j]; [lia|]. simpl in Hj.
      destruct i as [|i]; simpl in Hi.
      * injection Hi as ->. left. exists y. split; [done|].
        apply list_elem_of_lookup. eauto.
      * right. exists i, j. split_and!; [lia|done|done].
Qed.

Lemma ordered_pairs_sorted (user_ids : list Z) :
  StronglySorted Z.lt user_ids → StronglySorted lex_lt (ordered_pairs user_ids).
Proof.
  induction 1 as [|u rest Hs IH Hall]; simpl; [constructor|].
  rewrite Forall_forall in Hall.
  apply StronglySorted_app; split_and!; [| |done].
  - intros p q Hp Hq. apply list_elem_of_fmap in Hp as (y & -> & Hy).
    destruct q as [a b]. apply ordered_pairs_elem in Hq as (Ha & _ & _); [|done].
    left. simpl. by apply Hall.
  - clear IH Hall. induction Hs as [|v rest Hs IH Hall]; simpl; constructor; [done|].
    apply Forall_forall. intros q Hq.
    apply list_elem_of_fmap in Hq as (y & -> & Hy). right. simpl.
    split; [done|]. by apply (proj1 (Forall_forall _ _) Hall).
Qed.

Lemma StronglySorted_filter_keep {A} (R : relation A) (P : A → Prop)
    `{∀ x, Decision (P x)} (l : list A) :
  StronglySorted R l → StronglySorted R (filter P l).
Proof.
  induction 1 as [|x l Hs IH Hall]; [constructor|].
  rewrite filter_cons. destruct (decide (P x)); [|done].
  constructor; [done|]. apply Forall_forall.
  intros y Hy. apply list_elem_of_filter in Hy as [_ Hy].
  by apply (proj1 (Forall_forall _ _) Hall).
Qed.

Lemma lex_lt_sorted_NoDup (l : list (Z * Z)) : StronglySorted lex_lt l → NoDup l.
Proof.
  induction 1 as [|p l Hs IH Hall]; constructor; [|done].
  rewrite Forall_forall in Hall. intros Hin. apply Hall in Hin.
  unfold lex_lt in Hin. lia.
Qed.

Lemma sorted_keys_elem {V} (user_labels : gmap Z V) (x : Z) :
  x ∈ sorted_keys user_labels ↔ is_Some (user_labels !! x).
Proof.
  unfold sorted_keys. rewrite merge_sort_Permutation, elem_of_elements.
  apply elem_of_dom.
Qed.

Lemma sorted_keys_sorted {V} (user_labels : gmap Z V) :
  StronglySorted Z.lt (sorted_keys user_labels).
Proof.
  unfold sorted_keys.
  assert (Hnd : NoDup (merge_sort Z.le (elements (dom user_labels)))).
  { rewrite merge_sort_Permutation. apply NoDup_elements. }
  assert (Hs : StronglySorted Z.le (merge_sort Z.le (elements (dom user_labels)))).
  { apply StronglySorted_merge_sort; try apply _. }
  induction Hs as [|x l Hs IH Hall]; [constructor|].
  apply NoDup_cons in Hnd as [Hx Hnd]. constructor; [auto|].
  apply Forall_forall. intros y Hy.
  pose proof (proj1 (Forall_forall _ _) Hall y Hy).
  assert (x ≠ y) by (intros ->; done). lia.
Qed.

Lemma enumerate_spec {V} (body : Z → Z → result bool) (user_labels : gmap Z V)
    (pairs : list (Z * Z)) :
  outer_loop body (sorted_keys user_labels) [] = Ok pairs →
  (∀ x y, (x, y) ∈ pairs ↔
     x < y ∧ is_Some (user_labels !! x) ∧ is_Some (user_labels !! y)
     ∧ body x y = Ok true)
  ∧ StronglySorted lex_lt pairs.
Proof.
  intros H. apply outer_loop_Ok in H. simpl in H. subst pairs.
  pose proof (sorted_keys_sorted user_labels) as Hs. split.
  - intros x y. rewrite list_elem_of_filter, ordered_pairs_elem by done.
    rewrite !sorted_keys_elem. simpl.
    destruct (body x y) as [[]|e]; simpl; intuition (try done; try lia).
  - by apply StronglySorted_filter_keep, ordered_pairs_sorted.
Qed.

Lemma enumerate_total {V} (body : Z → Z → result bool) (user_labels : gmap Z V) :
  (∀ x y vx vy, user_labels !! x = Some vx → user_labels !! y = Some vy →
     is_Ok (body x y)) →
  is_Ok (outer_loop body (sorted_keys user_labels) []).
Proof.
  intros Hok. apply outer_loop_total. intros [x y] Hp. simpl.
  apply ordered_pairs_elem in Hp as (Hx & Hy & _); [|apply sorted_keys_sorted].
  apply sorted_keys_elem in Hx as [vx Hx]. apply sorted_keys_elem in Hy as [vy Hy].
  eauto.
Qed.

Lemma lex_lt_sorted_canonical (pairs : list (Z * Z)) :
  StronglySorted lex_lt pairs →
  NoDup pairs ∧
  (Forall (λ p, p.1 < p.2) pairs → ∀ x y, (x, y) ∈ pairs → (y, x) ∉ pairs).
Proof.
  intros Hs. split; [by apply lex_lt_sorted_NoDup|].
  intros Hall x y Hxy Hyx. rewrite Forall_forall in Hall.
  apply Hall in Hxy, Hyx. simpl in *. lia.
Qed.

Lemma NoDup_occurs_once (pairs : list (Z * Z)) (p : Z * Z) :
  NoDup pairs → p ∈ pairs → length (filter (λ q, q = p) pairs) = 1%nat.
Proof.
  induction 1 as [|q pairs Hq Hnd IH]; intros Hin; [inversion Hin|].
  rewrite filter_cons. destruct (decide (q = p)) as [->|Hne]; simpl.
  - f_equal. destruct (filter (λ q, q = p) pairs) as [|r l'] eqn:Hf; [done|].
    assert (r ∈ filter (λ q, q = p) pairs) as Hr by (rewrite Hf; left).
    apply list_elem_of_filter in Hr as [-> Hr]. done.
  - apply IH. inversion Hin; subst; done.
Qed.

Lemma truthy_intersection (categories : list string) (entries : list entry) :
  truthy (labels_of entries ∩ list_to_set categories) = true
  ↔ has_any_of categories entries.
Proof.
  unfold truthy, has_any_of, labels_of. rewrite bool_decide_eq_true. split.
  - intros Hne. apply set_choose_L in Hne as [cat Hcat].
    apply elem_of_intersection in Hcat as [H1 H2].
    apply elem_of_list_to_set, list_elem_of_fmap in H1 as (e & -> & He).
    apply elem_of_list_to_set in H2. eauto.
  - intros (e & He & Hc) Hempty.
    assert (label e ∈ (∅ : gset string)) as Habs; [|set_solver].
    rewrite <- Hempty. apply elem_of_intersection. split.
    + apply elem_of_list_to_set, list_elem_of_fmap. eauto.
    + by apply elem_of_list_to_set.
Qed.

(** ** The pair enumerator *)

Section enumerator.
Variable strptime : string → string → option datetime.

Local Abbreviation compute_ground_truth := (compute_ground_truth strptime).
Local Abbreviation parse_date := (parse_date strptime).

Lemma getitem_Some {V} (d : gmap Z V) (k : Z) (v : V) :
  d !! k = Some v → getitem d k = Ok v.
Proof. unfold getitem. by intros ->. Qed.

Lemma both_have_any_pairs (user_labels : gmap Z (list entry)) (categories : list string) :
  ∃ pairs,
    compute_ground_truth user_labels (both_have_any categories) = Ok pairs
    ∧ pairs_where user_labels
        (λ ex ey, has_any_of categories ex ∧ has_any_of categories ey) pairs
    ∧ StronglySorted lex_lt pairs.
Proof.
  simpl.
  match goal with |- context [outer_loop ?b _ _] => set (body := b) end.
  destruct (enumerate_total body user_labels) as [pairs Hp].
  { intros x y vx vy Hx Hy. unfold body.
    rewrite (getitem_Some _ _ _ Hx), (getitem_Some _ _ _ Hy). by eexists. }
  exists pairs. split; [done|].
  apply enumerate_spec in Hp as [Hin Hs]. split; [|done].
  intros x y. rewrite Hin. split.
  - intros (Hlt & [ex Hx] & [ey Hy] & Hb). split; [done|]. exists ex, ey.
    split_and!; try done; unfold body in Hb;
      rewrite (getitem_Some _ _ _ Hx), (getitem_Some _ _ _ Hy) in Hb;
      simpl in Hb; injection Hb as Hb; apply andb_true_iff in Hb as [H1 H2];
      by apply truthy_intersection.
  - intros (Hlt & ex & ey & Hx & Hy & H1 & H2). split_and!; eauto.
    unfold body. rewrite (getitem_Some _ _ _ Hx), (getitem_Some _ _ _ Hy). simpl.
    apply truthy_intersection in H1, H2. by rewrite H1, H2.
Qed.

Lemma asymmetric_pairs (user_labels : gmap Z (list entry)) (a b : constraint) :
  ∃ pairs,
    compute_ground_truth user_labels (asymmetric a b) = Ok pairs
    ∧ pairs_where user_labels
        (λ ex ey, (satisfies_side ex a ∧ satisfies_side ey b)
                  ∨ (satisfies_side ey a ∧ satisfies_side ex b)) pairs
    ∧ StronglySorted lex_lt pairs.
Proof.
  simpl.
  match goal with |- context [outer_loop ?b _ _] => set (body := b) end.
  destruct (enumerate_total body user_labels) as [pairs Hp].
  { intros x y vx vy Hx Hy. unfold body.
    rewrite (getitem_Some _ _ _ Hx), (getitem_Some _ _ _ Hy). simpl.
    repeat case_match; by eexists. }
  exists pairs. split; [done|].
  apply enumerate_spec in Hp as [Hin Hs]. split; [|done].
  assert (Hbody : ∀ x y ex ey,
    user_labels !! x = Some ex → user_labels !! y = Some ey →
    body x y = Ok true ↔
      (satisfies_side ex a ∧ satisfies_side ey b)
      ∨ (satisfies_side ey a ∧ satisfies_side ex b)).
  { intros x y ex ey Hx Hy. unfold body.
    rewrite (getitem_Some _ _ _ Hx), (getitem_Some _ _ _ Hy). simpl.
    rewrite <- !check_user_constraint_true.
    destruct (check_user_constraint ex a), (check_user_constraint ey b),
      (check_user_constraint ey a), (check_user_constraint ex b); simpl;
      intuition congruence. }
  intros x y. rewrite Hin. split.
  - intros (Hlt & [ex Hx] & [ey Hy] & Hb). split; [done|]. exists ex, ey.
    split_and!; try done. by apply (Hbody x y).
  - intros (Hlt & ex & ey & Hx & Hy & H). split_and!; eauto.
    by apply (Hbody x y ex ey).
Qed.

(** C1. For a both_have_any task with categories C, the canonical pair
    (x, y) of two users of the store is in the result exactly when x has an
    event whose category is in C and y has one too; on the store of the
    scenario, the task over NUM and LOC yields [(1, 2)] only. *)
Theorem both_have_any_spec (user_labels : gmap Z (list entry)) (categories : list string) :
  (∃ pairs,
     compute_ground_truth user_labels (both_have_any categories) = Ok pairs
     ∧ pairs_where user_labels
         (λ ex ey, has_any_of categories ex ∧ has_any_of categories ey) pairs)
  ∧ compute_ground_truth Sample.store (both_have_any ["NUM"; "LOC"]) = Ok [(1, 2)].
Proof.
  split; [|by vm_compute].
  destruct (both_have_any_pairs user_labels categories) as (pairs & H1 & H2 & _).
  eauto.
Qed.

(** C3. For an asymmetric task, the canonical pair (x, y) is in the result
    exactly when x satisfies side A and y side B, or y satisfies side A and
    x side B; the result has no repetition, so a pair for which both
    assignments succeed occurs exactly once. *)
Theorem asymmetric_spec (user_labels : gmap Z (list entry)) (a b : constraint) :
  ∃ pairs,
    compute_ground_truth user_labels (asymmetric a b) = Ok pairs
    ∧ pairs_where user_labels
        (λ ex ey, (satisfies_side ex a ∧ satisfies_side ey b)
                  ∨ (satisfies_side ey a ∧ satisfies_side ex b)) pairs
    ∧ NoDup pairs
    ∧ ∀ p, p ∈ pairs → length (filter (λ q, q = p) pairs) = 1%nat.
Proof.
  destruct (asymmetric_pairs user_labels a b) as (pairs & H1 & H2 & Hs).
  exists pairs. apply lex_lt_sorted_NoDup in Hs.
  split_and!; try done. intros p. by apply NoDup_occurs_once.
Qed.
Lemma enumerate_canonical {V} (body : Z → Z → result bool)
    (user_labels : gmap Z V) (pairs : list (Z * Z)) :
  outer_loop body (sorted_keys user_labels) [] = Ok pairs →
  Forall (λ p, p.1 < p.2) pairs ∧ StronglySorted lex_lt pairs ∧ NoDup pairs
  ∧ ∀ x y, (x, y) ∈ pairs → (y, x) ∉ pairs.
Proof.
  intros H. apply enumerate_spec in H as [Hin Hs].
  assert (Hall : Forall (λ p, p.1 < p.2) pairs).
  { apply Forall_forall. intros [x y] Hp. apply Hin in Hp. simpl. tauto. }
  destruct (lex_lt_sorted_canonical pairs Hs) as [Hnd Hrev]. auto.
Qed.

Lemma datetime_lt_irrefl (d : datetime) : datetime_lt d d = false.
Proof.
  unfold datetime_lt.
  rewrite !Z.ltb_irrefl, !Z.eqb_refl. reflexivity.
Qed.

Lemma date_check_eq kind cutoff ts :
  date_check strptime kind cutoff ts = (d ← parse_date ts; Ok (in_bound kind cutoff d)).
Proof. reflexivity. Qed.

Lemma with_date_unfold user_labels categories dc kind bound cutoff :
  bound_of dc = Some (kind, bound) →
  parse_date bound = Ok cutoff →
  compute_ground_truth user_labels (both_have_any_with_date categories dc)
  = outer_loop (with_date_body strptime user_labels categories (category dc) kind cutoff)
               (sorted_keys user_labels) [].
Proof.
  unfold bound_of. intros Hb Hp. simpl.
  destruct (before dc) as [b|].
  - injection Hb as <- <-. rewrite Hp. reflexivity.
  - destruct (after dc) as [a|]; [|done].
    injection Hb as <- <-. simpl. rewrite Hp. reflexivity.
Qed.

Lemma with_date_Ok_inv user_labels categories dc pairs :
  compute_ground_truth user_labels (both_have_any_with_date categories dc) = Ok pairs →
  ∃ kind bound cutoff,
    bound_of dc = Some (kind, bound) ∧ parse_date bound = Ok cutoff.
Proof.
  unfold bound_of. simpl. destruct (before dc) as [b|].
  - destruct (parse_date b) as [cutoff|e] eqn:Hp; [|done]. eauto 6.
  - destruct (after dc) as [a|]; [|done]. simpl.
    destruct (parse_date a) as [cutoff|e] eqn:Hp; [|done]. eauto 6.
Qed.

Lemma user_passes_date_true kind cutoff date_cat entries :
  user_passes_date (date_check strptime kind cutoff) date_cat entries = Ok true
  ↔ date_constraint_satisfied strptime date_cat kind cutoff entries.
Proof.
  unfold date_constraint_satisfied, within_bound.
  induction entries as [|e entries IH]; simpl.
  - split; [intros _ e He; inversion He | done].
  - destruct (decide (label e = date_cat)) as [Heq|Hne].
    + rewrite date_check_eq.
      destruct (parse_date (timestamp e)) as [d|err] eqn:Hp; simpl.
      * destruct (in_bound kind cutoff d) eqn:Hin; simpl.
        -- rewrite IH. split.
           ++ intros H e' He' Hl. apply elem_of_cons in He' as [->|He']; eauto.
           ++ intros H e' He' Hl. apply H; [by right|done].
        -- split; [done|]. intros H.
           destruct (H e) as (d' & Hd' & Hb); [left|done|]. congruence.
      * split; [done|]. intros H.
        destruct (H e) as (d' & Hd' & Hb); [left|done|]. congruence.
    + rewrite IH. split.
      * intros H e' He' Hl. apply elem_of_cons in He' as [->|He']; [done|eauto].
      * intros H e' He' Hl. apply H; [by right|done].
Qed.

Lemma user_passes_date_total kind cutoff date_cat entries :
  (∀ e, e ∈ entries → label e = date_cat → is_Ok (parse_date (timestamp e))) →
  is_Ok (user_passes_date (date_check strptime kind cutoff) date_cat entries).
Proof.
  induction entries as [|e entries IH]; intros Hok; simpl; [by eexists|].
  assert (is_Ok (user_passes_date (date_check strptime kind cutoff) date_cat entries)) as Hrest.
  { apply IH. intros e' He'. apply Hok. by right. }
  destruct (decide (label e = date_cat)) as [Heq|Hne]; [|done].
  rewrite date_check_eq. destruct (Hok e) as [d ->]; [left|done|]. simpl.
  destruct (in_bound kind cutoff d); simpl; [done|by eexists].
Qed.

Lemma user_passes_date_vacuous (check : string → result bool) date_cat entries :
  count_label date_cat entries = 0 →
  user_passes_date check date_cat entries = Ok true.
Proof.
  unfold count_label. induction entries as [|e entries IH]; simpl; [done|].
  rewrite filter_cons. destruct (decide (label e = date_cat)); simpl; [lia|].
  exact IH.
Qed.

Lemma with_date_pairs user_labels categories dc kind bound cutoff pairs :
  bound_of dc = Some (kind, bound) →
  parse_date bound = Ok cutoff →
  compute_ground_truth user_labels (both_have_any_with_date categories dc) = Ok pairs →
  pairs_where user_labels
    (λ ex ey, has_any_of categories ex ∧ has_any_of categories ey
              ∧ date_constraint_satisfied strptime (category dc) kind cutoff ex
              ∧ date_constraint_satisfied strptime (category dc) kind cutoff ey)
    pairs.
Proof.
  intros Hb Hp. rewrite (with_date_unfold _ _ _ _ _ _ Hb Hp). intros H.
  apply enumerate_spec in H as [Hin _].
  assert (Hbody : ∀ x y ex ey,
    user_labels !! x = Some ex → user_labels !! y = Some ey →
    with_date_body strptime user_labels categories (category dc) kind cutoff x y = Ok true ↔
      has_any_of categories ex ∧ has_any_of categories ey
      ∧ date_constraint_satisfied strptime (category dc) kind cutoff ex
      ∧ date_constraint_satisfied strptime (category dc) kind cutoff ey).
  { intros x y ex ey Hx Hy. unfold with_date_body.
    rewrite (getitem_Some _ _ _ Hx), (getitem_Some _ _ _ Hy). simpl.
    rewrite <- !truthy_intersection, <- !user_passes_date_true.
    destruct (truthy (labels_of ex ∩ _)), (truthy (labels_of ey ∩ _)); simpl;
      try (intuition congruence).
    destruct (user_passes_date _ _ ex) as [[]|err]; simpl; intuition congruence. }
  intros x y. rewrite Hin. split.
  - intros (Hlt & [ex Hx] & [ey Hy] & Hbd). split; [done|]. exists ex, ey.
    split_and!; try done; by apply (Hbody x y ex ey Hx Hy).
  - intros (Hlt & ex & ey & Hx & Hy & H). split_and!; eauto.
    by apply (Hbody x y ex ey).
Qed.

Lemma with_date_total user_labels categories dc :
  dates_parse strptime user_labels (both_have_any_with_date categories dc) →
  is_Ok (compute_ground_truth user_labels (both_have_any_with_date categories dc)).
Proof.
  intros [(kind & bound & Hb & [cutoff Hp]) Hts].
  rewrite (with_date_unfold _ _ _ _ _ _ Hb Hp).
  apply enumerate_total. intros x y ex ey Hx Hy. unfold with_date_body.
  rewrite (getitem_Some _ _ _ Hx), (getitem_Some _ _ _ Hy). simpl.
  destruct (negb _); [by eexists|].
  destruct (user_passes_date_total kind cutoff (category dc) ex) as [[] ->]; eauto.
  - simpl. apply user_passes_date_total. eauto.
  - simpl. by eexists.
Qed.

(** C2. For a with-date task whose bound parses, the canonical pair (x, y)
    is in the result exactly when both users have an event of a target
    category and, for each of them, every event of the date category carries
    a date strictly earlier than the bound (before) or strictly later
    (after): the bound date itself is not within the bound. A user with no
    event of the date category passes the date check whatever the bound.
    When the timestamps of the date category parse, a result is returned. *)
Theorem both_have_any_with_date_spec (user_labels : gmap Z (list entry))
    (categories : list string) (dc : date_constraint)
    (kind : bound_kind) (bound : string) (cutoff : datetime) :
  bound_of dc = Some (kind, bound) →
  parse_date bound = Ok cutoff →
  let t := both_have_any_with_date categories dc in
  let passes := date_constraint_satisfied strptime (category dc) kind cutoff in
  (dates_parse strptime user_labels t → is_Ok (compute_ground_truth user_labels t))
  ∧ (∀ pairs, compute_ground_truth user_labels t = Ok pairs →
       pairs_where user_labels
         (λ ex ey, has_any_of categories ex ∧ has_any_of categories ey
                   ∧ passes ex ∧ passes ey) pairs)
  ∧ ¬ within_bound kind cutoff cutoff
  ∧ (∀ entries, count_label (category dc) entries = 0 →
       passes entries
       ∧ ∀ check, user_passes_date check (category dc) entries = Ok true).
Proof.
  intros Hb Hp t passes. split_and!.
  - apply with_date_total.
  - intros pairs. by apply with_date_pairs with (bound := bound).
  - unfold within_bound. destruct kind; simpl; by rewrite datetime_lt_irrefl.
  - intros entries Hz. split.
    + apply (user_passes_date_true kind cutoff).
      by apply user_passes_date_vacuous.
    + intros check. by apply user_passes_date_vacuous.
Qed.

Lemma returned_pairs_canonical (user_labels : gmap Z (list entry)) (t : task)
    (pairs : list (Z * Z)) :
  compute_ground_truth user_labels t = Ok pairs →
  Forall (λ p, p.1 < p.2) pairs
  ∧ StronglySorted lex_lt pairs
  ∧ NoDup pairs
  ∧ ∀ x y, (x, y) ∈ pairs → (y, x) ∉ pairs.
Proof.
  destruct t as [cats|cats dc|a b|ty].
  - apply enumerate_canonical.
  - intros H. destruct (with_date_Ok_inv _ _ _ _ H) as (kind & bound & cutoff & Hb & Hp).
    rewrite (with_date_unfold _ _ _ _ _ _ Hb Hp) in H.
    by apply enumerate_canonical in H.
  - apply enumerate_canonical.
  - intros [= <-]. split_and!; try constructor. intros x y Hin. inversion Hin.
Qed.

(** C5. Whatever the task, a returned list holds pairs (a, b) with a < b, in
    strictly ascending lexicographic order (first identifier, then second),
    without repetition and without a pair in both orientations; a result is
    returned whenever the dates the task needs parse (always, for a task
    without date constraint). *)
Theorem compute_ground_truth_canonical (user_labels : gmap Z (list entry)) (t : task) :
  (dates_parse strptime user_labels t → is_Ok (compute_ground_truth user_labels t))
  ∧ ∀ pairs, compute_ground_truth user_labels t = Ok pairs →
      Forall (λ p, p.1 < p.2) pairs
      ∧ StronglySorted lex_lt pairs
      ∧ NoDup pairs
      ∧ ∀ x y, (x, y) ∈ pairs → (y, x) ∉ pairs.
Proof.
  split; [|apply returned_pairs_canonical].
  destruct t as [cats|cats dc|a b|ty].
  - intros _. destruct (both_have_any_pairs user_labels cats) as (p & -> & _).
    by eexists.
  - apply with_date_total.
  - intros _. destruct (asymmetric_pairs user_labels a b) as (p & -> & _).
    by eexists.
  - intros _. by eexists.
Qed.
End enumerator.

(** The scenario with a date bound: on the sample store, NUM or LOC with
    every NUM event before 2023-02-01 still yields [(1, 2)]. *)
Lemma both_have_any_with_date_scenario :
  let dc := {| category := "NUM"; before := Some "2023-02-01"; after := None |} in
  let cutoff := {| year := 2023; month := 2; day := 1 |} in
  (bound_of dc = Some (Before, "2023-02-01")
   ∧ parse_date Sample.strptime "2023-02-01" = Ok cutoff)
  ∧ compute_ground_truth Sample.strptime Sample.store
      (both_have_any_with_date ["NUM"; "LOC"] dc) = Ok [(1, 2)]
  ∧ pairs_where Sample.store
      (λ ex ey, has_any_of ["NUM"; "LOC"] ex ∧ has_any_of ["NUM"; "LOC"] ey
                ∧ date_constraint_satisfied Sample.strptime "NUM" Before cutoff ex
                ∧ date_constraint_satisfied Sample.strptime "NUM" Before cutoff ey)
      [(1, 2)].
Proof.
  intros dc cutoff. split; [split; reflexivity|]. split; [reflexivity|].
  apply (both_have_any_with_date_spec Sample.strptime Sample.store
           ["NUM"; "LOC"] dc Before "2023-02-01" cutoff); reflexivity.
Defined.

(** On the sample store, users 1 and 2 satisfy both sides of "has a NUM
    event" against "exactly one NUM event" in either assignment: the pair is
    reported once. *)
Example asymmetric_both_assignments :
  compute_ground_truth Sample.strptime Sample.store
    (asymmetric
       {| has_all := Some ["NUM"]; at_least := None; exactly := None |}
       {| has_all := None; at_least := None; exactly := Some {[ "NUM" := 1 ]} |})
  = Ok [(1, 2)].
Proof. reflexivity. Qed.

(** A bound that does not parse, or a timestamp of the date category that
    does not, raises the error of [parse_date]. *)
Example malformed_bound_raises :
  compute_ground_truth Sample.strptime Sample.store
    (both_have_any_with_date ["NUM"; "LOC"]
       {| category := "NUM"; before := Some "2023-02-30"; after := None |})
  = Raise ValueError.
Proof. reflexivity. Qed.

(** ** Unknown categories *)

Lemma outer_loop_ext (body1 body2 : Z → Z → result bool) (user_ids : list Z)
    (acc : list (Z * Z)) :
  (∀ p, p ∈ ordered_pairs user_ids → body1 p.1 p.2 = body2 p.1 p.2) →
  outer_loop body1 user_ids acc = outer_loop body2 user_ids acc.
Proof.
  revert acc. induction user_ids as [|uid1 rest IH]; intros acc Hext; simpl; [done|].
  assert (Hinner : ∀ acc', inner_loop body1 uid1 rest acc' = inner_loop body2 uid1 rest acc').
  { assert (Hr : ∀ y, y ∈ rest → body1 uid1 y = body2 uid1 y).
    { intros y Hy. apply (Hext (uid1, y)). simpl.
      apply elem_of_app. left. apply list_elem_of_fmap. eauto. }
    clear Hext IH. induction rest as [|y rest IHr]; intros acc'; simpl; [done|].
    rewrite (Hr y) by left. destruct (body2 uid1 y) as [b|e]; simpl; [|done].
    apply IHr. intros z Hz. apply Hr. by right. }
  rewrite Hinner. destruct (inner_loop body2 uid1 rest acc) as [pairs'|e]; simpl; [|done].
  apply IH. intros p Hp. apply Hext. simpl. apply elem_of_app. by right.
Qed.

Lemma has_any_of_known (categories : list string) (entries : list entry) :
  (∀ e, e ∈ entries → known_category (label e)) →
  has_any_of categories entries ↔ has_any_of (filter known_category categories) entries.
Proof.
  intros Hk. unfold has_any_of. split; intros (e & He & Hc); exists e; split; try done.
  - apply list_elem_of_filter. auto.
  - by apply list_elem_of_filter in Hc as [_ Hc].
Qed.

Lemma truthy_known (categories : list string) (entries : list entry) :
  (∀ e, e ∈ entries → known_category (label e)) →
  truthy (labels_of entries ∩ list_to_set categories)
  = truthy (labels_of entries ∩ list_to_set (filter known_category categories)).
Proof.
  intros Hk. pose proof (has_any_of_known categories entries Hk) as Hiff.
  rewrite <- !truthy_intersection in Hiff.
  destruct (truthy (labels_of entries ∩ list_to_set categories)),
    (truthy (labels_of entries ∩ list_to_set (filter known_category categories)));
    intuition congruence.
Qed.

(** C7, as the code has it: no configuration error is raised for a category
    outside the enumeration. *)
Lemma unknown_category_not_rejected :
  ¬ (∀ (strptime : string → string → option datetime)
       (user_labels : gmap Z (list entry)) (t : task),
       references_unknown t →
       ∃ e, compute_ground_truth strptime user_labels t = Raise e).
Proof.
  intros H.
  destruct (H Sample.strptime Sample.store (both_have_any ["FOO"])) as [e He].
  - exists "FOO". split; [left|]. unfold known_category.
    rewrite !elem_of_cons, elem_of_nil. intuition discriminate.
  - by vm_compute in He.
Qed.

(** C7, amended. A task without date constraint is evaluated without any
    error, also when it refers to a category outside the enumeration: the
    category is compared with the event labels like any other. Over a store
    whose events carry categories of the enumeration only, it matches no
    event: a both_have_any task yields what the task with the unknown
    categories removed yields, and a side whose has_all lists an unknown
    category is satisfied by no user. *)
Theorem unknown_category_matches_nothing
    (strptime : string → string → option datetime)
    (user_labels : gmap Z (list entry)) :
  (∀ categories,
     is_Ok (compute_ground_truth strptime user_labels (both_have_any categories)))
  ∧ (∀ a b, is_Ok (compute_ground_truth strptime user_labels (asymmetric a b)))
  ∧ (labels_known user_labels →
     (∀ categories,
        compute_ground_truth strptime user_labels (both_have_any categories)
        = compute_ground_truth strptime user_labels
            (both_have_any (filter known_category categories)))
     ∧ ∀ x ex c cats cat,
         user_labels !! x = Some ex → has_all c = Some cats → cat ∈ cats →
         ¬ known_category cat → check_user_constraint ex c = false).
Proof.
  split_and!.
  - intros cats. destruct (both_have_any_pairs strptime user_labels cats) as (p & -> & _).
    by eexists.
  - intros a b. destruct (asymmetric_pairs strptime user_labels a b) as (p & -> & _).
    by eexists.
  - intros Hk. split.
    + intros cats. simpl. apply outer_loop_ext. intros [x y] Hp. simpl.
      apply ordered_pairs_elem in Hp as (Hx & Hy & _); [|apply sorted_keys_sorted].
      apply sorted_keys_elem in Hx as [ex Hx]. apply sorted_keys_elem in Hy as [ey Hy].
      rewrite (getitem_Some _ _ _ Hx), (getitem_Some _ _ _ Hy). simpl.
      rewrite <- !truthy_known; eauto.
    + intros x ex c cats cat Hx Hc Hcat Hunk. apply not_true_is_false.
      rewrite check_user_constraint_true. intros (Hall & _).
      specialize (Hall cats Hc cat Hcat). unfold count_label in Hall.
      destruct (filter (λ e, label e = cat) ex) as [|e l] eqn:Hf; [simpl in Hall; lia|].
      assert (e ∈ filter (λ e, label e = cat) ex) as He by (rewrite Hf; left).
      apply list_elem_of_filter in He as [<- He]. apply Hunk. eauto.
Qed.

(** ** The scorer *)

Import Evaluate.

Lemma len_zero (s : gset (Z * Z)) : (len s =? 0) = true ↔ s = ∅.
Proof.
  unfold len. rewrite Z.eqb_eq. split.
  - intros H. apply leibniz_equiv, size_empty_iff. lia.
  - intros ->. by rewrite size_empty.
Qed.

Lemma len_nonzero (s : gset (Z * Z)) : (len s =? 0) = false ↔ s ≠ ∅.
Proof. rewrite <- not_true_iff_false, len_zero. done. Qed.

(** C6. compute_f1 returns 1.0, 1.0, 1.0 when both sets are empty and 0.0,
    0.0, 0.0 when exactly one is; otherwise precision and recall are the
    quotients of the number of common pairs by the sizes of the predicted set
    and of the truth, and f1 is 2*P*R/(P+R), or 0.0 when P+R is 0. On
    {(1,2)} against {(1,2),(3,4)} this gives 1.0, 0.5 and the float nearest
    to 2/3, which lies between 0.6665 and 0.6675. *)
Theorem compute_f1_spec (predicted ground_truth : gset (Z * Z)) :
  let m := compute_f1 predicted ground_truth in
  (predicted = ∅ ∧ ground_truth = ∅ →
     precision m = 1%float ∧ recall m = 1%float ∧ f1 m = 1%float)
  ∧ ((predicted = ∅ ∧ ground_truth ≠ ∅) ∨ (predicted ≠ ∅ ∧ ground_truth = ∅) →
       precision m = 0%float ∧ recall m = 0%float ∧ f1 m = 0%float)
  ∧ (predicted ≠ ∅ ∧ ground_truth ≠ ∅ →
       precision m = true_div (len (predicted ∩ ground_truth)) (len predicted)
       ∧ recall m = true_div (len (predicted ∩ ground_truth)) (len ground_truth)
       ∧ f1 m = if PrimFloat.eqb (precision m + recall m) 0
                then 0%float
                else (2 * precision m * recall m / (precision m + recall m))%float)
  ∧ (let example := compute_f1 {[ (1, 2) ]} {[ (1, 2); (3, 4) ]} in
     precision example = 1%float
     ∧ recall example = 0.5%float
     ∧ f1 example = true_div 2 3
     ∧ PrimFloat.ltb 0.66650390625 (f1 example) = true
     ∧ PrimFloat.ltb (f1 example) 0.66748046875 = true).
Proof.
  intros m. subst m. unfold compute_f1. split; [|split; [|split]].
  - intros [-> ->]. done.
  - intros [[-> Ht] | [Hp ->]].
    + apply len_nonzero in Ht. rewrite Ht. done.
    + apply len_nonzero in Hp. rewrite Hp. done.
  - intros [Hp Ht]. apply len_nonzero in Hp, Ht. rewrite Hp, Ht. simpl. done.
  - by vm_compute.
Qed.

(** ** The two generators on asymmetric tasks *)

Import GenerateDataset.

Lemma cat_counts_fold (entries : list GenerateDataset.entry) (acc : gmap string Z) :
  fold_left
    (λ cat_counts e,
       <[GenerateDataset.category e :=
           default 0 (cat_counts !! GenerateDataset.category e) + 1]> cat_counts)
    entries acc
  = fold_left
      (λ label_counts e,
         <[label e := default 0 (label_counts !! label e) + 1]> label_counts)
      (as_label <$> entries) acc.
Proof.
  revert acc. induction entries as [|e entries IH]; intros acc; simpl; [done|].
  apply IH.
Qed.

Lemma matches_b_only_exactly (req : constraint) (entries : list GenerateDataset.entry) :
  matches_b req entries
  = check_user_constraint (as_label <$> entries) (only_exactly req).
Proof.
  unfold matches_b, check_user_constraint, only_exactly, count_labels; simpl.
  rewrite cat_counts_fold. destruct (exactly req) as [d|]; simpl.
  - unfold get0. by destruct (items_loop _ _).
  - by rewrite map_to_list_empty.
Qed.

Lemma count_label_positive (cat : string) (entries : list GenerateDataset.entry) :
  1 ≤ count_label cat (as_label <$> entries)
  ↔ cat ∈ GenerateDataset.category <$> entries.
Proof.
  unfold count_label. induction entries as [|e entries IH]; simpl.
  - split; [lia | intros H; inversion H].
  - rewrite filter_cons, elem_of_cons. simpl.
    destruct (decide (GenerateDataset.category e = cat)) as [->|Hne]; simpl.
    + split; [auto | lia].
    + rewrite IH. split; [auto | intros [?|?]; [congruence|done]].
Qed.

Lemma matches_a_only_has_all (req : constraint) (entries : list GenerateDataset.entry) :
  matches_a req entries
  = check_user_constraint (as_label <$> entries) (only_has_all req).
Proof.
  assert (Hiff : matches_a req entries = true
                 ↔ check_user_constraint (as_label <$> entries) (only_has_all req) = true).
  { rewrite check_user_constraint_true. unfold matches_a, satisfies_side; simpl.
    rewrite forallb_forall. split.
    - intros H. split_and!; try discriminate.
      intros cats Hc cat Hin. rewrite Hc in H. simpl in H.
      apply count_label_positive. apply list_elem_of_In in Hin.
      apply H, bool_decide_eq_true in Hin. by apply elem_of_list_to_set in Hin.
    - intros (H & _) cat Hin. apply bool_decide_eq_true, elem_of_list_to_set.
      destruct (has_all req) as [cats|]; simpl in Hin; [|done].
      apply count_label_positive, (H cats eq_refl). by apply list_elem_of_In. }
  destruct (matches_a req entries), (check_user_constraint _ _); intuition congruence.
Qed.

(** C9, as the code has it: the side checks of the lightweight generator do
    not agree with check_user_constraint on every bundle. *)
Lemma matches_differ_from_check_user_constraint :
  ¬ (∀ (req : constraint) (entries : list GenerateDataset.entry),
       matches_a req entries = check_user_constraint (as_label <$> entries) req
       ∧ matches_b req entries = check_user_constraint (as_label <$> entries) req).
Proof.
  intros H.
  destruct (H {| has_all := None; at_least := Some {[ "NUM" := 2 ]}; exactly := None |}
              []) as [Ha _].
  by vm_compute in Ha.
Qed.

(** C9, amended. matches_a returns what check_user_constraint returns on the
    bundle reduced to its has_all clause, and matches_b what it returns on
    the bundle reduced to its exactly clause; the lightweight generator
    therefore computes the asymmetric pairs the production engine computes
    for side A reduced to has_all and side B reduced to exactly. *)
Theorem lightweight_asymmetric_checks
    (strptime : string → string → option datetime) :
  (∀ (req : constraint) (entries : list GenerateDataset.entry),
     matches_a req entries
     = check_user_constraint (as_label <$> entries) (only_has_all req))
  ∧ (∀ (req : constraint) (entries : list GenerateDataset.entry),
       matches_b req entries
       = check_user_constraint (as_label <$> entries) (only_exactly req))
  ∧ ∀ (ground_truth : gmap Z (list GenerateDataset.entry)) a b,
      compute_ground_truth_pairs_asymmetric ground_truth a b
      = compute_ground_truth strptime (fmap (M := list) as_label <$> ground_truth)
          (asymmetric (only_has_all a) (only_exactly b)).
Proof.
  split_and!; [apply matches_a_only_has_all | apply matches_b_only_exactly |].
  intros gt a b. unfold compute_ground_truth_pairs_asymmetric. simpl.
  assert (Hkeys : sorted_keys (fmap (M := list) as_label <$> gt) = sorted_keys gt).
  { unfold sorted_keys. by rewrite dom_fmap_L. }
  rewrite Hkeys. apply outer_loop_ext. intros [x y] Hp. simpl.
  apply ordered_pairs_elem in Hp as (Hx & Hy & _); [|apply sorted_keys_sorted].
  apply sorted_keys_elem in Hx as [ex Hx]. apply sorted_keys_elem in Hy as [ey Hy].
  unfold getitem. rewrite !lookup_fmap, Hx, Hy. simpl.
  rewrite !matches_a_only_has_all, !matches_b_only_exactly.
  by repeat (destruct (check_user_constraint _ _); simpl).
Qed.

(** ** The pattern *)

Lemma space_not_digit c : is_space c = true → is_digit c = false.
Proof.
  unfold is_space, is_digit. intros H. apply not_true_is_false. revert H.
  rewrite !orb_true_iff, !andb_true_iff, !Nat.leb_le. lia.
Qed.

Lemma digit_not_space c : is_digit c = true → is_space c = false.
Proof.
  intros H. destruct (is_space c) eqn:Hs; [|done].
  apply space_not_digit in Hs. congruence.
Qed.

Lemma special_not_class (ch c : ascii) :
  is_space ch = false → is_digit ch = false →
  is_space c = true ∨ is_digit c = true → Ascii.eqb c ch = false.
Proof.
  intros Hs Hd Hc. destruct (Ascii.eqb_spec c ch) as [->|]; [|done].
  destruct Hc; congruence.
Qed.

Lemma skip_spaces_spec s : ∃ w, s = w ++ skip_spaces s ∧ spaces w.
Proof.
  induction s as [|c s (w & Hw & Hsp)]; simpl.
  - exists []. split; [done | constructor].
  - destruct (is_space c) eqn:Hc.
    + exists (c :: w). split; [simpl; congruence | by constructor].
    + exists []. split; [done | constructor].
Qed.

Lemma skip_spaces_length s : (length (skip_spaces s) ≤ length s)%nat.
Proof.
  destruct (skip_spaces_spec s) as (w & Hw & _).
  rewrite Hw at 2. rewrite length_app. lia.
Qed.

Lemma skip_spaces_head s : head_is_not is_space s → skip_spaces s = s.
Proof. destruct s as [|c s]; simpl; [done|]. by intros ->. Qed.

Lemma skip_spaces_app w s : spaces w → skip_spaces (w ++ s) = skip_spaces s.
Proof. induction 1 as [|c w Hc _ IH]; simpl; [done|]. by rewrite Hc. Qed.

Lemma span_digits_spec s :
  s = (span_digits s).1 ++ (span_digits s).2
  ∧ Forall (λ c, is_digit c = true) (span_digits s).1.
Proof.
  induction s as [|c s [IH1 IH2]]; simpl.
  - split; [done | constructor].
  - destruct (is_digit c) eqn:Hc.
    + destruct (span_digits s) as [ds rest]; simpl in *.
      split; [congruence | by constructor].
    + simpl. split; [done | constructor].
Qed.

Lemma span_digits_head s : head_is_not is_digit s → span_digits s = ([], s).
Proof. destruct s as [|c s]; simpl; [done|]. by intros ->. Qed.

Lemma span_digits_app d s :
  Forall (λ c, is_digit c = true) d →
  span_digits (d ++ s) = (d ++ (span_digits s).1, (span_digits s).2).
Proof.
  induction 1 as [|c d Hc _ IH]; simpl; [by destruct (span_digits s)|].
  by rewrite Hc, IH.
Qed.

Lemma skip_optional_spec ch s : ∃ o, optional ch o ∧ s = o ++ skip_optional ch s.
Proof.
  destruct s as [|c s]; simpl.
  - exists []. split; [by left | done].
  - destruct (Ascii.eqb_spec c ch) as [->|].
    + exists [ch]. split; [by right | done].
    + exists []. split; [by left | done].
Qed.

Lemma skip_optional_length ch s : (length (skip_optional ch s) ≤ length s)%nat.
Proof.
  destruct (skip_optional_spec ch s) as (o & _ & Ho).
  rewrite Ho at 2. rewrite length_app. lia.
Qed.

Lemma skip_optional_head ch s :
  head_is_not (λ c, Ascii.eqb c ch) s → skip_optional ch s = s.
Proof. destruct s as [|c s]; simpl; [done|]. by intros ->. Qed.

Lemma match_at_sound s a b rest :
  match_at s = Some (a, b, rest) → ∃ m, s = m ++ rest ∧ pair_occurrence m a b.
Proof.
  unfold match_at.
  destruct (skip_optional_spec "(" s) as (lp & Hlp & E0).
  destruct (skip_spaces_spec (skip_optional "(" s)) as (w1 & E1 & Hw1).
  destruct (span_digits_spec (skip_spaces (skip_optional "(" s))) as [E2 Hd1].
  destruct (span_digits (skip_spaces (skip_optional "(" s))) as [d1 s3]; simpl in *.
  destruct d1 as [|c1 d1]; [done|].
  destruct (skip_spaces_spec s3) as (w2 & E3 & Hw2).
  destruct (skip_spaces s3) as [|c s5]; [done|].
  destruct (Ascii.eqb_spec c ",") as [->|]; [|done].
  destruct (skip_spaces_spec s5) as (w3 & E4 & Hw3).
  destruct (span_digits_spec (skip_spaces s5)) as [E5 Hd2].
  destruct (span_digits (skip_spaces s5)) as [d2 s7]; simpl in *.
  destruct d2 as [|c2 d2]; [done|].
  destruct (skip_spaces_spec s7) as (w4 & E6 & Hw4).
  destruct (skip_optional_spec ")" (skip_spaces s7)) as (rp & Hrp & E7).
  intros [= <- <- <-].
  exists (lp ++ w1 ++ (c1 :: d1) ++ w2 ++ "," :: w3 ++ (c2 :: d2) ++ w4 ++ rp)%char.
  split.
  - rewrite E0 at 1. rewrite E1 at 1. rewrite E2 at 1. rewrite E3 at 1.
    rewrite E4 at 1. rewrite E5 at 1. rewrite E6 at 1. rewrite E7 at 1.
    by simplify_list_eq.
  - by constructor.
Qed.

Lemma class_head w d s :
  spaces w → digits d →
  ∃ c t, w ++ d ++ s = c :: t ∧ (is_space c = true ∨ is_digit c = true).
Proof.
  intros Hw [Hn Hd]. destruct w as [|c w]; simpl.
  - destruct d as [|c d]; [done|]. inversion Hd; subst. simpl. eauto.
  - inversion Hw; subst. eauto.
Qed.

Lemma digits_head d s : digits d → head_is_not is_space (d ++ s).
Proof.
  intros [Hn Hd]. destruct d as [|c d]; [done|]. inversion Hd; subst. simpl.
  by apply digit_not_space.
Qed.

Lemma spaces_then_special w (ch : ascii) s :
  spaces w → is_digit ch = false → head_is_not is_digit (w ++ ch :: s).
Proof.
  intros Hw Hch. destruct w as [|c w]; simpl; [done|].
  inversion Hw; subst. by apply space_not_digit.
Qed.

Lemma match_tail_bound w4 rp post :
  spaces w4 → optional ")" rp →
  let tail := w4 ++ rp ++ post in
  let rest := skip_optional ")" (skip_spaces (span_digits tail).2) in
  (length rest ≤ length post)%nat
  ∧ (length rest = length post → (span_digits tail).1 = []).
Proof.
  intros Hw4 Hrp tail rest. subst tail rest.
  assert (Hpost : ∀ r, (length (skip_optional ")" (skip_spaces r)) ≤ length r)%nat).
  { intros r. etrans; [apply skip_optional_length | apply skip_spaces_length]. }
  destruct w4 as [|c w4]; simpl app.
  - destruct Hrp as [-> | ->]; simpl app.
    + destruct (span_digits_spec post) as [E _]. specialize (Hpost (span_digits post).2).
      assert (length post = length (span_digits post).1 + length (span_digits post).2)%nat
        as Hlen by (rewrite E at 1; apply length_app).
      split; [lia|]. intros Heq. apply length_zero_iff_nil. lia.
    + simpl. done.
  - inversion Hw4 as [|? ? Hc Hw]; subst.
    rewrite span_digits_head by (simpl; by apply space_not_digit). simpl snd.
    change (c :: w4 ++ rp ++ post) with ((c :: w4) ++ rp ++ post).
    rewrite skip_spaces_app by done. split; [|done].
    destruct Hrp as [-> | ->]; simpl; [apply Hpost | done].
Qed.

(** Where an occurrence starts, the attempt succeeds: it reads the same
    first integer, and ends no earlier than the occurrence; when it ends at
    the same place it reads the same second integer. *)
Lemma match_at_complete m a b post :
  pair_occurrence m a b →
  ∃ b' rest,
    match_at (m ++ post) = Some (a, b', rest)
    ∧ (length rest ≤ length post)%nat
    ∧ (length rest = length post → b' = b).
Proof.
  intros [lp w1 d1 w2 w3 d2 w4 rp Hlp Hw1 Hd1 Hw2 Hw3 Hd2 Hw4 Hrp].
  unfold match_at. repeat (rewrite <- app_assoc; simpl).
  assert (E0 : (skip_optional "(" (lp ++ w1 ++ d1 ++ w2 ++ "," :: w3 ++ d2 ++ w4 ++ rp ++ post)
                = w1 ++ d1 ++ w2 ++ "," :: w3 ++ d2 ++ w4 ++ rp ++ post)%char).
  { destruct Hlp as [-> | ->]; simpl; [|done].
    apply skip_optional_head.
    destruct (class_head w1 d1 (w2 ++ "," :: w3 ++ d2 ++ w4 ++ rp ++ post)%char Hw1 Hd1)
      as (c & t & -> & Hc).
    simpl. by apply special_not_class. }
  rewrite E0. rewrite skip_spaces_app by done.
  rewrite skip_spaces_head by (by apply digits_head).
  rewrite span_digits_app by apply Hd1.
  rewrite span_digits_head by (by apply spaces_then_special).
  simpl. rewrite app_nil_r.
  destruct d1 as [|c1 d1]; [by destruct Hd1|].
  rewrite skip_spaces_app by done. simpl.
  rewrite skip_spaces_app by done.
  rewrite skip_spaces_head by (by apply digits_head).
  rewrite span_digits_app by apply Hd2.
  destruct (match_tail_bound w4 rp post Hw4 Hrp) as [Hle Heq]. simpl in Hle, Heq.
  destruct (span_digits (w4 ++ rp ++ post)) as [e r]; simpl in *.
  destruct d2 as [|c2 d2]; [by destruct Hd2|]. simpl.
  eexists _, _. split; [reflexivity|]. split; [done|].
  intros H. rewrite (Heq H). by rewrite app_nil_r.
Qed.

Lemma match_at_none s m a b post :
  match_at s = None → s = m ++ post → ¬ pair_occurrence m a b.
Proof.
  intros Hnone -> Hocc.
  destruct (match_at_complete m a b post Hocc) as (b' & rest & H & _). congruence.
Qed.

Lemma pair_occurrence_nonempty m a b : pair_occurrence m a b → m ≠ [].
Proof.
  intros [lp w1 d1 w2 w3 d2 w4 rp _ _ _ _ _ _ _ _] H.
  apply (f_equal length) in H. rewrite !length_app in H. simpl in H.
  rewrite !length_app in H. lia.
Qed.

(** The attempt reports the longest occurrence that starts at the position. *)
Lemma match_at_longest s a b rest :
  match_at s = Some (a, b, rest) →
  ∃ m, s = m ++ rest ∧ pair_occurrence m a b
       ∧ ∀ m' a' b' post, s = m' ++ post → pair_occurrence m' a' b' →
           (length m' ≤ length m)%nat.
Proof.
  intros H. destruct (match_at_sound _ _ _ _ H) as (m & -> & Hocc).
  exists m. split_and!; try done. intros m' a' b' post E Hocc'.
  destruct (match_at_complete m' a' b' post Hocc') as (b2 & rest2 & H2 & Hle & _).
  rewrite <- E, H in H2. injection H2 as <- <- <-.
  apply (f_equal length) in E. rewrite !length_app in E. lia.
Qed.

(** An occurrence determines its two integers. *)
Lemma pair_occurrence_values m a b a' b' :
  pair_occurrence m a b → pair_occurrence m a' b' → a = a' ∧ b = b'.
Proof.
  intros H H'.
  destruct (match_at_complete m a b [] H) as (b1 & r1 & E1 & Hl1 & Hb1).
  destruct (match_at_complete m a' b' [] H') as (b2 & r2 & E2 & Hl2 & Hb2).
  rewrite E1 in E2. injection E2 as <- <- <-.
  simpl in *. assert (length r1 = 0%nat) as Hz by lia.
  rewrite <- (Hb1 Hz), <- (Hb2 Hz). done.
Qed.

(** ** The scan *)

Lemma finditer_scan (fuel : nat) (s : list ascii) :
  (length s < fuel)%nat → scan s (finditer fuel s).
Proof.
  revert s. induction fuel as [|fuel IH]; intros s Hlen; [lia|]. simpl.
  destruct (match_at s) as [[[a b] rest]|] eqn:Hm.
  - destruct (match_at_longest _ _ _ _ Hm) as (m & -> & Hocc & Hlong).
    apply scan_match; [done|done|]. apply IH.
    apply pair_occurrence_nonempty in Hocc. rewrite length_app in Hlen.
    destruct m; [done|]. simpl in Hlen. lia.
  - destruct s as [|c s]; [constructor|].
    apply scan_skip; [|apply IH; simpl in Hlen; lia].
    intros m a b post. by apply match_at_none.
Qed.

Lemma scan_functional (s : list ascii) (ps ps' : list (Z * Z)) :
  scan s ps → scan s ps' → ps = ps'.
Proof.
  intros H. revert ps'.
  induction H as [|c s ps Hno _ IH|m rest a b ps Hocc Hlong _ IH]; intros ps' H'.
  - inversion H' as [| |m' rest' a' b' qs Hocc' _ _ E]; subst; [done|].
    apply pair_occurrence_nonempty in Hocc'. by destruct m'.
  - inversion H' as [|? ? ? _ Hs|m' rest' a' b' qs Hocc' _ _ E]; subst; [by apply IH|].
    by destruct (Hno m' a' b' rest').
  - remember (m ++ rest) as s eqn:E.
    destruct H' as [|c s qs Hno Hs|m' rest' a' b' qs Hocc' Hlong' Hs].
    + apply pair_occurrence_nonempty in Hocc. by destruct m.
    + by destruct (Hno m a b rest).
    + pose proof (Hlong m' a' b' rest' eq_refl Hocc').
      pose proof (Hlong' m a b rest E Hocc).
      apply app_inj_1 in E as [-> ->]; [|lia].
      destruct (pair_occurrence_values _ _ _ _ _ Hocc Hocc') as [-> ->].
      f_equal. by apply IH.
Qed.

(** Any fuel above the length of the text gives the same matches. *)
Lemma finditer_fuel (fuel fuel' : nat) (s : list ascii) :
  (length s < fuel)%nat → (length s < fuel')%nat →
  finditer fuel s = finditer fuel' s.
Proof.
  intros H H'. apply (scan_functional s); by apply finditer_scan.
Qed.

Lemma scan_sound (s : list ascii) (ps : list (Z * Z)) (a b : Z) :
  scan s ps → (a, b) ∈ ps → ∃ m, substring m s ∧ pair_occurrence m a b.
Proof.
  induction 1 as [|c s ps _ _ IH|m rest a0 b0 ps Hocc _ _ IH]; intros Hin.
  - inversion Hin.
  - destruct (IH Hin) as (m & (pre & post & ->) & Hm).
    exists m. split; [by exists (c :: pre), post | done].
  - apply elem_of_cons in Hin as [[= -> ->] | Hin].
    + exists m. split; [by exists [], rest | done].
    + destruct (IH Hin) as (m' & (pre & post & ->) & Hm).
      exists m'. split; [|done]. exists (m ++ pre), post. by rewrite <- app_assoc.
Qed.

Lemma scan_nothing (s : list ascii) :
  scan s [] → ¬ ∃ m a b, substring m s ∧ pair_occurrence m a b.
Proof.
  intros H. remember [] as ps eqn:E.
  induction H as [|c s ps Hno _ IH|]; [| |done]; intros (m & a & b & (pre & post & Es) & Hocc).
  - apply pair_occurrence_nonempty in Hocc. destruct pre, m; done.
  - destruct pre as [|c' pre]; simpl in Es.
    + by apply (Hno m a b post).
    + injection Es as <- ->. apply (IH E). exists m, a, b. split; [|done].
      by exists pre, post.
Qed.

Lemma parse_pairs_fold (l : list (Z * Z)) (acc : gset (Z * Z)) (p : Z * Z) :
  p ∈ fold_left
        (λ pairs '(id1, id2),
           let pair := (Z.min id1 id2, Z.max id1 id2) in pairs ∪ {[ pair ]})
        l acc
  ↔ p ∈ acc ∨ ∃ a b, (a, b) ∈ l ∧ p = (Z.min a b, Z.max a b).
Proof.
  revert acc. induction l as [|[a b] l IH]; intros acc; simpl.
  - split; [auto|]. intros [H | (a & b & H & _)]; [done | inversion H].
  - rewrite IH, elem_of_union, elem_of_singleton. split.
    + intros [[H | ->] | (a' & b' & H & ->)]; [by left| |].
      * right. exists a, b. split; [left | done].
      * right. exists a', b'. split; [by right | done].
    + intros [H | (a' & b' & H & ->)]; [by left; left|].
      apply elem_of_cons in H as [[= -> ->] | H]; [left; by right|].
      right. eauto.
Qed.

Lemma parse_pairs_elem (text : string) (p : Z * Z) :
  p ∈ parse_pairs text
  ↔ ∃ a b, (a, b) ∈ finditer (S (length (list_ascii_of_string text)))
                       (list_ascii_of_string text)
           ∧ p = (Z.min a b, Z.max a b).
Proof.
  unfold parse_pairs. rewrite parse_pairs_fold. split; [|by right].
  intros [H | H]; [|done]. by apply not_elem_of_empty in H.
Qed.

Lemma parse_pairs_overlap : parse_pairs "1,2,3" = {[ (1, 2) ]}.
Proof. by vm_compute. Qed.

(** C8, as the code has it: a substring that matches the pattern but
    overlaps an earlier match contributes no pair; in "1,2,3" the substring
    "2,3" is such a one. *)
Lemma parse_pairs_misses_overlapping_pair :
  ¬ (∀ (text : string) (p : Z * Z),
       p ∈ parse_pairs text
       ↔ ∃ m a b, substring m (list_ascii_of_string text)
                  ∧ pair_occurrence m a b
                  ∧ p = (Z.min a b, Z.max a b)).
Proof.
  intros H. specialize (H "1,2,3"%string (2, 3)).
  rewrite parse_pairs_overlap, elem_of_singleton in H.
  assert ((2, 3) = (1, 2)) as Habs; [|discriminate].
  apply H. exists ["2"; ","; "3"]%char, 2, 3. split_and!; [|  |done].
  - by exists ["1"; ","]%char, [].
  - destruct (match_at_sound ["2"; ","; "3"]%char 2 3 [] eq_refl) as (m & E & Hocc).
    rewrite app_nil_r in E. by subst m.
Qed.

Lemma short_text_within_limit (s : list ascii) :
  (length s ≤ 4300)%nat → within_int_limit s.
Proof.
  intros Hlen d (pre & post & ->) _. rewrite !length_app in Hlen. lia.
Qed.

(** C8, amended. For an ASCII text without a run of more than 4300 digits,
    parse_pairs returns exactly the set of pairs (min(a,b), max(a,b)) over
    the matches of a left-to-right scan without overlaps (at each position
    the longest match that starts there, the scan resuming after it); that
    list of matches is unique, each match is a substring the pattern
    matches, and the result is empty exactly when no substring matches;
    duplicate mentions collapse to one element, and in "1,2,3" only (1, 2)
    is reported. *)
Theorem parse_pairs_scan (text : string) :
  ascii_text (list_ascii_of_string text) →
  within_int_limit (list_ascii_of_string text) →
  (∃ matches,
     scan (list_ascii_of_string text) matches
     ∧ (∀ matches', scan (list_ascii_of_string text) matches' → matches' = matches)
     ∧ (∀ p, p ∈ parse_pairs text
             ↔ ∃ a b, (a, b) ∈ matches ∧ p = (Z.min a b, Z.max a b))
     ∧ (∀ a b, (a, b) ∈ matches →
          ∃ m, substring m (list_ascii_of_string text) ∧ pair_occurrence m a b))
  ∧ (parse_pairs text = ∅
     ↔ ¬ ∃ m a b, substring m (list_ascii_of_string text) ∧ pair_occurrence m a b)
  ∧ parse_pairs "(1, 2) and (2,1), again 1 ,2" = {[ (1, 2) ]}
  ∧ parse_pairs "1,2,3" = {[ (1, 2) ]}.
Proof.
  intros _ _.
  pose proof (finditer_scan (S (length (list_ascii_of_string text)))
                (list_ascii_of_string text) (Nat.lt_succ_diag_r _)) as Hscan.
  split_and!; [| |by vm_compute|by vm_compute].
  - eexists. split_and!; [exact Hscan| | |].
    + intros matches' H'. by apply (scan_functional _ _ _ H').
    + apply parse_pairs_elem.
    + intros a b. by apply scan_sound.
  - split.
    + intros Hempty. apply scan_nothing.
      destruct (finditer _ _) as [|[a b] l] eqn:Hf; [done|].
      assert ((Z.min a b, Z.max a b) ∈ parse_pairs text) as Hin.
      { apply parse_pairs_elem. exists a, b. rewrite Hf. split; [left | done]. }
      rewrite Hempty in Hin. by apply not_elem_of_empty in Hin.
    + intros Hno. apply leibniz_equiv, elem_of_equiv_empty. intros p Hp.
      apply parse_pairs_elem in Hp as (a & b & Hin & _).
      destruct (scan_sound _ _ a b Hscan Hin) as (m & Hsub & Hocc). eauto 6.
Qed.

Lemma parse_pairs_scan_example :
  (∃ matches,
     scan (list_ascii_of_string "(1, 2) and (2,1), again 1 ,2") matches
     ∧ (∀ matches',
          scan (list_ascii_of_string "(1, 2) and (2,1), again 1 ,2") matches' →
          matches' = matches)
     ∧ (∀ p, p ∈ parse_pairs "(1, 2) and (2,1), again 1 ,2"
             ↔ ∃ a b, (a, b) ∈ matches ∧ p = (Z.min a b, Z.max a b))
     ∧ (∀ a b, (a, b) ∈ matches →
          ∃ m, substring m (list_ascii_of_string "(1, 2) and (2,1), again 1 ,2")
               ∧ pair_occurrence m a b))
  ∧ (parse_pairs "(1, 2) and (2,1), again 1 ,2" = ∅
     ↔ ¬ ∃ m a b,
           substring m (list_ascii_of_string "(1, 2) and (2,1), again 1 ,2")
           ∧ pair_occurrence m a b)
  ∧ parse_pairs "(1, 2) and (2,1), again 1 ,2" = {[ (1, 2) ]}
  ∧ parse_pairs "1,2,3" = {[ (1, 2) ]}.
Proof.
  apply (parse_pairs_scan "(1, 2) and (2,1), again 1 ,2").
  - apply (bool_decide_unpack _). by vm_compute.
  - apply short_text_within_limit. simpl. lia.
Defined.

(** * Further properties *)

Import Derived.

(** ** Requirement bundles and the order of events *)

Lemma satisfies_side_counts (entries entries' : list GenerateOolongPairs.entry)
    (c : constraint) :
  (∀ cat, count_label cat entries = count_label cat entries') →
  satisfies_side entries c ↔ satisfies_side entries' c.
Proof.
  intros Hc. unfold satisfies_side.
  split; intros (H1 & H2 & H3); split_and!; intros;
    first [rewrite <- Hc | rewrite Hc]; eauto.
Qed.

Lemma check_user_constraint_counts (entries entries' : list GenerateOolongPairs.entry)
    (c : constraint) :
  (∀ cat, count_label cat entries = count_label cat entries') →
  check_user_constraint entries c = check_user_constraint entries' c.
Proof.
  intros Hc. pose proof (satisfies_side_counts entries entries' c Hc) as Hiff.
  rewrite <- !check_user_constraint_true in Hiff.
  destruct (check_user_constraint entries c), (check_user_constraint entries' c);
    intuition congruence.
Qed.

(** The order in which a user's events were recorded does not matter to a
    requirement bundle. *)
Theorem check_user_constraint_order (entries entries' : list GenerateOolongPairs.entry)
    (c : constraint) :
  entries ≡ₚ entries' →
  check_user_constraint entries c = check_user_constraint entries' c.
Proof.
  intros Hp. apply check_user_constraint_counts. intros cat.
  unfold count_label. by rewrite Hp.
Qed.

Lemma check_user_constraint_order_witness :
  let num := {| label := "NUM"; GenerateOolongPairs.timestamp := "2023-01-01" |} in
  let loc := {| label := "LOC"; GenerateOolongPairs.timestamp := "2023-06-01" |} in
  let c := {| has_all := Some ["LOC"]; at_least := None; exactly := Some {[ "NUM" := 1 ]} |} in
  [num; loc] ≡ₚ [loc; num]
  ∧ check_user_constraint [num; loc] c = check_user_constraint [loc; num] c.
Proof.
  intros num loc c.
  assert (Hp : [num; loc] ≡ₚ [loc; num]) by apply Permutation_swap.
  split; [exact Hp|]. exact (check_user_constraint_order _ _ c Hp).
Defined.

(** Without an exactly clause, further events never make a user fail a
    bundle that the user satisfied. *)
Theorem check_user_constraint_monotone (entries entries' : list GenerateOolongPairs.entry)
    (c : constraint) :
  exactly c = None →
  (∀ cat, count_label cat entries ≤ count_label cat entries') →
  check_user_constraint entries c = true →
  check_user_constraint entries' c = true.
Proof.
  intros Hex Hle. rewrite !check_user_constraint_true. unfold satisfies_side.
  intros (H1 & H2 & _). split_and!.
  - intros cats Hc cat Hin. specialize (H1 cats Hc cat Hin). specialize (Hle cat). lia.
  - intros d Hd cat n Hn. specialize (H2 d Hd cat n Hn). specialize (Hle cat). lia.
  - rewrite Hex. discriminate.
Qed.

Lemma check_user_constraint_monotone_witness :
  let num := {| label := "NUM"; GenerateOolongPairs.timestamp := "2023-01-01" |} in
  let c := {| has_all := Some ["NUM"]; at_least := Some {[ "NUM" := 1 ]}; exactly := None |} in
  check_user_constraint [num] c = true ∧ check_user_constraint [num; num] c = true.
Proof.
  intros num c. split; [reflexivity|].
  apply (check_user_constraint_monotone [num] [num; num] c); [reflexivity| |reflexivity].
  intros cat. unfold count_label. rewrite !filter_cons, filter_nil.
  destruct (decide (label num = cat)); simpl; lia.
Defined.

(** Which side of an asymmetric task is called A and which B makes no
    difference to the result. *)
Theorem asymmetric_sides_swap (strptime : string → string → option datetime)
    (user_labels : gmap Z (list GenerateOolongPairs.entry)) (a b : constraint) :
  compute_ground_truth strptime user_labels (asymmetric a b)
  = compute_ground_truth strptime user_labels (asymmetric b a).
Proof.
  simpl. apply outer_loop_ext. intros [x y] _. simpl.
  destruct (getitem user_labels x) as [ex|]; simpl; [|done].
  destruct (getitem user_labels y) as [ey|]; simpl; [|done].
  by destruct (check_user_constraint ex a), (check_user_constraint ey b),
    (check_user_constraint ey a), (check_user_constraint ex b).
Qed.

(** ** The size and shape of the results *)

Lemma filter_pairs_of (q : Z → bool) (u : Z) (rest : list Z) :
  filter (λ p : Z * Z, q p.1 && q p.2) (pair u <$> rest)
  = if q u then pair u <$> filter (λ x, q x) rest else [].
Proof.
  induction rest as [|v rest IH]; [by destruct (q u)|].
  rewrite fmap_cons, !filter_cons, IH. simpl.
  destruct (q u), (q v); simpl; done.
Qed.

Lemma filter_ordered_pairs (q : Z → bool) (user_ids : list Z) :
  filter (λ p : Z * Z, q p.1 && q p.2) (ordered_pairs user_ids)
  = ordered_pairs (filter (λ x, q x) user_ids).
Proof.
  induction user_ids as [|u rest IH]; simpl; [done|].
  rewrite filter_app, filter_pairs_of, IH, filter_cons.
  destruct (q u); simpl; done.
Qed.

Lemma ordered_pairs_length (user_ids : list Z) :
  (2 * length (ordered_pairs user_ids) = length user_ids * (length user_ids - 1))%nat.
Proof.
  induction user_ids as [|u rest IH]; simpl; [done|].
  rewrite length_app, length_fmap. nia.
Qed.

(** The result of a both_have_any task is the list of all pairs, in order,
    of the users that have an event of a target category: with k such users
    it holds k(k-1)/2 pairs. *)
Theorem both_have_any_all_pairs (strptime : string → string → option datetime)
    (user_labels : gmap Z (list GenerateOolongPairs.entry)) (categories : list string) :
  let users := filter (λ x, qualifies user_labels categories x) (sorted_keys user_labels) in
  compute_ground_truth strptime user_labels (both_have_any categories)
  = Ok (ordered_pairs users)
  ∧ (2 * length (ordered_pairs users) = length users * (length users - 1))%nat.
Proof.
  intros users. split; [|apply ordered_pairs_length].
  destruct (both_have_any_pairs strptime user_labels categories) as (pairs & Hp & _).
  rewrite Hp. f_equal. simpl in Hp. apply outer_loop_Ok in Hp. simpl in Hp.
  rewrite Hp. unfold users. rewrite <- filter_ordered_pairs.
  apply list_filter_iff. intros [x y]. simpl. unfold qualifies, getitem.
  destruct (user_labels !! x) as [ex|]; simpl; [|done].
  destruct (user_labels !! y) as [ey|]; simpl.
  - by destruct (truthy _ && truthy _).
  - by rewrite andb_false_r.
Qed.

Lemma filter_sublist_impl {A} (P Q : A → Prop) `{∀ x, Decision (P x)}
    `{∀ x, Decision (Q x)} (l : list A) :
  (∀ x, P x → Q x) → filter P l `sublist_of` filter Q l.
Proof.
  intros Himp. induction l as [|x l IH]; [done|].
  rewrite !filter_cons. destruct (decide (P x)) as [HP|HP].
  - rewrite decide_True by auto. by apply sublist_skip.
  - destruct (decide (Q x)); [by apply sublist_cons | done].
Qed.

(** A date constraint only removes pairs: what a with-date task returns is a
    sublist of what the both_have_any task over the same categories
    returns. *)
Theorem with_date_sublist (strptime : string → string → option datetime)
    (user_labels : gmap Z (list GenerateOolongPairs.entry)) (categories : list string)
    (dc : date_constraint) (pairs : list (Z * Z)) :
  compute_ground_truth strptime user_labels (both_have_any_with_date categories dc)
  = Ok pairs →
  ∃ pairs0,
    compute_ground_truth strptime user_labels (both_have_any categories) = Ok pairs0
    ∧ pairs `sublist_of` pairs0.
Proof.
  intros H.
  destruct (with_date_Ok_inv _ _ _ _ _ H) as (kind & bound & cutoff & Hb & Hp).
  rewrite (with_date_unfold _ _ _ _ _ _ _ Hb Hp) in H.
  apply outer_loop_Ok in H. simpl in H.
  destruct (both_have_any_pairs strptime user_labels categories) as (pairs0 & H0 & _).
  exists pairs0. split; [done|]. simpl in H0. apply outer_loop_Ok in H0. simpl in H0.
  rewrite H, H0. apply filter_sublist_impl. intros [x y]. simpl.
  unfold with_date_body.
  destruct (getitem user_labels x) as [ex|]; simpl; [|done].
  destruct (getitem user_labels y) as [ey|]; simpl; [|done].
  by destruct (truthy _ && truthy _).
Qed.

Lemma with_date_sublist_witness :
  let dc := {| GenerateOolongPairs.category := "NUM";
               before := Some "2023-01-01"; after := None |} in
  compute_ground_truth Sample.strptime Sample.store
    (both_have_any_with_date ["NUM"; "LOC"] dc) = Ok []
  ∧ ∃ pairs0,
      compute_ground_truth Sample.strptime Sample.store
        (both_have_any ["NUM"; "LOC"]) = Ok pairs0
      ∧ [] `sublist_of` pairs0.
Proof.
  intros dc. split; [reflexivity|].
  exact (with_date_sublist Sample.strptime Sample.store ["NUM"; "LOC"] dc [] eq_refl).
Defined.

Lemma sorted_keys_length {V} (user_labels : gmap Z V) :
  length (sorted_keys user_labels) = size user_labels.
Proof.
  unfold sorted_keys. rewrite merge_sort_Permutation.
  by rewrite <- size_dom.
Qed.

(** With fewer than two users there is no pair: every task returns the
    empty list, provided the bound of a date constraint is there and
    parses. *)
Theorem small_store_no_pairs (strptime : string → string → option datetime)
    (user_labels : gmap Z (list GenerateOolongPairs.entry)) (t : task) :
  (size user_labels ≤ 1)%nat →
  bound_parses strptime t →
  compute_ground_truth strptime user_labels t = Ok [].
Proof.
  intros Hsize Hbound.
  assert (Hloop : ∀ body, outer_loop body (sorted_keys user_labels) [] = Ok []).
  { intros body. pose proof (sorted_keys_length user_labels) as Hlen.
    destruct (sorted_keys user_labels) as [|x [|y l]]; simpl in *; [done|done|lia]. }
  destruct t as [cats|cats dc|a b|ty]; simpl in *; try apply Hloop; [|done].
  destruct Hbound as (kind & bound & Hb & [cutoff Hp]).
  pose proof (with_date_unfold strptime user_labels cats dc kind bound cutoff Hb Hp) as Hu.
  simpl in Hu. rewrite Hu. apply Hloop.
Qed.

Lemma small_store_no_pairs_witness :
  let dc := {| GenerateOolongPairs.category := "NUM";
               before := None; after := Some "2023-02-01" |} in
  let store : gmap Z (list GenerateOolongPairs.entry) :=
    {[ 7 := [ {| label := "NUM"; GenerateOolongPairs.timestamp := "not a date" |} ] ]} in
  compute_ground_truth Sample.strptime store (both_have_any_with_date ["NUM"] dc) = Ok [].
Proof.
  intros dc store. apply small_store_no_pairs.
  - by vm_compute.
  - exists After, "2023-02-01"%string. split; [reflexivity|]. by eexists.
Defined.

(** The bound of a date constraint is read and parsed before any user is
    looked at: without "before" and "after" the task raises KeyError, and
    with a bound that does not parse it raises ValueError, whatever the
    store, the empty one included. *)
Theorem bound_errors_first (strptime : string → string → option datetime)
    (user_labels : gmap Z (list GenerateOolongPairs.entry)) (categories : list string)
    (dc : date_constraint) :
  (bound_of dc = None →
     compute_ground_truth strptime user_labels (both_have_any_with_date categories dc)
     = Raise KeyError)
  ∧ (∀ kind bound,
       bound_of dc = Some (kind, bound) →
       ¬ is_Ok (parse_date strptime bound) →
       compute_ground_truth strptime user_labels (both_have_any_with_date categories dc)
       = Raise ValueError).
Proof.
  unfold bound_of. simpl. split.
  - destruct (before dc); [done|]. destruct (after dc); done.
  - intros kind bound Hb Hno.
    assert (Hv : parse_date strptime bound = Raise ValueError).
    { revert Hno. unfold parse_date, is_Ok.
      destruct (strptime bound "%b %d, %Y"); [intros []; eauto|].
      destruct (strptime bound "%Y-%m-%d"); [intros []; eauto|done]. }
    destruct (before dc) as [b|].
    + injection Hb as <- <-. by rewrite Hv.
    + destruct (after dc) as [a|]; [|done]. injection Hb as <- <-. simpl. by rewrite Hv.
Qed.

(** ** What the engine does not read *)

Lemma same_for_labels (t : task) (entries entries' : list GenerateOolongPairs.entry) :
  Forall2 (same_for t) entries entries' → label <$> entries = label <$> entries'.
Proof.
  induction 1 as [|e e' es es' [Hl _] _ IH]; [done|].
  rewrite !fmap_cons. by rewrite Hl, IH.
Qed.

Lemma count_labels_of_labels (entries entries' : list GenerateOolongPairs.entry) :
  label <$> entries = label <$> entries' → count_labels entries = count_labels entries'.
Proof.
  unfold count_labels. generalize (∅ : gmap string Z).
  revert entries'. induction entries as [|e es IH]; intros [|e' es'] acc Heq;
    try done.
  rewrite !fmap_cons in Heq. injection Heq as Hl Hrest. simpl.
  rewrite Hl. by apply IH.
Qed.

Lemma same_for_check (t : task) (entries entries' : list GenerateOolongPairs.entry)
    (c : constraint) :
  Forall2 (same_for t) entries entries' →
  check_user_constraint entries c = check_user_constraint entries' c.
Proof.
  intros H. unfold check_user_constraint.
  by rewrite (count_labels_of_labels _ _ (same_for_labels _ _ _ H)).
Qed.

Lemma same_for_passes_date (strptime : string → string → option datetime)
    (categories : list string) (dc : date_constraint)
    (check : string → result bool) (entries entries' : list GenerateOolongPairs.entry) :
  Forall2 (same_for (both_have_any_with_date categories dc)) entries entries' →
  user_passes_date check (GenerateOolongPairs.category dc) entries
  = user_passes_date check (GenerateOolongPairs.category dc) entries'.
Proof.
  induction 1 as [|e e' es es' [Hl Hts] _ IH]; [done|]. simpl.
  rewrite <- Hl. destruct (decide (label e = GenerateOolongPairs.category dc)) as [Hc|]; [|done].
  rewrite <- (Hts Hc). destruct (check (GenerateOolongPairs.timestamp e)) as [[]|]; simpl; done.
Qed.

Lemma stores_agree_keys (t : task)
    (user_labels user_labels' : gmap Z (list GenerateOolongPairs.entry)) :
  stores_agree t user_labels user_labels' →
  sorted_keys user_labels = sorted_keys user_labels'.
Proof.
  intros H. unfold sorted_keys. f_equal. f_equal. apply set_eq. intros x.
  rewrite !elem_of_dom. specialize (H x).
  destruct H; split; intros [? ?]; by eauto.
Qed.

(** The engine reads the labels of the events, and the timestamps of the
    events of the date category of a with-date task, and nothing else: two
    stores that agree on these give the same result. In particular a
    timestamp that does not parse is harmless on an event whose label the
    date constraint does not name, and under a task without date
    constraint. *)
Theorem unread_timestamps (strptime : string → string → option datetime)
    (user_labels user_labels' : gmap Z (list GenerateOolongPairs.entry)) (t : task) :
  stores_agree t user_labels user_labels' →
  compute_ground_truth strptime user_labels t
  = compute_ground_truth strptime user_labels' t.
Proof.
  intros H. unfold compute_ground_truth. rewrite <- (stores_agree_keys _ _ _ H).
  assert (Hget : ∀ x (k : list GenerateOolongPairs.entry → list GenerateOolongPairs.entry
                        → result bool),
            (∀ ex ex', Forall2 (same_for t) ex ex' →
               ∀ ey ey', Forall2 (same_for t) ey ey' → k ex ey = k ex' ey') →
            ∀ y,
              (ex ← getitem user_labels x; ey ← getitem user_labels y; k ex ey)
              = (ex ← getitem user_labels' x; ey ← getitem user_labels' y; k ex ey)).
  { intros x k Hk y. unfold getitem.
    destruct (H x) as [ex ex' Hx|]; simpl; [|done].
    destruct (H y) as [ey ey' Hy|]; simpl; [|done]. by apply Hk. }
  destruct t as [cats|cats dc|a b|ty]; [| |  |done].
  - apply outer_loop_ext. intros [x y] _. simpl.
    apply (Hget x (λ ex ey, Ok (truthy (labels_of ex ∩ list_to_set cats)
                                && truthy (labels_of ey ∩ list_to_set cats)))).
    intros ex ex' Hx ey ey' Hy. unfold labels_of.
    by rewrite (same_for_labels _ _ _ Hx), (same_for_labels _ _ _ Hy).
  - match goal with |- ?setup ≫= _ = _ => destruct setup as [check|e] end; simpl; [|done].
    apply outer_loop_ext. intros [x y] _. simpl.
    apply (Hget x (λ ex ey,
      if negb (truthy (labels_of ex ∩ list_to_set cats)
               && truthy (labels_of ey ∩ list_to_set cats))
      then Ok false
      else p1 ← user_passes_date check (GenerateOolongPairs.category dc) ex;
           if (p1 : bool)
           then user_passes_date check (GenerateOolongPairs.category dc) ey
           else Ok false)).
    intros ex ex' Hx ey ey' Hy. unfold labels_of.
    rewrite (same_for_labels _ _ _ Hx), (same_for_labels _ _ _ Hy).
    by rewrite (same_for_passes_date strptime cats dc check _ _ Hx),
      (same_for_passes_date strptime cats dc check _ _ Hy).
  - apply outer_loop_ext. intros [x y] _. simpl.
    apply (Hget x (λ ex ey,
      if check_user_constraint ex a && check_user_constraint ey b then Ok true
      else if check_user_constraint ey a && check_user_constraint ex b then Ok true
      else Ok false)).
    intros ex ex' Hx ey ey' Hy.
    by rewrite !(same_for_check _ _ _ _ Hx), !(same_for_check _ _ _ _ Hy).
Qed.

Lemma unread_timestamps_witness :
  let dc := {| GenerateOolongPairs.category := "NUM";
               before := Some "2023-02-01"; after := None |} in
  let t := both_have_any_with_date ["NUM"; "LOC"] dc in
  let store' : gmap Z (list GenerateOolongPairs.entry) :=
    {[ 1 := [ {| label := "NUM"; GenerateOolongPairs.timestamp := "2023-01-01" |} ];
       2 := [ {| label := "NUM"; GenerateOolongPairs.timestamp := "2023-01-01" |};
              {| label := "LOC"; GenerateOolongPairs.timestamp := "some day in June" |} ];
       3 := [ {| label := "ENTY"; GenerateOolongPairs.timestamp := "" |} ] ]} in
  compute_ground_truth Sample.strptime Sample.store t
  = compute_ground_truth Sample.strptime store' t.
Proof.
  intros dc t store'. apply unread_timestamps. intros x.
  destruct (decide (x = 1)) as [->|]; [|destruct (decide (x = 2)) as [->|];
    [|destruct (decide (x = 3)) as [->|]]].
  - constructor. repeat constructor; simpl; done.
  - constructor. repeat constructor; simpl; done.
  - constructor. repeat constructor; simpl; done.
  - unfold Sample.store, store'. rewrite !lookup_insert_ne by done.
    rewrite !lookup_singleton_ne by done. constructor.
Defined.

(** ** The scorer's command *)

Lemma size_split (X Y : gset (Z * Z)) :
  size X = (size (X ∩ Y) + size (X ∖ Y))%nat.
Proof.
  rewrite <- size_union.
  2:{ apply elem_of_disjoint. intros p.
      rewrite elem_of_intersection, elem_of_difference. tauto. }
  f_equal.
  apply set_eq. intros p. rewrite elem_of_union, elem_of_intersection, elem_of_difference.
  destruct (decide (p ∈ Y)); tauto.
Qed.


(** When [main] succeeds, the counts of the metrics agree with the sets it
    prints: the true positives and the missed pairs make up the ground truth,
    the true positives and the false positives make up the prediction, and
    the true positives exceed neither count. *)
Theorem main_counts (correct_pairs : list (Z * Z)) (prediction_text : string)
    (r : EvaluateMain.report) :
  EvaluateMain.main correct_pairs prediction_text = Ok r →
  ∃ tp pc gc,
    true_positives (EvaluateMain.metrics_of r) = Some tp
    ∧ predicted_count (EvaluateMain.metrics_of r) = Some pc
    ∧ ground_truth_count (EvaluateMain.metrics_of r) = Some gc
    ∧ tp = len (EvaluateMain.correct r)
    ∧ gc = tp + len (EvaluateMain.missed r)
    ∧ pc = tp + len (EvaluateMain.false_positives r)
    ∧ 0 ≤ tp ≤ Z.min pc gc ∧ 0 < pc ∧ 0 < gc.
Proof.
  unfold EvaluateMain.main, compute_f1.
  destruct (len (parse_pairs prediction_text) =? 0) eqn:Hp; simpl;
    [by destruct (len (list_to_set correct_pairs) =? 0)|].
  destruct (len (list_to_set correct_pairs) =? 0) eqn:Hg; simpl; [done|].
  intros [= <-]. simpl. eexists _, _, _. split_and!; try reflexivity.
  - unfold len. rewrite (size_split (list_to_set correct_pairs) (parse_pairs prediction_text)).
    rewrite (comm_L (∩) (list_to_set correct_pairs)). lia.
  - unfold len. rewrite (size_split (parse_pairs prediction_text) (list_to_set correct_pairs)).
    lia.
  - unfold len. lia.
  - unfold len.
    pose proof (size_split (list_to_set correct_pairs) (parse_pairs prediction_text)) as H1.
    pose proof (size_split (parse_pairs prediction_text) (list_to_set correct_pairs)) as H2.
    rewrite (comm_L (∩) (list_to_set correct_pairs)) in H1. lia.
  - apply Z.eqb_neq in Hp. unfold len in *. lia.
  - apply Z.eqb_neq in Hg. unfold len in *. lia.
Qed.

Lemma main_counts_witness :
  ∃ r, EvaluateMain.main [(1, 2); (3, 4)] "(1, 2) and (5, 6)" = Ok r
       ∧ EvaluateMain.missed r = {[ (3, 4) ]}
       ∧ ∃ tp pc gc,
           true_positives (EvaluateMain.metrics_of r) = Some tp
           ∧ predicted_count (EvaluateMain.metrics_of r) = Some pc
           ∧ ground_truth_count (EvaluateMain.metrics_of r) = Some gc
           ∧ tp = len (EvaluateMain.correct r)
           ∧ gc = tp + len (EvaluateMain.missed r)
           ∧ pc = tp + len (EvaluateMain.false_positives r)
           ∧ 0 ≤ tp ≤ Z.min pc gc ∧ 0 < pc ∧ 0 < gc.
Proof.
  eexists. split; [by vm_compute|]. split; [by vm_compute|].
  apply (main_counts [(1, 2); (3, 4)] "(1, 2) and (5, 6)"). by vm_compute.
Defined.

(** Exchanging the prediction and the ground truth exchanges precision and
    recall. *)
Theorem compute_f1_exchange (predicted ground_truth : gset (Z * Z)) :
  precision (compute_f1 predicted ground_truth) = recall (compute_f1 ground_truth predicted)
  ∧ recall (compute_f1 predicted ground_truth) = precision (compute_f1 ground_truth predicted).
Proof.
  unfold compute_f1. rewrite (comm_L (∩) ground_truth predicted).
  destruct (len predicted =? 0), (len ground_truth =? 0); simpl; done.
Qed.

(** ** The ground truth of the lightweight generator *)

Section lightweight.
Import GenerateDatasetTasks.

Lemma categories_of_labels (entries : list GenerateDataset.entry) :
  categories_of entries = labels_of (as_label <$> entries).
Proof. unfold categories_of, labels_of. by rewrite <- list_fmap_compose. Qed.

Lemma truthy_categories (categories : list string) (entries : list GenerateDataset.entry) :
  truthy (categories_of entries ∩ list_to_set categories) = true
  ↔ has_any categories entries.
Proof.
  rewrite categories_of_labels, truthy_intersection. unfold has_any_of, has_any. split.
  - intros (e & He & Hc). apply list_elem_of_fmap in He as (e' & -> & He'). eauto.
  - intros (e & He & Hc). exists (as_label e). split; [|done].
    apply list_elem_of_fmap. eauto.
Qed.

(** On a task without date constraint of the both_have_any type the two
    generators compute the same pairs: compute_ground_truth_pairs of
    generate_dataset.py returns what compute_ground_truth of
    generate_oolong_pairs.py returns on the same events. On a date constraint
    they differ: the lightweight generator reads the "before" key only, and
    raises KeyError when it is absent, whether or not "after" is given. *)
Theorem lightweight_both_have_any
    (strptime' : string → string → option timepoint)
    (strptime : string → string → option datetime)
    (ground_truth : gmap Z (list GenerateDataset.entry)) (categories : list string) :
  compute_ground_truth_pairs strptime' ground_truth (both_have_any categories)
  = compute_ground_truth strptime (fmap (M := list) as_label <$> ground_truth)
      (both_have_any categories)
  ∧ ∀ dc, before dc = None →
      compute_ground_truth_pairs strptime' ground_truth
        (both_have_any_with_date categories dc)
      = Raise KeyError.
Proof.
  split.
  - simpl.
    assert (Hkeys : sorted_keys (fmap (M := list) as_label <$> ground_truth)
                    = sorted_keys ground_truth).
    { unfold sorted_keys. by rewrite dom_fmap_L. }
    rewrite Hkeys. apply outer_loop_ext. intros [x y] Hp. simpl.
    apply ordered_pairs_elem in Hp as (Hx & Hy & _); [|apply sorted_keys_sorted].
    apply sorted_keys_elem in Hx as [ex Hx]. apply sorted_keys_elem in Hy as [ey Hy].
    unfold getitem. rewrite !lookup_fmap, Hx, Hy. simpl.
    by rewrite !categories_of_labels.
  - intros dc Hb. simpl. by rewrite Hb.
Qed.

Lemma ge_days (ts before_date : timepoint) :
  0 ≤ hour ts → 0 ≤ minute ts → 0 ≤ second ts →
  hour before_date = 0 → minute before_date = 0 → second before_date = 0 →
  ge ts before_date = negb (datetime_lt (date ts) (date before_date)).
Proof.
  destruct ts as [[y m d] h mi s], before_date as [[y' m' d'] h' mi' s'].
  simpl. intros Hh Hm Hs -> -> ->. unfold ge, cmp, then_cmp, datetime_lt. simpl.
  repeat match goal with
         | |- context [?a ?= ?b] => destruct (Z.compare_spec a b)
         end;
  repeat match goal with
         | |- context [?a <? ?b] => destruct (Z.ltb_spec a b)
         | |- context [?a =? ?b] => destruct (Z.eqb_spec a b)
         end; simpl; try done; lia.
Qed.

Section lightweight_with_date.
Variable strptime : string → string → option timepoint.
Hypothesis Htimes : times_of_day strptime.
Variables (date_cat bound : string) (before_date : timepoint).
Hypothesis Hbound : strptime bound "%Y-%m-%d" = Some before_date.

Lemma check_date_constraint_true (entries : list GenerateDataset.entry) :
  check_date_constraint strptime date_cat before_date entries = Ok true
  ↔ days_before strptime date_cat before_date entries.
Proof.
  destruct (Htimes _ _ _ Hbound) as (_ & _ & _ & Hmid).
  destruct (Hmid eq_refl) as (Hh & Hm & Hs).
  unfold days_before. induction entries as [|e entries IH]; simpl.
  - split; [|done]. intros _ e He. by apply elem_of_nil in He.
  - destruct (decide (GenerateDataset.category e = date_cat)) as [Hc|Hc].
    + unfold parse at 1.
      destruct (strptime (GenerateDataset.timestamp e) "%Y-%m-%d %H:%M:%S")
        as [ts|] eqn:Hts; simpl.
      * destruct (Htimes _ _ _ Hts) as (Hh' & Hm' & Hs' & _).
        rewrite (ge_days ts before_date) by done.
        destruct (datetime_lt (date ts) (date before_date)) eqn:Hlt; simpl.
        -- rewrite IH. split.
           ++ intros Hall e' He' Hc'. apply elem_of_cons in He' as [->|He']; eauto.
           ++ intros Hall e' He' Hc'. apply Hall; [by right|done].
        -- split; [done|]. intros Hall.
           destruct (Hall e ltac:(left) Hc) as (ts' & Hts' & Hlt'). congruence.
      * split; [done|]. intros Hall.
        destruct (Hall e ltac:(left) Hc) as (ts' & Hts' & _). congruence.
    + rewrite IH. split.
      * intros Hall e' He' Hc'. apply elem_of_cons in He' as [->|He']; [done|eauto].
      * intros Hall e' He' Hc'. apply Hall; [by right|done].
Qed.

Lemma check_date_constraint_total (entries : list GenerateDataset.entry) :
  (∀ e, e ∈ entries → GenerateDataset.category e = date_cat →
     is_Some (strptime (GenerateDataset.timestamp e) "%Y-%m-%d %H:%M:%S")) →
  is_Ok (check_date_constraint strptime date_cat before_date entries).
Proof.
  induction entries as [|e entries IH]; intros Hok; simpl; [by eexists|].
  assert (is_Ok (check_date_constraint strptime date_cat before_date entries)) as Hrest.
  { apply IH. intros e' He'. apply Hok. by right. }
  destruct (decide (GenerateDataset.category e = date_cat)) as [Hc|Hc]; [|done].
  unfold parse at 1. destruct (Hok e ltac:(left) Hc) as [ts ->]. simpl.
  destruct (ge ts before_date); [by eexists|done].
Qed.

End lightweight_with_date.

Lemma sample_times_of_day : times_of_day sample_strptime.
Proof.
  intros s f t. unfold sample_strptime.
  destruct (String.eqb f "%Y-%m-%d") eqn:Hf.
  { destruct (Sample.strptime s "%Y-%m-%d"); simpl; [|done].
    intros [= <-]. simpl. lia. }
  destruct (String.eqb f "%Y-%m-%d %H:%M:%S"); [|done].
  destruct (Sample.strptime _ _); simpl; [|done].
  destruct (list_ascii_of_string _) as [|sp [|h1 [|h2 [|c1 [|m1 [|m2 [|c2 [|s1 [|s2 [|]]]]]]]]]];
    try done.
  match goal with
  | |- context [if ?c then _ else _] => destruct c eqn:Hok; [|done]
  end.
  intros [= <-]. simpl.
  repeat (apply andb_true_iff in Hok as [Hok ?]).
  repeat match goal with H : (_ <=? _) = true |- _ => apply Z.leb_le in H end.
  split_and!; try lia. intros ->. apply String.eqb_neq in Hf. done.
Qed.

(** The with-date branch of compute_ground_truth_pairs works at the
    granularity of days. When "before" is present and parses, and the
    timestamps of the events of the date category parse, it returns the
    pairs x < y of users that both have an event of a target category and
    whose events of the date category all fall on a day strictly before the
    day of the bound: an event on the day of the bound excludes its user
    whatever its time of day, midnight included. *)
Theorem lightweight_with_date_days
    (strptime : string → string → option timepoint)
    (ground_truth : gmap Z (list GenerateDataset.entry))
    (categories : list string) (dc : date_constraint)
    (bound : string) (before_date : timepoint) :
  times_of_day strptime →
  before dc = Some bound →
  strptime bound "%Y-%m-%d" = Some before_date →
  (∀ x ex e, ground_truth !! x = Some ex → e ∈ ex →
     GenerateDataset.category e = GenerateOolongPairs.category dc →
     is_Some (strptime (GenerateDataset.timestamp e) "%Y-%m-%d %H:%M:%S")) →
  ∃ pairs,
    compute_ground_truth_pairs strptime ground_truth
      (both_have_any_with_date categories dc) = Ok pairs
    ∧ StronglySorted lex_lt pairs
    ∧ ∀ x y, (x, y) ∈ pairs ↔
        x < y
        ∧ ∃ ex ey, ground_truth !! x = Some ex ∧ ground_truth !! y = Some ey
            ∧ has_any categories ex ∧ has_any categories ey
            ∧ days_before strptime (GenerateOolongPairs.category dc) before_date ex
            ∧ days_before strptime (GenerateOolongPairs.category dc) before_date ey.
Proof.
  intros Htimes Hb Hbound Hts. simpl. rewrite Hb. simpl.
  unfold parse at 1. rewrite Hbound. simpl.
  set (body := with_date_check strptime ground_truth (list_to_set categories)
                 (GenerateOolongPairs.category dc) before_date).
  destruct (enumerate_total body ground_truth) as [pairs Hp].
  { intros x y ex ey Hx Hy. unfold body, with_date_check.
    rewrite (getitem_Some _ _ _ Hx), (getitem_Some _ _ _ Hy). simpl.
    destruct (negb _); [by eexists|].
    destruct (check_date_constraint_total strptime (GenerateOolongPairs.category dc)
                before_date ex) as [[] ->]; [by eauto| |by eexists].
    simpl. apply check_date_constraint_total. eauto. }
  exists pairs. split; [done|].
  apply enumerate_spec in Hp as [Hin Hs]. split; [done|].
  intros x y. rewrite Hin. split.
  - intros (Hlt & [ex Hx] & [ey Hy] & Hbody). split; [done|]. exists ex, ey.
    split; [done|]. split; [done|]. revert Hbody. unfold body, with_date_check.
    rewrite (getitem_Some _ _ _ Hx), (getitem_Some _ _ _ Hy). simpl.
    destruct (truthy (categories_of ex ∩ _)) eqn:H1; [|done].
    destruct (truthy (categories_of ey ∩ _)) eqn:H2; [|done]. simpl.
    apply truthy_categories in H1, H2.
    destruct (check_date_constraint strptime _ before_date ex) as [[]|] eqn:Hc1;
      simpl; try done.
    intros Hc2.
    apply (check_date_constraint_true strptime Htimes _ bound before_date Hbound) in Hc1, Hc2.
    done.
  - intros (Hlt & ex & ey & Hx & Hy & H1 & H2 & Hc1 & Hc2).
    split; [done|]. split; [by eexists|]. split; [by eexists|].
    unfold body, with_date_check.
    rewrite (getitem_Some _ _ _ Hx), (getitem_Some _ _ _ Hy). simpl.
    apply truthy_categories in H1, H2. rewrite H1, H2. simpl.
    apply (check_date_constraint_true strptime Htimes _ bound before_date Hbound) in Hc1, Hc2.
    by rewrite Hc1.
Qed.

Lemma lightweight_with_date_days_witness :
  ∃ pairs,
    compute_ground_truth_pairs sample_strptime sample_ground_truth
      (both_have_any_with_date ["ENTY"; "NUM"] (TaskCatalog.before_date "ENTY" "2023-03-15"))
    = Ok pairs
    ∧ StronglySorted lex_lt pairs
    ∧ ∀ x y, (x, y) ∈ pairs ↔
        x < y
        ∧ ∃ ex ey, sample_ground_truth !! x = Some ex
            ∧ sample_ground_truth !! y = Some ey
            ∧ has_any ["ENTY"; "NUM"] ex ∧ has_any ["ENTY"; "NUM"] ey
            ∧ days_before sample_strptime "ENTY"
                {| date := {| year := 2023; month := 3; day := 15 |};
                   hour := 0; minute := 0; second := 0 |} ex
            ∧ days_before sample_strptime "ENTY"
                {| date := {| year := 2023; month := 3; day := 15 |};
                   hour := 0; minute := 0; second := 0 |} ey.
Proof.
  apply (lightweight_with_date_days sample_strptime sample_ground_truth
           ["ENTY"; "NUM"] (TaskCatalog.before_date "ENTY" "2023-03-15") "2023-03-15").
  - apply sample_times_of_day.
  - reflexivity.
  - vm_compute. reflexivity.
  - intros x ex e Hx He _.
    assert (H : map_Forall
                  (λ _ ex, Forall (λ e, is_Some (sample_strptime
                                                   (GenerateDataset.timestamp e)
                                                   "%Y-%m-%d %H:%M:%S")) ex)
                  sample_ground_truth).
    { apply (bool_decide_unpack _). vm_compute. exact I. }
    exact (proj1 (Forall_forall _ _) (H x ex Hx) e He).
Defined.

End lightweight.


(** ** Loops that may raise *)

Import Py.

Lemma for_each_append {A B} (f : A → outcome B) (xs : list A) (acc : list B) :
  for_each (λ out x, y ← f x; Return (out ++ [y])) xs acc
  = (ys ← for_each (λ out x, y ← f x; Return (out ++ [y])) xs []; Return (acc ++ ys)).
Proof.
  revert acc. induction xs as [|x xs IH]; intros acc; simpl.
  - by rewrite app_nil_r.
  - destruct (f x) as [y|e]; simpl; [|done].
    rewrite (IH (acc ++ [y])), (IH [y]).
    destruct (for_each _ xs []) as [ys|e]; simpl; [|done].
    by rewrite <- app_assoc.
Qed.

Lemma comprehension_cons {A B} (f : A → outcome B) (x : A) (xs : list A) :
  comprehension f (x :: xs)
  = (y ← f x; ys ← comprehension f xs; Return (y :: ys)).
Proof.
  unfold comprehension. simpl. destruct (f x) as [y|e]; simpl; [|done].
  by rewrite for_each_append.
Qed.

Lemma comprehension_Return {A B} (f : A → outcome B) (xs : list A) (ys : list B) :
  comprehension f xs = Return ys ↔ Forall2 (λ x y, f x = Return y) xs ys.
Proof.
  revert ys. induction xs as [|x xs IH]; intros ys.
  - split; [intros [= <-]; constructor | by inversion 1].
  - rewrite comprehension_cons. split.
    + destruct (f x) as [y|e] eqn:Hx; simpl; [|done].
      destruct (comprehension f xs) as [ys'|e] eqn:Hxs; simpl; [|done].
      intros [= <-]. constructor; [done|]. by apply IH.
    + inversion 1 as [|? y ? ys' Hx Hxs]; subst. rewrite Hx. simpl.
      apply IH in Hxs. by rewrite Hxs.
Qed.

Lemma comprehension_fails {A B} (f : A → outcome B) (xs : list A) (x : A)
    (e : error) :
  (∀ x' e', f x' = Throw e' → e' = e) →
  x ∈ xs → f x = Throw e → comprehension f xs = Throw e.
Proof.
  intros Hsame Hin Hx. induction xs as [|x' xs IH]; [inversion Hin|].
  rewrite comprehension_cons. destruct (f x') as [y|e'] eqn:Hx'; simpl.
  - apply elem_of_cons in Hin as [->|Hin]; [congruence|]. by rewrite (IH Hin).
  - f_equal. by apply (Hsame x').
Qed.

Lemma comprehension_length {A B} (f : A → outcome B) (xs : list A) (ys : list B) :
  comprehension f xs = Return ys → length ys = length xs.
Proof.
  intros H. apply comprehension_Return in H. symmetry. by eapply Forall2_length.
Qed.

(** ** All pairs of the selected users *)

Section find_user_pairs_facts.
Variable int : string → option Z.

Local Abbreviation int_of := (FindUserPairs.int_of int).
Local Abbreviation find_user_pairs := (FindUserPairs.find_user_pairs int).

Lemma index_inner_loop (user_ids : list Z) (a : Z) (i k j : nat) (acc : list (Z * Z)) :
  user_ids !! i = Some a → (j + k = length user_ids)%nat →
  for_each
    (λ pairs j, a ← item user_ids i; b ← item user_ids j; Return (pairs ++ [(a, b)]))
    (seq j k) acc
  = Return (acc ++ (pair a <$> drop j user_ids)).
Proof.
  intros Hi.
  match goal with |- context [for_each ?f (seq _ k) _] => set (step := f) end.
  revert j acc. induction k as [|k IH]; intros j acc Hlen; simpl.
  - rewrite drop_ge by lia. by rewrite app_nil_r.
  - destruct (user_ids !! j) as [b|] eqn:Hj.
    2:{ apply lookup_ge_None in Hj. lia. }
    assert (Hstep : step acc j = Return (acc ++ [(a, b)])).
    { unfold step, item. by rewrite Hi, Hj. }
    rewrite Hstep. simpl. rewrite IH by lia. rewrite (drop_S _ _ _ Hj), fmap_cons.
    by rewrite <- app_assoc.
Qed.

Lemma index_outer_loop (user_ids : list Z) (k i : nat) (acc : list (Z * Z)) :
  (i + k = length user_ids)%nat →
  for_each
    (λ pairs i,
       for_each
         (λ pairs j,
            a ← item user_ids i; b ← item user_ids j; Return (pairs ++ [(a, b)]))
         (seq (i + 1) (length user_ids - (i + 1))) pairs)
    (seq i k) acc
  = Return (acc ++ ordered_pairs (drop i user_ids)).
Proof.
  match goal with |- context [for_each ?f (seq _ k) _] => set (step := f) end.
  revert i acc. induction k as [|k IH]; intros i acc Hlen; simpl.
  - rewrite drop_ge by lia. by rewrite app_nil_r.
  - destruct (user_ids !! i) as [a|] eqn:Hi.
    2:{ apply lookup_ge_None in Hi. lia. }
    assert (Hstep : step acc i
                    = Return (acc ++ (pair a <$> drop (i + 1) user_ids))).
    { unfold step. by apply (index_inner_loop user_ids a i); [|lia]. }
    rewrite Hstep. simpl. rewrite IH by lia. rewrite (drop_S _ _ _ Hi). simpl.
    rewrite Nat.add_1_r. by rewrite <- app_assoc.
Qed.

Lemma find_user_pairs_Return (target_users : list string) (ids : list Z) :
  Forall2 (λ u n, int u = Some n) target_users ids →
  find_user_pairs target_users = Return (ordered_pairs (merge_sort Z.le ids)).
Proof.
  intros H. unfold FindUserPairs.find_user_pairs.
  assert (Hc : comprehension int_of target_users = Return ids).
  { apply comprehension_Return. eapply Forall2_impl; [exact H|].
    intros u n Hu. unfold FindUserPairs.int_of. by rewrite Hu. }
  rewrite Hc. simpl.
  by rewrite (index_outer_loop (merge_sort Z.le ids) _ 0 []).
Qed.

Lemma int_of_only_ValueError (u : string) (e : error) :
  int_of u = Throw e → e = ValueError.
Proof. unfold FindUserPairs.int_of. destruct (int u); congruence. Qed.

Lemma sorted_le_pairs (l : list Z) :
  StronglySorted Z.le l → Forall (λ p : Z * Z, p.1 ≤ p.2) (ordered_pairs l).
Proof.
  induction 1 as [|u rest Hs IH Hall]; simpl; [constructor|].
  apply Forall_app. split; [|done].
  apply Forall_fmap. eapply Forall_impl; [exact Hall|]. done.
Qed.

Lemma sorted_le_NoDup_lt (l : list Z) :
  StronglySorted Z.le l → NoDup l → StronglySorted Z.lt l.
Proof.
  induction 1 as [|u rest Hs IH Hall]; intros Hnd; [constructor|].
  apply NoDup_cons in Hnd as [Hu Hnd]. constructor; [auto|].
  apply Forall_forall. intros y Hy.
  pose proof (proj1 (Forall_forall _ _) Hall y Hy).
  assert (u ≠ y) by (intros ->; done). lia.
Qed.

(** find_user_pairs fails with ValueError as soon as an identifier is not
    an integer; otherwise, for n identifiers, it returns n(n-1)/2 pairs, the
    number that summary.py announces for n users. *)
Theorem find_user_pairs_count (target_users : list string) :
  ((∃ u, u ∈ target_users ∧ int u = None) →
     find_user_pairs target_users = Throw ValueError)
  ∧ ((∀ u, u ∈ target_users → is_Some (int u)) →
     ∃ pairs,
       find_user_pairs target_users = Return pairs
       ∧ let n := Z.of_nat (length target_users) in
         Z.of_nat (length pairs) = n * (n - 1) / 2).
Proof.
  split.
  - intros (u & Hin & Hu). unfold FindUserPairs.find_user_pairs.
    rewrite (comprehension_fails int_of target_users u ValueError); try done.
    + intros u' e'. apply int_of_only_ValueError.
    + unfold FindUserPairs.int_of. by rewrite Hu.
  - intros Hall.
    assert (∃ ids, Forall2 (λ u n, int u = Some n) target_users ids) as [ids Hids].
    { induction target_users as [|u us IH]; [by exists []|].
      destruct (Hall u) as [n Hn]; [left|].
      destruct IH as [ids Hids]; [intros u' Hu'; apply Hall; by right|].
      exists (n :: ids). by constructor. }
    rewrite (find_user_pairs_Return _ _ Hids). eexists. split; [done|]. simpl.
    pose proof (ordered_pairs_length (merge_sort Z.le ids)) as Hlen.
    rewrite (Permutation_length (merge_sort_Permutation Z.le ids)) in Hlen.
    rewrite <- (Forall2_length _ _ _ Hids) in Hlen.
    apply Z.div_unique_exact; [done|]. nia.
Qed.

(** Every pair (a, b) that find_user_pairs returns has a ≤ b and joins two
    of the integers the identifiers denote. When these integers are pairwise
    distinct the pairs have a < b and come in strictly ascending order; two
    identifiers that denote the same integer n, as "7" and "007" do, yield
    the pair (n, n). *)
Theorem find_user_pairs_canonical (target_users : list string) (ids : list Z) :
  Forall2 (λ u n, int u = Some n) target_users ids →
  ∃ pairs,
    find_user_pairs target_users = Return pairs
    ∧ Forall (λ p : Z * Z, p.1 ≤ p.2 ∧ p.1 ∈ ids ∧ p.2 ∈ ids) pairs
    ∧ (NoDup ids → Forall (λ p : Z * Z, p.1 < p.2) pairs ∧ StronglySorted lex_lt pairs)
    ∧ (∀ n, (∃ i j, i ≠ j ∧ ids !! i = Some n ∧ ids !! j = Some n) → (n, n) ∈ pairs).
Proof.
  intros Hids. rewrite (find_user_pairs_Return _ _ Hids). eexists. split; [done|].
  assert (Hs : StronglySorted Z.le (merge_sort Z.le ids))
    by (apply StronglySorted_merge_sort; apply _).
  split_and!.
  - apply Forall_forall. intros [a b] Hp. split.
    + by apply (proj1 (Forall_forall _ _) (sorted_le_pairs _ Hs) (a, b)).
    + apply ordered_pairs_lookup in Hp as (i & j & _ & Hi & Hj). simpl.
      split; rewrite <- (merge_sort_Permutation Z.le ids);
        apply list_elem_of_lookup; eauto.
  - intros Hnd.
    assert (Hlt : StronglySorted Z.lt (merge_sort Z.le ids)).
    { apply sorted_le_NoDup_lt; [done|]. by rewrite merge_sort_Permutation. }
    split; [|by apply ordered_pairs_sorted].
    apply Forall_forall. intros [a b] Hp. simpl.
    by apply ordered_pairs_elem in Hp as (_ & _ & Hp).
  - intros n (i & j & Hne & Hi & Hj).
    assert (Hdup : ∃ i' j', (i' < j')%nat ∧ merge_sort Z.le ids !! i' = Some n
                            ∧ merge_sort Z.le ids !! j' = Some n).
    { assert (Hperm : ids ≡ₚ merge_sort Z.le ids) by by rewrite merge_sort_Permutation.
      apply Permutation_inj in Hperm as [_ (f & Hinj & Hf)].
      assert (f i ≠ f j) by (intros Hfij; by apply Hne, Hinj).
      rewrite Hf in Hi, Hj.
      destruct (decide (f i < f j)%nat).
      - exists (f i), (f j). done.
      - exists (f j), (f i). split_and!; try done. lia. }
    by apply ordered_pairs_lookup.
Qed.
End find_user_pairs_facts.

Lemma find_user_pairs_canonical_witness :
  Forall2 (λ u n, FindUserPairs.sample_int u = Some n) ["7"; "12"; "007"] [7; 12; 7]
  ∧ ∃ pairs,
      FindUserPairs.find_user_pairs FindUserPairs.sample_int ["7"; "12"; "007"]
      = Return pairs
      ∧ Forall (λ p : Z * Z, p.1 ≤ p.2 ∧ p.1 ∈ [7; 12; 7] ∧ p.2 ∈ [7; 12; 7]) pairs
      ∧ (NoDup [7; 12; 7] →
         Forall (λ p : Z * Z, p.1 < p.2) pairs ∧ StronglySorted lex_lt pairs)
      ∧ (∀ n, (∃ i j, i ≠ j ∧ [7; 12; 7] !! i = Some n ∧ [7; 12; 7] !! j = Some n) →
           (n, n) ∈ pairs).
Proof.
  assert (H : Forall2 (λ u n, FindUserPairs.sample_int u = Some n)
                ["7"; "12"; "007"] [7; 12; 7]) by (repeat constructor).
  split; [exact H|].
  exact (find_user_pairs_canonical FindUserPairs.sample_int _ _ H).
Defined.

(** ** The selected users *)

#[local] Instance key_le_transitive : Transitive FindUserPairs.key_le.
Proof. intros a b c. unfold FindUserPairs.key_le. lia. Qed.

#[local] Instance key_le_total : Total FindUserPairs.key_le.
Proof. intros a b. unfold FindUserPairs.key_le. lia. Qed.

Lemma sorted_lookup_order {A} (R : relation A) (l : list A) (i j : nat) (x y : A) :
  StronglySorted R l → (i < j)%nat → l !! i = Some x → l !! j = Some y → R x y.
Proof.
  intros Hs. revert i j. induction Hs as [|z l Hs IH Hall]; intros i j Hlt Hi Hj; [done|].
  destruct j as [|j]; [lia|]. simpl in Hj. destruct i as [|i]; simpl in Hi.
  - injection Hi as ->. apply (proj1 (Forall_forall _ _) Hall).
    apply list_elem_of_lookup. eauto.
  - apply (IH i j); [lia|done|done].
Qed.

Section find_users_facts.
Variable int : string → option Z.

Local Abbreviation find_users := (FindUserPairs.find_users_with_numeric_or_location int).

Lemma target_users_fold (classified_data : list FindUserPairs.classified)
    (acc : gset string) (u : string) :
  u ∈ fold_left
        (λ target_users item,
           if bool_decide (FindUserPairs.category item ∈ ["numeric value"; "location"])
           then target_users ∪ list_to_set (FindUserPairs.users item)
           else target_users)
        classified_data acc
  ↔ u ∈ acc ∨ FindUserPairs.selected classified_data u.
Proof.
  revert acc. induction classified_data as [|item data IH]; intros acc; simpl.
  - split; [auto|]. intros [H | (item & H & _)]; [done | inversion H].
  - rewrite IH. unfold FindUserPairs.selected. split.
    + intros [H | (item' & Hin & Hc & Hu)].
      * case_bool_decide as Hcat; [|by left].
        apply elem_of_union in H as [H|H]; [by left|]. right.
        exists item. split_and!; [left | done | by apply elem_of_list_to_set in H].
      * right. exists item'. split_and!; [by right | done | done].
    + intros [H | (item' & Hin & Hc & Hu)].
      * left. case_bool_decide; [|done]. apply elem_of_union. by left.
      * apply elem_of_cons in Hin as [->|Hin].
        -- left. rewrite bool_decide_eq_true_2 by done.
           apply elem_of_union. right. by apply elem_of_list_to_set.
        -- right. eauto.
Qed.

Lemma sorted_by_int_Return (xs users : list string) :
  FindUserPairs.sorted_by_int int xs = Return users →
  users ≡ₚ xs
  ∧ ∀ i j u v, (i < j)%nat → users !! i = Some u → users !! j = Some v →
      ∃ a b, int u = Some a ∧ int v = Some b ∧ a ≤ b.
Proof.
  unfold FindUserPairs.sorted_by_int.
  destruct (comprehension _ xs) as [keyed|e] eqn:Hc; simpl; [|done].
  intros [= <-]. apply comprehension_Return in Hc.
  assert (Hkeys : Forall (λ p : Z * string, int p.2 = Some p.1) keyed ∧ keyed.*2 = xs).
  { clear -Hc. induction Hc as [|u p xs keyed Hu _ [IH1 IH2]]; [by split|].
    unfold FindUserPairs.int_of in Hu. destruct (int u) as [n|] eqn:Hn; [|done].
    simpl in Hu. injection Hu as <-. split; [by constructor|]. simpl. f_equal. exact IH2. }
  destruct Hkeys as [Hkeys <-]. split.
  - by rewrite merge_sort_Permutation.
  - intros i j u v Hlt Hi Hj.
    apply list_lookup_fmap_Some in Hi as ([a u'] & -> & Hi).
    apply list_lookup_fmap_Some in Hj as ([b v'] & -> & Hj). simpl in *.
    assert (Hin : ∀ p k, merge_sort FindUserPairs.key_le keyed !! k = Some p →
                         int p.2 = Some p.1).
    { intros p k Hk. apply (proj1 (Forall_forall _ _) Hkeys).
      rewrite <- (merge_sort_Permutation FindUserPairs.key_le keyed).
      apply list_elem_of_lookup. eauto. }
    exists a, b. split_and!; [apply (Hin _ _ Hi) | apply (Hin _ _ Hj) |].
    pose proof (StronglySorted_merge_sort FindUserPairs.key_le keyed) as Hs.
    apply (sorted_lookup_order _ _ i j (a, u') (b, v') Hs Hlt Hi Hj).
Qed.

(** When find_users_with_numeric_or_location returns, its list holds each
    user of a question classified as numeric value or location exactly once,
    in ascending order of the integers the identifiers denote. It fails with
    ValueError when the identifier of such a user is not an integer. *)
Theorem find_users_selected (classified_data : list FindUserPairs.classified) :
  (∀ users,
     find_users classified_data = Return users →
     NoDup users
     ∧ (∀ u, u ∈ users ↔ FindUserPairs.selected classified_data u)
     ∧ ∀ i j u v, (i < j)%nat → users !! i = Some u → users !! j = Some v →
         ∃ a b, int u = Some a ∧ int v = Some b ∧ a ≤ b)
  ∧ ((∃ u, FindUserPairs.selected classified_data u ∧ int u = None) →
     find_users classified_data = Throw ValueError).
Proof.
  unfold FindUserPairs.find_users_with_numeric_or_location. split.
  - intros users H. apply sorted_by_int_Return in H as [Hperm Hsorted].
    split_and!; [| |done].
    + rewrite Hperm. apply NoDup_elements.
    + intros u. rewrite Hperm, elem_of_elements, target_users_fold.
      split; [intros [H|H]; [by apply not_elem_of_empty in H | done] | by right].
  - intros (u & Hsel & Hu). unfold FindUserPairs.sorted_by_int.
    rewrite (comprehension_fails _ _ u ValueError); try done.
    + intros u' e'. unfold FindUserPairs.int_of. destruct (int u'); simpl; congruence.
    + apply elem_of_elements, target_users_fold. by right.
    + unfold FindUserPairs.int_of. by rewrite Hu.
Qed.
End find_users_facts.

(** ** The number of pairs that summary.py announces *)

Lemma find_user_pairs_inv (int : string → option Z) (target_users : list string)
    (pairs : list (Z * Z)) :
  FindUserPairs.find_user_pairs int target_users = Return pairs →
  ∃ ids, Forall2 (λ u n, int u = Some n) target_users ids
         ∧ pairs = ordered_pairs (merge_sort Z.le ids).
Proof.
  intros H.
  destruct (comprehension (FindUserPairs.int_of int) target_users) as [ids|e] eqn:Hc.
  - apply comprehension_Return in Hc.
    assert (Hids : Forall2 (λ u n, int u = Some n) target_users ids).
    { eapply Forall2_impl; [exact Hc|]. intros u n. unfold FindUserPairs.int_of.
      destruct (int u); simpl; congruence. }
    exists ids. split; [done|].
    rewrite (find_user_pairs_Return int _ _ Hids) in H. congruence.
  - unfold FindUserPairs.find_user_pairs in H. by rewrite Hc in H.
Qed.

Lemma summarize_users_both (classified_data : list FindUserPairs.classified) :
  FindUserPairs.users_both (FindUserPairs.summarize classified_data)
  = fold_left
      (λ (target_users : gset string) item,
         if bool_decide (FindUserPairs.category item ∈ ["numeric value"; "location"])
         then target_users ∪ list_to_set (FindUserPairs.users item)
         else target_users)
      classified_data ∅.
Proof.
  unfold FindUserPairs.summarize.
  assert (Hgen : ∀ (N0 L0 : gset string),
    (let '(N, L) :=
       fold_left
         (λ '(users_numeric, users_location) item,
            if String.eqb (FindUserPairs.category item) "numeric value"
            then (users_numeric ∪ list_to_set (FindUserPairs.users item), users_location)
            else if String.eqb (FindUserPairs.category item) "location"
            then (users_numeric, users_location ∪ list_to_set (FindUserPairs.users item))
            else (users_numeric, users_location))
         classified_data (N0, L0) in N ∪ L)
    = fold_left
        (λ (target_users : gset string) item,
           if bool_decide (FindUserPairs.category item ∈ ["numeric value"; "location"])
           then target_users ∪ list_to_set (FindUserPairs.users item)
           else target_users)
        classified_data (N0 ∪ L0)).
  { induction classified_data as [|item data IH]; intros N0 L0; simpl; [done|].
    destruct (String.eqb_spec (FindUserPairs.category item) "numeric value") as [Hn|Hn].
    - rewrite IH. f_equal. rewrite bool_decide_eq_true_2 by (rewrite Hn; left).
      apply set_eq. intros u. rewrite !elem_of_union. tauto.
    - destruct (String.eqb_spec (FindUserPairs.category item) "location") as [Hl|Hl].
      + rewrite IH. f_equal.
        rewrite bool_decide_eq_true_2 by (rewrite Hl; right; left).
        apply set_eq. intros u. rewrite !elem_of_union. tauto.
      + rewrite IH. f_equal. rewrite bool_decide_eq_false_2; [done|].
        rewrite !elem_of_cons, elem_of_nil. tauto. }
  specialize (Hgen ∅ ∅). rewrite (left_id_L ∅ (∪)) in Hgen. rewrite <- Hgen.
  by destruct (fold_left _ classified_data (∅, ∅)).
Qed.

(** The number of pairs that summary.py computes from the number of users
    with a numeric value or location question is the number of pairs that
    find_user_pairs.py produces for the same classified questions. *)
Theorem summary_num_pairs (int : string → option Z)
    (classified_data : list FindUserPairs.classified)
    (users : list string) (pairs : list (Z * Z)) :
  FindUserPairs.find_users_with_numeric_or_location int classified_data = Return users →
  FindUserPairs.find_user_pairs int users = Return pairs →
  FindUserPairs.num_pairs (FindUserPairs.summarize classified_data)
  = Z.of_nat (length pairs)
  ∧ FindUserPairs.users_both (FindUserPairs.summarize classified_data)
    = list_to_set users.
Proof.
  intros Hu Hp. unfold FindUserPairs.find_users_with_numeric_or_location in Hu.
  apply sorted_by_int_Return in Hu as [Hperm _].
  rewrite <- summarize_users_both in Hperm.
  set (both := FindUserPairs.users_both (FindUserPairs.summarize classified_data)) in *.
  assert (Hlen : length users = size both).
  { by rewrite Hperm. }
  split.
  - apply find_user_pairs_inv in Hp as (ids & Hids & ->).
    pose proof (ordered_pairs_length (merge_sort Z.le ids)) as Hl.
    rewrite (Permutation_length (merge_sort_Permutation Z.le ids)) in Hl.
    rewrite <- (Forall2_length _ _ _ Hids), Hlen in Hl.
    assert (FindUserPairs.num_pairs (FindUserPairs.summarize classified_data)
            = Z.of_nat (size both) * (Z.of_nat (size both) - 1) / 2) as ->.
    { unfold both, FindUserPairs.summarize.
      by destruct (fold_left _ classified_data (∅, ∅)). }
    symmetry. apply Z.div_unique_exact; [done|]. nia.
  - apply set_eq. intros u. rewrite elem_of_list_to_set, Hperm. by rewrite elem_of_elements.
Qed.

Lemma summary_num_pairs_witness :
  let data :=
    [ {| FindUserPairs.category := "numeric value"; FindUserPairs.users := ["30"; "1"] |};
      {| FindUserPairs.category := "entity"; FindUserPairs.users := ["9"] |};
      {| FindUserPairs.category := "location"; FindUserPairs.users := ["1"; "2"] |} ] in
  FindUserPairs.find_users_with_numeric_or_location FindUserPairs.sample_int data
  = Return ["1"; "2"; "30"]
  ∧ FindUserPairs.find_user_pairs FindUserPairs.sample_int ["1"; "2"; "30"]
    = Return [(1, 2); (1, 30); (2, 30)]
  ∧ FindUserPairs.num_pairs (FindUserPairs.summarize data) = 3.
Proof.
  intros data.
  assert (H1 : FindUserPairs.find_users_with_numeric_or_location
                 FindUserPairs.sample_int data = Return ["1"; "2"; "30"]) by by vm_compute.
  assert (H2 : FindUserPairs.find_user_pairs FindUserPairs.sample_int ["1"; "2"; "30"]
               = Return [(1, 2); (1, 30); (2, 30)]) by by vm_compute.
  split; [exact H1|]. split; [exact H2|].
  exact (proj1 (summary_num_pairs FindUserPairs.sample_int data _ _ H1 H2)).
Defined.

(** ** Reading back the file of pairs *)

Lemma chars_app (s1 s2 : string) :
  list_ascii_of_string (s1 +:+ s2) = list_ascii_of_string s1 ++ list_ascii_of_string s2.
Proof. induction s1 as [|c s1 IH]; simpl; [done|]. by rewrite IH. Qed.

Lemma int_fold (ds : list ascii) (acc : Z) :
  fold_left (λ acc c, 10 * acc + (Z.of_nat (nat_of_ascii c) - 48)) ds acc
  = acc * 10 ^ Z.of_nat (length ds) + int ds.
Proof.
  unfold int. revert acc. induction ds as [|c ds IH]; intros acc.
  - simpl. lia.
  - cbn [fold_left length]. rewrite IH, (IH (10 * 0 + _)).
    rewrite Nat2Z.inj_succ, Z.pow_succ_r by lia. lia.
Qed.

Lemma int_cons (c : ascii) (ds : list ascii) :
  int (c :: ds) = (Z.of_nat (nat_of_ascii c) - 48) * 10 ^ Z.of_nat (length ds) + int ds.
Proof. unfold int at 1. cbn [fold_left]. rewrite int_fold. lia. Qed.

Lemma pretty_N_char_digit (x : N) :
  (x < 10)%N →
  is_digit (pretty_N_char x) = true
  ∧ Z.of_nat (nat_of_ascii (pretty_N_char x)) - 48 = Z.of_N x.
Proof.
  intros Hx.
  assert (x = 0 ∨ x = 1 ∨ x = 2 ∨ x = 3 ∨ x = 4 ∨ x = 5 ∨ x = 6 ∨ x = 7
          ∨ x = 8 ∨ x = 9)%N as Hcases by lia.
  repeat destruct Hcases as [->|Hcases]; try subst x; by vm_compute.
Qed.

Lemma pretty_N_go_digits (x : N) (s : string) :
  Forall (λ c, is_digit c = true) (list_ascii_of_string s) →
  Forall (λ c, is_digit c = true) (list_ascii_of_string (pretty_N_go x s))
  ∧ int (list_ascii_of_string (pretty_N_go x s))
    = Z.of_N x * 10 ^ Z.of_nat (length (list_ascii_of_string s))
      + int (list_ascii_of_string s)
  ∧ (length (list_ascii_of_string s) ≤ length (list_ascii_of_string (pretty_N_go x s)))%nat
  ∧ ((0 < x)%N →
     (length (list_ascii_of_string s) < length (list_ascii_of_string (pretty_N_go x s)))%nat).
Proof.
  revert s. induction (N.lt_wf_0 x) as [x _ IH]; intros s Hs.
  assert (x = 0 ∨ 0 < x)%N as [->|Hpos] by lia.
  - rewrite pretty_N_go_0. split_and!; [done|lia|lia|lia].
  - rewrite pretty_N_go_step by done.
    destruct (pretty_N_char_digit (x `mod` 10)) as [Hd Hv]; [by apply N.mod_lt|].
    destruct (IH (x `div` 10)%N (N.div_lt x 10 Hpos eq_refl)
                (String (pretty_N_char (x `mod` 10)) s)) as (H1 & H2 & H3 & _).
    { simpl. by constructor. }
    split_and!; [done| |simpl in H3; lia|simpl in H3; lia].
    rewrite H2. cbn [list_ascii_of_string]. rewrite int_cons, Hv.
    cbn [length]. rewrite Nat2Z.inj_succ, Z.pow_succ_r by lia.
    pose proof (N.div_mod x 10 ltac:(done)) as Hdm.
    rewrite N2Z.inj_div, N2Z.inj_mod in *.
    assert (Z.of_N x = 10 * (Z.of_N x `div` 10) + Z.of_N x `mod` 10) as Hx.
    { apply Z.div_mod. lia. }
    change (Z.of_N 10) with 10. lia.
Qed.

(** The numeral of a natural number is a non-empty run of digits that [int]
    reads back. *)
Lemma str_digits (n : Z) :
  0 ≤ n →
  digits (list_ascii_of_string (PairFile.str n))
  ∧ int (list_ascii_of_string (PairFile.str n)) = n.
Proof.
  intros Hn. unfold PairFile.str, pretty, pretty_Z.
  destruct n as [|p|p]; [|  |lia].
  { split; [split; [done | by repeat constructor] | reflexivity]. }
  unfold pretty, pretty_positive, pretty, pretty_N.
  rewrite decide_False by done.
  destruct (pretty_N_go_digits (N.pos p) "") as (H1 & H2 & _ & H4); [constructor|].
  split; [split; [|done]|].
  - intros Hnil. rewrite Hnil in H4. simpl in H4. specialize (H4 ltac:(done)). lia.
  - rewrite H2. change (int (list_ascii_of_string "")) with 0.
    change (Z.of_nat (length (list_ascii_of_string ""))) with 0.
    change (Z.of_N (N.pos p)) with (Z.pos p). rewrite Z.pow_0_r. lia.
Qed.

Lemma skip_optional_hit (ch : ascii) (s : list ascii) :
  skip_optional ch (ch :: s) = s.
Proof. simpl. by rewrite Ascii.eqb_refl. Qed.

Lemma skip_spaces_space (c : ascii) (s : list ascii) :
  is_space c = true → skip_spaces (c :: s) = skip_spaces s.
Proof. simpl. by intros ->. Qed.

Lemma match_at_line (da db rest : list ascii) :
  digits da → digits db →
  match_at ("(" :: da ++ "," :: " " :: db ++ ")" :: rest)%char
  = Some (int da, int db, rest).
Proof.
  intros Hda Hdb. unfold match_at. cbv zeta.
  rewrite skip_optional_hit.
  rewrite (skip_spaces_head (da ++ _)) by (by apply digits_head).
  rewrite span_digits_app by apply Hda.
  rewrite (span_digits_head ("," :: _)%char) by done. cbn [fst snd]. rewrite app_nil_r.
  destruct da as [|c1 da]; [by destruct Hda|].
  rewrite (skip_spaces_head ("," :: _)%char) by done.
  rewrite Ascii.eqb_refl.
  rewrite (skip_spaces_space " "%char) by done.
  rewrite (skip_spaces_head (db ++ _)) by (by apply digits_head).
  rewrite span_digits_app by apply Hdb.
  rewrite (span_digits_head (")" :: _)%char) by done. cbn [fst snd]. rewrite app_nil_r.
  destruct db as [|c2 db]; [by destruct Hdb|].
  rewrite (skip_spaces_head (")" :: _)%char) by done.
  by rewrite skip_optional_hit.
Qed.

Lemma match_at_line_end (rest : list ascii) :
  head_is_not (λ c, negb (Ascii.eqb c "(")) rest →
  match_at ("010"%char :: rest) = None.
Proof.
  intros Hrest. unfold match_at. cbv zeta.
  rewrite (skip_optional_head "(" ("010"%char :: rest)) by done.
  rewrite (skip_spaces_space "010"%char) by done.
  destruct rest as [|c rest]; [done|]. simpl in Hrest.
  apply negb_false_iff, Ascii.eqb_eq in Hrest as ->.
  rewrite (skip_spaces_head ("(" :: _)%char) by done.
  by rewrite (span_digits_head ("(" :: _)%char) by done.
Qed.

(** ** Reflexive pairs *)

Lemma finditer_nil (fuel : nat) : finditer fuel [] = [].
Proof. by destruct fuel. Qed.

Lemma parse_pairs_single (text : string) (a b : Z) :
  pair_occurrence (list_ascii_of_string text) a b →
  parse_pairs text = {[ (Z.min a b, Z.max a b) ]}.
Proof.
  intros Hocc.
  destruct (match_at_complete _ a b [] Hocc) as (b' & rest & Hm & Hlen & Hb).
  rewrite app_nil_r in Hm. destruct rest; [|simpl in Hlen; lia].
  rewrite (Hb eq_refl) in Hm.
  unfold parse_pairs. cbn [finditer]. rewrite Hm, finditer_nil. simpl.
  apply leibniz_equiv. by rewrite (left_id ∅ (∪)).
Qed.

(** C10. Every pair (a, b) that parse_pairs returns has a ≤ b, and a = b
    occurs: a text that is one occurrence of the pattern with the same
    integer n on both sides gives exactly the pair (n, n), whatever n and
    whatever the numerals that denote it; so does "(d, d)" for every numeral
    d, and a text that begins with "(d, d)" has (n, n) among its pairs,
    whatever follows. A pair (n, n) is in no ground truth, so it never is
    a true positive: it only adds to the size of the predicted set. *)
Theorem parse_pairs_reflexive_pair :
  (∀ text a b, (a, b) ∈ parse_pairs text → a ≤ b)
  ∧ (∀ text n,
       pair_occurrence (list_ascii_of_string text) n n →
       within_int_limit (list_ascii_of_string text) →
       parse_pairs text = {[ (n, n) ]})
  ∧ (∀ d, digits d → (length d ≤ 4300)%nat →
       parse_pairs (string_of_list_ascii ("(" :: d ++ "," :: " " :: d ++ [")"])%char)
       = {[ (int d, int d) ]})
  ∧ (∀ d rest,
       digits d →
       ascii_text ("(" :: d ++ "," :: " " :: d ++ ")" :: rest)%char →
       within_int_limit ("(" :: d ++ "," :: " " :: d ++ ")" :: rest)%char →
       (int d, int d)
       ∈ parse_pairs
           (string_of_list_ascii ("(" :: d ++ "," :: " " :: d ++ ")" :: rest)%char))
  ∧ parse_pairs "(5, 5)" = {[ (5, 5) ]}
  ∧ parse_pairs "7 ,07" = {[ (7, 7) ]}
  ∧ ∀ (strptime : string → string → option datetime)
      (user_labels : gmap Z (list GenerateOolongPairs.entry)) (t : task)
      (pairs : list (Z * Z)) (n : Z),
      compute_ground_truth strptime user_labels t = Ok pairs →
      ((n, n) ∉ pairs)
      ∧ ∀ predicted : gset (Z * Z),
          predicted ∩ list_to_set pairs
          = (predicted ∖ {[ (n, n) ]}) ∩ list_to_set pairs.
Proof.
  split_and!; [| | | | by vm_compute | by vm_compute |].
  - intros text a b Hin. apply parse_pairs_elem in Hin as (a' & b' & _ & [= -> ->]).
    lia.
  - intros text n Hocc _. rewrite (parse_pairs_single text n n Hocc).
    by rewrite Z.min_id, Z.max_id.
  - intros d Hd _.
    rewrite (parse_pairs_single _ (int d) (int d)).
    + by rewrite Z.min_id, Z.max_id.
    + rewrite list_ascii_of_string_of_list_ascii.
      apply (pair_occurrence_intro ["("%char] [] d [] [" "%char] d [] [")"%char]);
        try done; try (by right); try constructor; done.
  - intros d rest Hd _ _. apply parse_pairs_elem. exists (int d), (int d).
    rewrite list_ascii_of_string_of_list_ascii. cbn [finditer].
    rewrite match_at_line by done. split; [left|].
    by rewrite Z.min_id, Z.max_id.
  - intros strptime user_labels t pairs n H.
    apply returned_pairs_canonical in H as (Hall & _).
    assert (Hn : (n, n) ∉ pairs).
    { intros Hin. rewrite Forall_forall in Hall. apply Hall in Hin. simpl in Hin. lia. }
    split; [done|]. intros predicted.
    apply set_eq. intros p.
    rewrite !elem_of_intersection, elem_of_difference, elem_of_singleton,
      elem_of_list_to_set.
    split; [|tauto]. intros [Hp Ht]. split_and!; try done. by intros ->.
Qed.

Lemma written_chars (pairs : list (Z * Z)) :
  list_ascii_of_string (PairFile.written pairs) = concat (PairFile.line_chars <$> pairs).
Proof.
  unfold PairFile.written.
  assert (Hgen : ∀ acc,
    list_ascii_of_string
      (fold_left (λ contents pair, contents +:+ PairFile.pair_line pair) pairs acc)
    = list_ascii_of_string acc ++ concat (PairFile.line_chars <$> pairs)).
  { induction pairs as [|p ps IH]; intros acc; simpl; [by rewrite app_nil_r|].
    rewrite IH, chars_app, <- app_assoc. f_equal.
    unfold PairFile.pair_line, PairFile.line_chars. rewrite !chars_app. simpl.
    by rewrite <- !app_assoc. }
  by rewrite Hgen.
Qed.

Lemma finditer_lines (pairs : list (Z * Z)) (fuel : nat) :
  Forall (λ p : Z * Z, 0 ≤ p.1 ∧ 0 ≤ p.2) pairs →
  (length (concat (PairFile.line_chars <$> pairs)) < fuel)%nat →
  finditer fuel (concat (PairFile.line_chars <$> pairs)) = pairs.
Proof.
  intros Hall. revert fuel. induction Hall as [|[a b] ps [Ha Hb] _ IH]; intros fuel Hlen.
  - destruct fuel; [lia|]. done.
  - simpl in Ha, Hb.
    destruct (str_digits a Ha) as [Hda Hia]. destruct (str_digits b Hb) as [Hdb Hib].
    assert (E : concat (PairFile.line_chars <$> (a, b) :: ps)
                = ("(" :: list_ascii_of_string (PairFile.str a)
                       ++ "," :: " " :: list_ascii_of_string (PairFile.str b)
                       ++ ")" :: "010" :: concat (PairFile.line_chars <$> ps))%char).
    { rewrite fmap_cons. cbn [concat]. unfold PairFile.line_chars at 1. cbn [fst snd].
      rewrite <- app_comm_cons. f_equal. rewrite <- app_assoc. f_equal.
      rewrite <- !app_comm_cons. f_equal. f_equal. by rewrite <- app_assoc. }
    rewrite E in Hlen |- *. clear E.
    cbn [length] in Hlen. rewrite length_app in Hlen. cbn [length] in Hlen.
    rewrite length_app in Hlen. cbn [length] in Hlen.
    destruct fuel as [|fuel]; [lia|]. cbn [finditer].
    rewrite match_at_line by done. rewrite Hia, Hib. f_equal.
    destruct fuel as [|fuel]; [lia|]. cbn [finditer].
    rewrite match_at_line_end.
    + apply IH. lia.
    + destruct ps as [|q ps]; simpl; done.
Qed.

(** The file of pairs that find_user_pairs.py writes is read back by
    parse_pairs as the set of its pairs, each with its smaller identifier
    first, provided no identifier is negative (the pattern does not read a
    minus sign, so (-5, 3) comes back as (3, 5)). For the pairs that
    find_user_pairs returns, which have the smaller identifier first, it is
    the set of the pairs themselves. *)
Theorem written_pairs_read_back (pairs : list (Z * Z)) :
  Forall (λ p : Z * Z, 0 ≤ p.1 ∧ 0 ≤ p.2) pairs →
  parse_pairs (PairFile.written pairs)
  = list_to_set ((λ p : Z * Z, (Z.min p.1 p.2, Z.max p.1 p.2)) <$> pairs)
  ∧ (Forall (λ p : Z * Z, p.1 ≤ p.2) pairs →
     parse_pairs (PairFile.written pairs) = list_to_set pairs)
  ∧ parse_pairs (PairFile.written [(-5, 3)]) = {[ (3, 5) ]}.
Proof.
  intros Hall.
  assert (Hset : parse_pairs (PairFile.written pairs)
    = list_to_set ((λ p : Z * Z, (Z.min p.1 p.2, Z.max p.1 p.2)) <$> pairs)).
  { apply set_eq. intros p. rewrite parse_pairs_elem, written_chars.
    rewrite finditer_lines by (done || lia).
    rewrite elem_of_list_to_set, list_elem_of_fmap. split.
    - intros (a & b & Hin & ->). by exists (a, b).
    - intros ([a b] & -> & Hin). by exists a, b. }
  split_and!; [done| |by vm_compute].
  intros Hle. rewrite Hset. f_equal.
  clear Hset Hall. induction Hle as [|[a b] ps Hab _ IH]; [done|].
  rewrite fmap_cons, IH. simpl in *. f_equal. f_equal; lia.
Qed.

Lemma written_pairs_read_back_witness :
  Forall (λ p : Z * Z, 0 ≤ p.1 ∧ 0 ≤ p.2) [(1, 2); (10, 3)]
  ∧ parse_pairs (PairFile.written [(1, 2); (10, 3)])
    = list_to_set ((λ p : Z * Z, (Z.min p.1 p.2, Z.max p.1 p.2)) <$> [(1, 2); (10, 3)]).
Proof.
  assert (H : Forall (λ p : Z * Z, 0 ≤ p.1 ∧ 0 ≤ p.2) [(1, 2); (10, 3)])
    by (repeat constructor; simpl; lia).
  split; [exact H|]. exact (proj1 (written_pairs_read_back _ H)).
Defined.

(** ** Batches *)

Import SplitForClassification.

Lemma fold_left_append {A B} (f : A → B) (xs : list A) (acc : list B) :
  fold_left (λ out x, out ++ [f x]) xs acc = acc ++ (f <$> xs).
Proof.
  revert acc. induction xs as [|x xs IH]; intros acc; simpl.
  - by rewrite app_nil_r.
  - rewrite IH. by rewrite <- app_assoc.
Qed.

Lemma chunks_concat {A} (size : nat) (count : nat) (l : list A) :
  (length l ≤ count * size)%nat →
  concat ((λ j, take size (drop (j * size) l)) <$> seq 0 count) = l.
Proof.
  revert l. induction count as [|count IH]; intros l Hlen.
  - simpl in *. destruct l; [done | simpl in Hlen; lia].
  - rewrite <- cons_seq, fmap_cons. cbn [concat]. simpl drop.
    rewrite <- fmap_S_seq, <- list_fmap_compose.
    transitivity (take size l ++ drop size l); [|apply take_drop]. f_equal.
    rewrite <- (IH (drop size l)) by (rewrite length_drop; lia).
    f_equal. apply list_fmap_ext. intros _ j _. simpl.
    by rewrite drop_drop.
Qed.

Lemma slice_chunk {A} (l : list A) (size j : nat) :
  (j * size ≤ length l)%nat →
  slice l (Z.of_nat (j * size)) (Z.of_nat (j * size) + Z.of_nat size)
  = take size (drop (j * size) l).
Proof.
  intros Hj. unfold slice, clip.
  rewrite !(proj2 (Z.ltb_ge _ _)) by lia.
  rewrite (Z.min_l (Z.of_nat (j * size))) by lia. rewrite Nat2Z.id.
  destruct (decide (Z.of_nat (j * size) + Z.of_nat size ≤ Z.of_nat (length l))).
  - rewrite Z.min_l by lia. f_equal. lia.
  - rewrite Z.min_r by lia.
    rewrite !take_ge; try done; rewrite length_drop; lia.
Qed.

Lemma split_into_batches_chunks {A} (l : list A) (num_batches : Z) :
  1 ≤ num_batches →
  let n := Z.of_nat (length l) in
  let batch_size := n / num_batches + 1 in
  let count := if 0 <? n then (n - 1) / batch_size + 1 else 0 in
  split_into_batches l num_batches
  = Return ((λ j, take (Z.to_nat batch_size) (drop (j * Z.to_nat batch_size) l))
              <$> seq 0 (Z.to_nat count))
  ∧ 1 ≤ batch_size ∧ 0 ≤ count ≤ num_batches
  ∧ ((count - 1) * batch_size < n ≤ count * batch_size
     ∨ (n = 0 ∧ count = 0)).
Proof.
  intros Hnb n batch_size count.
  assert (Hq : 0 ≤ n / num_batches) by (apply Z.div_pos; lia).
  assert (Hbs : 1 ≤ batch_size) by (unfold batch_size; lia).
  assert (Hmul : n < num_batches * batch_size).
  { unfold batch_size. pose proof (Z.mul_succ_div_gt n num_batches ltac:(lia)). lia. }
  assert (Hcount : 0 ≤ count ≤ num_batches
                   ∧ ((count - 1) * batch_size < n ≤ count * batch_size
                      ∨ (n = 0 ∧ count = 0))).
  { unfold count. destruct (Z.ltb_spec 0 n) as [Hn|Hn]; [|lia].
    pose proof (Z.div_pos (n - 1) batch_size ltac:(lia) ltac:(lia)).
    pose proof (Z.mul_div_le (n - 1) batch_size ltac:(lia)).
    pose proof (Z.mul_succ_div_gt (n - 1) batch_size ltac:(lia)).
    assert ((n - 1) / batch_size < num_batches)
      by (apply Z.div_lt_upper_bound; lia).
    split; [lia|]. left. nia. }
  split; [|tauto].
  unfold split_into_batches, floordiv, range. fold n.
  rewrite (proj2 (Z.eqb_neq num_batches 0)) by lia. simpl. fold batch_size.
  rewrite (proj2 (Z.eqb_neq batch_size 0)) by lia.
  rewrite (proj2 (Z.ltb_lt 0 batch_size)) by lia. simpl.
  rewrite Z.sub_0_r. fold count. f_equal.
  rewrite fold_left_append, app_nil_l, <- list_fmap_compose.
  apply list_fmap_ext. intros i j Hj. apply lookup_seq in Hj as [-> Hlt]. simpl.
  assert (E1 : 0 + Z.of_nat i * batch_size = Z.of_nat (i * Z.to_nat batch_size)) by lia.
  rewrite E1.
  assert (E2 : Z.of_nat (i * Z.to_nat batch_size) + batch_size
               = Z.of_nat (i * Z.to_nat batch_size) + Z.of_nat (Z.to_nat batch_size))
    by lia.
  rewrite E2. apply slice_chunk. destruct Hcount as [_ [Hc|[_ Hc]]]; [nia|lia].
Qed.

(** For at least one requested batch, split_into_batches returns batches
    whose concatenation is the list of questions: no question is lost,
    duplicated or moved. Every batch holds between one and
    len // num_batches + 1 questions, and there are at most num_batches of
    them; with fewer questions than requested batches there is one batch per
    question, hence fewer batches than requested. *)
Theorem split_into_batches_partition {A} (questions_list : list A) (num_batches : Z) :
  1 ≤ num_batches →
  ∃ batches,
    split_into_batches questions_list num_batches = Return batches
    ∧ concat batches = questions_list
    ∧ Forall (λ batch : list A,
                1 ≤ Z.of_nat (length batch)
                  ≤ Z.of_nat (length questions_list) / num_batches + 1) batches
    ∧ Z.of_nat (length batches) ≤ num_batches
    ∧ (Z.of_nat (length questions_list) < num_batches →
       length batches = length questions_list).
Proof.
  intros Hnb.
  destruct (split_into_batches_chunks questions_list num_batches Hnb)
    as (Hsplit & Hbs & Hcount & Hcover).
  set (n := Z.of_nat (length questions_list)) in *.
  set (batch_size := n / num_batches + 1) in *.
  set (count := if 0 <? n then (n - 1) / batch_size + 1 else 0) in *.
  eexists. split; [exact Hsplit|]. split_and!.
  - apply chunks_concat. destruct Hcover as [Hc|[Hc _]]; [nia|lia].
  - apply Forall_fmap, Forall_forall. intros j Hj. simpl.
    apply elem_of_seq in Hj. rewrite length_take, length_drop.
    destruct Hcover as [Hc|[_ Hc]]; [|lia].
    assert (Z.of_nat (j * Z.to_nat batch_size) < n) by nia. lia.
  - rewrite length_fmap, length_seq. lia.
  - intros Hfew. rewrite length_fmap, length_seq.
    assert (batch_size = 1) as Hone.
    { unfold batch_size. rewrite Z.div_small by lia. done. }
    unfold count. rewrite Hone, Z.div_1_r. destruct (Z.ltb_spec 0 n); lia.
Qed.

Lemma split_into_batches_partition_witness :
  ∃ batches,
    split_into_batches ["a"; "b"; "c"; "d"] 3 = Return batches
    ∧ batches = [["a"; "b"]; ["c"; "d"]]
    ∧ concat batches = ["a"; "b"; "c"; "d"].
Proof.
  destruct (split_into_batches_partition ["a"; "b"; "c"; "d"] 3 ltac:(lia))
    as (batches & H & Hc & _).
  exists batches. split; [exact H|]. split; [|exact Hc].
  vm_compute in H. by injection H as <-.
Defined.

(** With zero requested batches split_into_batches raises
    ZeroDivisionError; with a negative number it never returns a batch: it
    raises ValueError (a range of step zero) when there are questions, at
    most as many as the absolute value of the number, and returns the empty
    list otherwise, dropping every question. *)
Theorem split_into_batches_bad_count {A} (questions_list : list A) (num_batches : Z) :
  num_batches ≤ 0 →
  let n := Z.of_nat (length questions_list) in
  split_into_batches questions_list num_batches
  = if num_batches =? 0 then Throw ZeroDivisionError
    else if (0 <? n) && (n <=? - num_batches) then Throw ValueError
    else Return [].
Proof.
  intros Hnb n. subst n. unfold split_into_batches, floordiv, range.
  assert (0 ≤ Z.of_nat (length questions_list)) as Hpos by lia.
  generalize dependent (Z.of_nat (length questions_list)). intros n Hpos.
  destruct (Z.eqb_spec num_batches 0) as [->|Hne]; [done|]. simpl.
  pose proof (Z.div_mod n num_batches Hne) as Hdm.
  pose proof (Z.mod_neg_bound n num_batches ltac:(lia)) as Hmod.
  set (q := n / num_batches) in *.
  destruct (Z.ltb_spec 0 n) as [Hn|Hn]; simpl.
  - destruct (Z.leb_spec n (- num_batches)) as [Hle|Hgt].
    + assert (q = -1) as -> by nia. done.
    + assert (q ≤ -2) by nia.
      rewrite (proj2 (Z.eqb_neq (q + 1) 0)) by lia.
      rewrite (proj2 (Z.ltb_ge 0 (q + 1))) by lia.
      rewrite (proj2 (Z.ltb_ge n 0)) by lia. done.
  - assert (q = 0) as -> by nia. reflexivity.
Qed.

Lemma split_into_batches_bad_count_witness :
  split_into_batches ["a"; "b"] (-3) = Throw ValueError
  ∧ split_into_batches ["a"; "b"; "c"; "d"] (-3) = Return []
  ∧ split_into_batches ["a"; "b"] 0 = Throw ZeroDivisionError.
Proof.
  split_and!.
  - exact (split_into_batches_bad_count ["a"; "b"] (-3) ltac:(lia)).
  - exact (split_into_batches_bad_count ["a"; "b"; "c"; "d"] (-3) ltac:(lia)).
  - exact (split_into_batches_bad_count ["a"; "b"] 0 ltac:(lia)).
Defined.

(** ** Selection of a task by its number *)

Import TaskCatalog.

Lemma checked_range (p : Z → bool) (lo : Z) (n : nat) :
  forallb (λ k, p (lo + Z.of_nat k)) (seq 0 n) = true →
  ∀ z, lo ≤ z < lo + Z.of_nat n → p z = true.
Proof.
  intros Hall z Hz. rewrite forallb_forall in Hall.
  specialize (Hall (Z.to_nat (z - lo))).
  replace (lo + Z.of_nat (Z.to_nat (z - lo))) with z in Hall by lia.
  apply Hall. apply in_seq. lia.
Qed.

Lemma index_out_of_range {A} (l : list A) (i : Z) :
  i < - Z.of_nat (length l) ∨ Z.of_nat (length l) ≤ i →
  index l i = Throw IndexError.
Proof.
  intros Hi. unfold index, item.
  destruct (Z.ltb_spec i 0) as [Hneg|Hpos].
  - destruct (Z.ltb_spec (i + Z.of_nat (length l)) 0) as [|Hge]; [done|].
    rewrite lookup_ge_None_2; [done|lia].
  - destruct (Z.ltb_spec i 0); [lia|]. rewrite lookup_ge_None_2; [done|lia].
Qed.

Lemma index_lookup {A} (l : list A) (i : Z) (x : A) :
  0 ≤ i → index l i = Return x → l !! Z.to_nat i = Some x.
Proof.
  intros Hi. unfold index, item.
  destruct (Z.ltb_spec i 0) as [|_]; [lia|].
  destruct (Z.ltb_spec i 0) as [|_]; [lia|].
  destruct (l !! Z.to_nat i); [|done]. by intros [= ->].
Qed.

Lemma catalogue_well_formed :
  Forall (λ t, handled (criteria t) = true
               ∧ Forall known_category (task_categories (criteria t))
               ∧ bound_parses Sample.strptime (criteria t))
         OOLONG_PAIRS_TASKS.
Proof.
  unfold OOLONG_PAIRS_TASKS.
  repeat apply Forall_cons_2; try apply Forall_nil_2;
    (split_and!;
     [ reflexivity
     | apply (bool_decide_unpack _); vm_compute; exact I
     | first [ exact I
             | eexists _, _; split; [reflexivity|]; eexists; vm_compute; reflexivity ] ]).
Qed.

(** The catalogue of generate_oolong_pairs.py is in the order of its ids, so
    that [--task_id k] for k from 1 to 20 selects the task whose id is k;
    each of these tasks selects a branch of the ground truth, names only
    categories of the enumeration and, when it has a date constraint, carries
    a bound in the ISO form. A task_id from -19 to 0 is not rejected: it
    counts from the end of the catalogue (0 selects task 20). Any other
    task_id raises IndexError. *)
Theorem select_task_by_id (task_id : Z) :
  (1 ≤ task_id ≤ 20 →
     ∃ t, select_task task_id = Return t
          ∧ id t = task_id
          ∧ handled (criteria t) = true
          ∧ Forall known_category (task_categories (criteria t))
          ∧ bound_parses Sample.strptime (criteria t))
  ∧ (-19 ≤ task_id ≤ 0 →
     ∃ t, select_task task_id = Return t ∧ id t = task_id + 20)
  ∧ (task_id < -19 ∨ 20 < task_id → select_task task_id = Throw IndexError).
Proof.
  split_and!.
  - intros Hid.
    pose proof (checked_range
      (λ z, match select_task z with Return t => id t =? z | Throw _ => false end)
      1 20 ltac:(vm_compute; reflexivity) task_id ltac:(lia)) as Hcheck.
    simpl in Hcheck.
    destruct (select_task task_id) as [t|] eqn:Hsel; [|done].
    exists t. split; [done|]. split; [lia|].
    apply index_lookup in Hsel; [|lia].
    exact (Forall_lookup_1 _ _ _ _ catalogue_well_formed Hsel).
  - intros Hid.
    pose proof (checked_range
      (λ z, match select_task z with Return t => id t =? z + 20 | Throw _ => false end)
      (-19) 20 ltac:(vm_compute; reflexivity) task_id ltac:(lia)) as Hcheck.
    simpl in Hcheck.
    destruct (select_task task_id) as [t|]; [|done].
    exists t. split; [done|lia].
  - intros Hid. apply index_out_of_range.
    change (Z.of_nat (length OOLONG_PAIRS_TASKS)) with 20. lia.
Qed.

(** generate_task returns the task whose id is task_num for task_num from 1
    to 5 and falls back to task 1 above 5. A task_num from -4 to 0 is not
    rejected either: it counts from the end of the list (0 gives task 5);
    below -4 the indexing raises IndexError. *)
Theorem generate_task_by_number (task_num : Z) :
  (1 ≤ task_num ≤ 5 → ∃ t, generate_task task_num = Return t ∧ id t = task_num)
  ∧ (5 < task_num → ∃ t, generate_task task_num = Return t ∧ id t = 1)
  ∧ (-4 ≤ task_num ≤ 0 →
     ∃ t, generate_task task_num = Return t ∧ id t = task_num + 5)
  ∧ (task_num < -4 → generate_task task_num = Throw IndexError).
Proof.
  split_and!.
  - intros Hn.
    pose proof (checked_range
      (λ z, match generate_task z with Return t => id t =? z | Throw _ => false end)
      1 5 ltac:(vm_compute; reflexivity) task_num ltac:(lia)) as Hcheck.
    simpl in Hcheck.
    destruct (generate_task task_num) as [t|]; [|done].
    exists t. split; [done|lia].
  - intros Hn. unfold generate_task.
    match goal with
    | |- context [?a <=? ?b] => destruct (Z.leb_spec a b) as [Hle|_]
    end; [simpl in Hle; lia|].
    by eexists.
  - intros Hn.
    pose proof (checked_range
      (λ z, match generate_task z with Return t => id t =? z + 5 | Throw _ => false end)
      (-4) 5 ltac:(vm_compute; reflexivity) task_num ltac:(lia)) as Hcheck.
    simpl in Hcheck.
    destruct (generate_task task_num) as [t|]; [|done].
    exists t. split; [done|lia].
  - intros Hn. unfold generate_task.
    match goal with
    | |- context [?a <=? ?b] => destruct (Z.leb_spec a b) as [_|Hgt]
    end; [|simpl in Hgt; lia].
    apply index_out_of_range. simpl. lia.
Qed.

(** ** The input file and its reader *)

Import ProcessQuestions.

Local Abbreviation chars := list_ascii_of_string.
Local Abbreviation text := string_of_list_ascii.

(** *** The first way in which a pattern matches *)

Lemma head_bind_cons {A B} (x : A) (l : list A) (f : A → list B) (y : B) :
  head (f x) = Some y → head ((x :: l) ≫= f) = Some y.
Proof. simpl. destruct (f x); simpl; [done|]. by intros [= ->]. Qed.

Lemma head_bind_skip {A B} (x : A) (l : list A) (f : A → list B) :
  f x = [] → head ((x :: l) ≫= f) = head (l ≫= f).
Proof. simpl. by intros ->. Qed.

Lemma head_bind_app {A B} (l1 l2 : list A) (f : A → list B) (y : B) :
  head (l1 ≫= f) = Some y → head ((l1 ++ l2) ≫= f) = Some y.
Proof. rewrite bind_app. destruct (l1 ≫= f); simpl; [done|]. by intros [= ->]. Qed.

Lemma bind_matched {B} (c : ascii) (l : list (list ascii * list ascii))
    (F : list ascii * list ascii → list B) (K : list ascii → list B) :
  (∀ m s, F (m, s) = K s) →
  (prod_map (cons c) Datatypes.id <$> l) ≫= F = l ≫= F.
Proof.
  intros HF. induction l as [|[m s] l IH]; simpl; [done|].
  rewrite !HF. f_equal. apply IH.
Qed.

Lemma literal_app (w r : list ascii) : literal w (w ++ r) = [(w, r)].
Proof.
  induction w as [|c w IH]; simpl; [by destruct r|].
  by rewrite Ascii.eqb_refl, IH.
Qed.

Lemma star_first (class : ascii → bool) (w r : list ascii) :
  Forall (λ c, class c = true) w → head_is_not class r →
  ∃ others, star class (w ++ r) = (w, r) :: others.
Proof.
  intros Hw Hr. induction Hw as [|c w Hc _ [others IH]]; simpl.
  - destruct r as [|c r]; simpl; [by eexists|]. simpl in Hr. rewrite Hr. by eexists.
  - rewrite Hc, IH. simpl. by eexists.
Qed.

Lemma plus_first (class : ascii → bool) (w r : list ascii) :
  w ≠ [] → Forall (λ c, class c = true) w → head_is_not class r →
  ∃ others, plus class (w ++ r) = (w, r) :: others.
Proof.
  intros Hne Hw Hr. destruct w as [|c w]; [done|]. inversion Hw; subst. simpl.
  destruct (star_first class w r) as [others ->]; [done..|].
  rewrite H1. simpl. by eexists.
Qed.

Lemma head_literal {B} (w r : list ascii) (F : list ascii * list ascii → list B) (v : B) :
  head (F (w, r)) = Some v → head (literal w (w ++ r) ≫= F) = Some v.
Proof. rewrite literal_app. apply head_bind_cons. Qed.

Lemma head_star {B} (class : ascii → bool) (w r : list ascii)
    (F : list ascii * list ascii → list B) (v : B) :
  Forall (λ c, class c = true) w → head_is_not class r →
  head (F (w, r)) = Some v → head (star class (w ++ r) ≫= F) = Some v.
Proof.
  intros Hw Hr. destruct (star_first class w r Hw Hr) as [others ->].
  apply head_bind_cons.
Qed.

Lemma head_plus {B} (class : ascii → bool) (w r : list ascii)
    (F : list ascii * list ascii → list B) (v : B) :
  w ≠ [] → Forall (λ c, class c = true) w → head_is_not class r →
  head (F (w, r)) = Some v → head (plus class (w ++ r) ≫= F) = Some v.
Proof.
  intros Hne Hw Hr. destruct (plus_first class w r Hne Hw Hr) as [others ->].
  apply head_bind_cons.
Qed.

(** [\s*[^|]+] before a pipe: the whitespace gives back a character when it
    has left none for the class that follows. *)
Lemma head_date_field {B} (w r : list ascii)
    (F G : list ascii * list ascii → list B) (K : list ascii → list B) (v : B) :
  (∀ m s, F (m, s) = plus not_pipe s ≫= G) →
  (∀ m s, G (m, s) = K s) →
  w ≠ [] → Forall (λ c, not_pipe c = true) w →
  head (K ("|"%char :: r)) = Some v →
  head (star is_space (w ++ "|"%char :: r) ≫= F) = Some v.
Proof.
  intros HF HG Hne Hw Hv.
  assert (Hpipe : head_is_not not_pipe ("|"%char :: r)) by done.
  assert (Hplus : ∀ m w', w' ≠ [] → Forall (λ c, not_pipe c = true) w' →
            head (F (m, w' ++ "|"%char :: r)) = Some v).
  { intros m w' Hne' Hw'. rewrite HF.
    apply head_plus; [done..|]. by rewrite HG. }
  induction w as [|c w IH]; [done|]. inversion Hw as [|? ? Hc Hw']; subst.
  simpl. destruct (is_space c) eqn:Hsp.
  - destruct w as [|c' w].
    + simpl. rewrite HF. simpl. rewrite app_nil_r.
      apply (Hplus [] [c]); [done|by constructor].
    + apply head_bind_app.
      rewrite (bind_matched c _ F (λ s, plus not_pipe s ≫= G)) by done.
      by apply IH.
  - apply head_bind_cons. by apply (Hplus [] (c :: w)).
Qed.

(** The pattern on a line of the form the generator writes. *)
Lemma re_match_line (w ds ws q : list ascii) :
  w ≠ [] → Forall (λ c, not_pipe c = true) w →
  digits ds → spaces ws →
  q ≠ [] → Forall (λ c, dot c = true) q → head_is_not is_space q →
  re_match (chars "Date:" ++ w ++ "|" :: "|" :: " " :: chars "User:"
              ++ " " :: ds ++ " " :: "|" :: "|" :: " " :: chars "Instance:"
              ++ ws ++ q)%char
  = Some (ds, q).
Proof.
  intros Hw Hpipe [Hds Hdigits] Hws Hq Hdot Hhead. unfold re_match, pattern.
  apply head_literal. cbv beta iota.
  eapply head_date_field; [intros; reflexivity|intros; reflexivity|done|done|].
  cbv beta.
  apply (head_literal (chars "||")). cbv beta iota.
  apply (head_star is_space [" "%char]); [by repeat constructor|done|]. cbv beta iota.
  apply (head_literal (chars "User:")). cbv beta iota.
  apply (head_star is_space [" "%char]).
  { by repeat constructor. }
  { destruct ds as [|d ds]; [done|]. inversion Hdigits; subst. simpl.
    by apply digit_not_space. }
  cbv beta iota.
  apply (head_plus is_digit ds); [done|done|done|]. cbv beta iota.
  apply (head_star is_space [" "%char]); [by repeat constructor|done|]. cbv beta iota.
  apply (head_literal (chars "||")). cbv beta iota.
  apply (head_star is_space [" "%char]); [by repeat constructor|done|]. cbv beta iota.
  apply (head_literal (chars "Instance:")). cbv beta iota.
  apply (head_star is_space ws); [done|done|]. cbv beta iota.
  rewrite <- (app_nil_r q) at 1.
  apply (head_plus dot q); [done|done|done|]. reflexivity.
Qed.

(** *** Stripping *)

Lemma skip_spaces_stops (s : list ascii) : head_is_not is_space (skip_spaces s).
Proof.
  induction s as [|c s IH]; simpl; [done|].
  destruct (is_space c) eqn:Hc; [done|]. simpl. done.
Qed.

Lemma skip_spaces_all (w : list ascii) : spaces w → skip_spaces w = [].
Proof. intros Hw. rewrite <- (app_nil_r w). by rewrite skip_spaces_app. Qed.

Lemma head_is_not_app (P : ascii → bool) (m t : list ascii) :
  m ≠ [] → head_is_not P m → head_is_not P (m ++ t).
Proof. by destruct m. Qed.

Lemma strip_decompose (l m t : list ascii) :
  spaces l → spaces t →
  head_is_not is_space m → head_is_not is_space (reverse m) →
  strip (l ++ m ++ t) = m.
Proof.
  intros Hl Ht Hm Hr. unfold strip. rewrite skip_spaces_app by done.
  destruct m as [|c m].
  - simpl. rewrite (skip_spaces_all t) by done. done.
  - rewrite (skip_spaces_head ((c :: m) ++ t)) by done.
    rewrite reverse_app, skip_spaces_app by (by apply Forall_reverse).
    rewrite skip_spaces_head by done. apply reverse_involutive.
Qed.

Lemma strip_spec (s : list ascii) :
  ∃ l t, s = l ++ strip s ++ t ∧ spaces l ∧ spaces t
         ∧ head_is_not is_space (strip s)
         ∧ head_is_not is_space (reverse (strip s)).
Proof.
  unfold strip.
  destruct (skip_spaces_spec s) as (l & Hl & Hsl).
  destruct (skip_spaces_spec (reverse (skip_spaces s))) as (t & Ht & Hst).
  pose proof (skip_spaces_stops s) as H1.
  pose proof (skip_spaces_stops (reverse (skip_spaces s))) as H2.
  set (s1 := skip_spaces s) in *.
  set (s2 := skip_spaces (reverse s1)) in *.
  assert (Hs1 : s1 = reverse s2 ++ reverse t).
  { rewrite <- reverse_app, <- Ht. by rewrite reverse_involutive. }
  exists l, (reverse t). split_and!.
  - by rewrite <- Hs1.
  - done.
  - by apply Forall_reverse.
  - rewrite Hs1 in H1. destruct (reverse s2); done.
  - by rewrite reverse_involutive.
Qed.

Lemma strip_idemp (s : list ascii) : strip (strip s) = strip s.
Proof.
  destruct (strip_spec s) as (l & t & _ & _ & _ & Hh & Hr).
  rewrite <- (app_nil_r (strip s)) at 1.
  apply (strip_decompose [] (strip s) []); done || constructor.
Qed.

(** *** One line of the context *)

Lemma in_line_spec (c : ascii) :
  in_line c = true →
  (nat_of_ascii c < 128)%nat ∧ dot c = true ∧ c ≠ "013"%char.
Proof.
  unfold in_line. rewrite !andb_true_iff, negb_true_iff, Nat.ltb_lt.
  intros [[H1 H2] H3]. split_and!; [done|done|].
  intros ->. by rewrite Ascii.eqb_refl in H3.
Qed.

Lemma digit_in_line (c : ascii) : is_digit c = true → in_line c = true.
Proof.
  unfold is_digit, in_line, dot. rewrite !andb_true_iff, !Nat.leb_le.
  intros [Hlo Hhi]. rewrite !negb_true_iff, Nat.ltb_lt. split_and!; [lia| |].
  - apply Ascii.eqb_neq. intros ->.
    change (nat_of_ascii "010") with 10%nat in Hlo. lia.
  - apply Ascii.eqb_neq. intros ->.
    change (nat_of_ascii "013") with 13%nat in Hlo. lia.
Qed.

Lemma context_line_chars (e : entry) :
  chars (context_line e)
  = chars "Date: " ++ chars (timestamp e) ++ chars " || User: "
    ++ chars (PairFile.str (user_id e)) ++ chars " || Instance: "
    ++ chars (question e).
Proof. unfold context_line. by rewrite !chars_app. Qed.

Lemma reverse_nonempty {A} (l : list A) : l ≠ [] → reverse l ≠ [].
Proof.
  intros Hl Hr. apply Hl. apply (f_equal length) in Hr.
  rewrite length_reverse in Hr. by destruct l.
Qed.

Lemma parse_context_line (e : entry) :
  well_formed e →
  let line := strip (chars (context_line e) ++ ["010"%char]) in
  line ≠ []
  ∧ startswith (chars "Date:") line = true
  ∧ re_match line
    = Some (chars (PairFile.str (user_id e)), strip (chars (question e))).
Proof.
  intros (Hid & Hts & Hq & Hblank).
  destruct (strip_spec (chars (question e))) as (lq & tq & Hdec & Hlq & Htq & Hh & Hr).
  set (q' := strip (chars (question e))) in *.
  set (ds := chars (PairFile.str (user_id e))).
  set (m := chars "Date:" ++ (" "%char :: chars (timestamp e) ++ [" "%char])
              ++ chars "|| User: " ++ ds ++ chars " || Instance:"
              ++ (" "%char :: lq) ++ q').
  assert (Hline : chars (context_line e) ++ ["010"%char]
                  = [] ++ m ++ (tq ++ ["010"%char])).
  { rewrite context_line_chars, Hdec. unfold m. fold ds.
    repeat (progress (simpl; rewrite <- ?app_assoc)). done. }
  assert (Hm : m = (chars "Date:" ++ (" "%char :: chars (timestamp e) ++ [" "%char])
                      ++ chars "|| User: " ++ ds ++ chars " || Instance:"
                      ++ (" "%char :: lq)) ++ q').
  { unfold m. by rewrite <- !app_assoc. }
  assert (Hstrip : strip (chars (context_line e) ++ ["010"%char]) = m).
  { rewrite Hline. apply strip_decompose.
    - constructor.
    - apply Forall_app. split; [done|by repeat constructor].
    - done.
    - rewrite Hm, reverse_app. apply head_is_not_app; [|done].
      by apply reverse_nonempty. }
  cbv zeta. rewrite Hstrip. split_and!.
  - done.
  - reflexivity.
  - apply (re_match_line (" "%char :: chars (timestamp e) ++ [" "%char]) ds
             (" "%char :: lq) q').
    + done.
    + constructor; [done|]. apply Forall_app. split; [|by repeat constructor].
      eapply Forall_impl; [exact Hts|]. by intros c [H _].
    + apply str_digits, Hid.
    + by constructor.
    + done.
    + rewrite Hdec in Hq. apply Forall_app in Hq as [_ Hq].
      apply Forall_app in Hq as [Hq _].
      eapply Forall_impl; [exact Hq|]. intros c Hc.
      by destruct (in_line_spec c Hc) as (_ & Hd & _).
    + done.
Qed.

(** *** The lines of the file *)

Lemma lines_from_line (current l rest : list ascii) :
  Forall (λ c, dot c = true) l →
  lines_from current (l ++ "010"%char :: rest)
  = (current ++ l ++ ["010"%char]) :: lines_from [] rest.
Proof.
  intros Hl. revert current. induction Hl as [|c l Hc _ IH]; intros current; simpl.
  - done.
  - unfold dot in Hc. apply negb_true_iff in Hc. rewrite Hc, IH.
    by rewrite <- app_assoc.
Qed.

Lemma lines_from_concat (ls : list (list ascii)) (rest : list ascii) :
  Forall (Forall (λ c, dot c = true)) ls →
  lines_from [] (concat ((λ l, l ++ ["010"%char]) <$> ls) ++ rest)
  = ((λ l, l ++ ["010"%char]) <$> ls) ++ lines_from [] rest.
Proof.
  induction 1 as [|l ls Hl _ IH]; simpl; [done|].
  rewrite <- !app_assoc. simpl. rewrite lines_from_line by done.
  simpl. f_equal. exact IH.
Qed.

Lemma join_chars (h : string) (ls : list string) :
  chars (join newline (h :: ls))
  = chars h ++ concat ((λ l, "010"%char :: chars l) <$> ls).
Proof.
  revert h. induction ls as [|l ls IH]; intros h.
  - simpl. by rewrite app_nil_r.
  - change (join newline (h :: l :: ls)) with (h +:+ newline +:+ join newline (l :: ls)).
    rewrite !chars_app, IH. done.
Qed.

Lemma concat_shift (c : ascii) (ls : list (list ascii)) :
  concat ((λ l, c :: l) <$> ls) ++ [c] = c :: concat ((λ l, l ++ [c]) <$> ls).
Proof.
  induction ls as [|l ls IH]; simpl; [done|].
  rewrite <- !app_assoc. simpl. do 2 f_equal. exact IH.
Qed.

Lemma context_line_in_line (e : entry) :
  well_formed e → Forall (λ c, in_line c = true) (chars (context_line e)).
Proof.
  intros (Hid & Hts & Hq & _). rewrite context_line_chars.
  repeat (apply Forall_app; split); try done.
  - by repeat constructor.
  - eapply Forall_impl; [exact Hts|]. by intros c [_ H].
  - by repeat constructor.
  - destruct (str_digits (user_id e) (proj1 Hid)) as [[_ Hd] _].
    eapply Forall_impl; [exact Hd|]. intros c Hc. by apply digit_in_line.
  - by repeat constructor.
Qed.

Lemma universal_newlines_app (p q : list ascii) :
  Forall (λ c, Ascii.eqb c "013" = false) p →
  universal_newlines (p ++ q) = p ++ universal_newlines q.
Proof.
  induction 1 as [|c p Hc _ IH]; simpl; [done|]. by rewrite Hc, IH.
Qed.

Lemma in_line_no_return (l : list ascii) :
  Forall (λ c, in_line c = true) l → Forall (λ c, Ascii.eqb c "013" = false) l.
Proof.
  intros Hl. eapply Forall_impl; [exact Hl|]. intros c Hc.
  destruct (in_line_spec c Hc) as (_ & _ & Hr). by apply Ascii.eqb_neq.
Qed.

Lemma in_line_dot (l : list ascii) :
  Forall (λ c, in_line c = true) l → Forall (λ c, dot c = true) l.
Proof.
  intros Hl. eapply Forall_impl; [exact Hl|]. intros c Hc.
  by destruct (in_line_spec c Hc) as (_ & Hd & _).
Qed.

Lemma prompt_lines (entries : list entry) (full_query : string) :
  Forall well_formed entries →
  ∃ head_lines,
    Forall skipped head_lines
    ∧ readlines (prompt entries full_query)
      = head_lines
        ++ ((λ e, chars (context_line e) ++ ["010"%char]) <$> entries)
        ++ ["010"%char] :: readlines full_query.
Proof.
  intros Hwf.
  exists [ chars "The following lines contain question data. Each line has:"
             ++ ["010"%char];
           chars "Date || User || Instance (question)" ++ ["010"%char];
           ["010"%char]; ["010"%char] ].
  split.
  { repeat constructor; by vm_compute; auto. }
  unfold readlines, prompt, format_context.
  rewrite !chars_app, join_chars.
  set (ls := (λ e, chars (context_line e)) <$> entries).
  assert (Hc : concat ((λ l : string, "010"%char :: chars l)
                         <$> (context_line <$> entries)) ++ ["010"%char]
               = "010"%char :: concat ((λ l, l ++ ["010"%char]) <$> ls)).
  { rewrite <- concat_shift. unfold ls. by rewrite <- !list_fmap_compose. }
  assert (Hls : Forall (Forall (λ c, in_line c = true)) ls).
  { apply Forall_fmap. eapply Forall_impl; [exact Hwf|].
    intros e He. by apply context_line_in_line. }
  assert (H1 : Forall (λ c, in_line c = true)
                 (chars "The following lines contain question data. Each line has:"))
    by (by repeat constructor).
  assert (H2 : Forall (λ c, in_line c = true)
                 (chars "Date || User || Instance (question)"))
    by (by repeat constructor).
  assert (Hh : chars header
               = chars "The following lines contain question data. Each line has:"
                 ++ "010"%char
                 :: chars "Date || User || Instance (question)"
                    ++ ["010"%char; "010"%char]) by reflexivity.
  revert H1 H2 Hh.
  generalize (chars "The following lines contain question data. Each line has:").
  generalize (chars "Date || User || Instance (question)").
  intros h2 h1 H1 H2 Hh.
  set (body := concat ((λ l, l ++ ["010"%char]) <$> ls)).
  assert (Hbody : Forall (λ c, Ascii.eqb c "013" = false) body).
  { unfold body. apply Forall_concat, Forall_fmap.
    eapply Forall_impl; [exact Hls|]. intros l Hl. simpl.
    apply Forall_app. split; [by apply in_line_no_return|by repeat constructor]. }
  transitivity
    (lines_from []
       (universal_newlines
          ((h1 ++ "010"%char :: h2 ++ "010"%char :: "010"%char :: "010"%char
               :: body ++ ["010"%char])
           ++ chars full_query))).
  { do 2 f_equal. rewrite Hh. change (chars newline) with ["010"%char].
    rewrite (app_assoc _ ["010"%char]), <- (app_assoc (h1 ++ _)), Hc.
    unfold body. repeat (first [rewrite <- app_assoc | progress (cbn [app])]).
    reflexivity. }
  rewrite universal_newlines_app.
  2:{ apply Forall_app. split; [by apply in_line_no_return|].
      constructor; [done|]. apply Forall_app. split; [by apply in_line_no_return|].
      repeat (constructor; [done|]). apply Forall_app. split; [done|].
      by repeat constructor. }
  transitivity
    (lines_from []
       (h1 ++ "010"%char
        :: (h2 ++ "010"%char
            :: ([] ++ "010"%char
                :: ([] ++ "010"%char
                    :: (body
                        ++ ([] ++ "010"%char
                            :: universal_newlines (chars full_query)))))))).
  { f_equal. repeat (first [rewrite <- app_assoc | progress (cbn [app])]).
    reflexivity. }
  rewrite !lines_from_line by (by apply in_line_dot || constructor).
  unfold body. rewrite lines_from_concat.
  2:{ eapply Forall_impl; [exact Hls|]. intros l Hl. by apply in_line_dot. }
  rewrite lines_from_line by constructor.
  unfold ls. rewrite <- list_fmap_compose. reflexivity.
Qed.

(** *** The loop of the reader *)

Lemma read_line_skipped (user_questions : gmap string (list string)) (line : list ascii) :
  skipped line → read_line user_questions line = user_questions.
Proof.
  unfold skipped, read_line. cbv zeta. intros [->| ->]; [done|].
  by rewrite orb_true_r.
Qed.

Lemma read_lines_skipped (user_questions : gmap string (list string))
    (lines : list (list ascii)) :
  Forall skipped lines → fold_left read_line lines user_questions = user_questions.
Proof.
  induction 1 as [|l lines Hl _ IH]; simpl; [done|].
  by rewrite read_line_skipped.
Qed.

Lemma read_context_line (user_questions : gmap string (list string)) (e : entry) :
  well_formed e →
  read_line user_questions (chars (context_line e) ++ ["010"%char])
  = <[PairFile.str (user_id e) :=
        default [] (user_questions !! PairFile.str (user_id e))
        ++ [text (strip (chars (question e)))]]> user_questions.
Proof.
  intros Hwf. destruct (parse_context_line e Hwf) as (Hne & Hstart & Hmatch).
  cbv zeta in Hne, Hstart, Hmatch. unfold read_line. cbv zeta.
  rewrite Hstart, Hmatch. rewrite bool_decide_eq_false_2 by done. simpl.
  by rewrite !string_of_list_ascii_of_string, strip_idemp.
Qed.

Lemma grouped_lookup {A} (key : A → string) (value : A → string) (u : string)
    (entries : list A) (acc : gmap string (list string)) :
  fold_left (λ m e, <[key e := default [] (m !! key e) ++ [value e]]> m) entries acc
    !! u
  = match value <$> filter (λ e, key e = u) entries with
    | [] => acc !! u
    | qs => Some (default [] (acc !! u) ++ qs)
    end.
Proof.
  revert acc. induction entries as [|e entries IH]; intros acc; simpl; [done|].
  rewrite IH. destruct (decide (key e = u)) as [Heq|Hne].
  - rewrite filter_cons_True by done. rewrite fmap_cons, Heq, lookup_insert_eq.
    simpl default.
    destruct (value <$> filter _ entries) as [|q qs]; [done|].
    by rewrite <- app_assoc.
  - rewrite filter_cons_False by done. by rewrite lookup_insert_ne.
Qed.

(** The reader undoes the writer, on ASCII texts. The file that
    generate_oolong_pairs.py writes for entries whose user ids are not
    negative, whose timestamps and questions are ASCII texts without a
    newline or a carriage return, the timestamps without a pipe and the
    questions not blank, followed by an ASCII query none of whose lines
    starts with "Date:", is read by parse_input_file as the dict that maps
    the decimal numeral of each user id to the questions of that user,
    stripped, in the order of the entries; the header and the query add
    nothing. *)
Theorem parse_input_file_round_trip (entries : list entry) (full_query : string) :
  Forall well_formed entries →
  ascii_text (chars full_query) →
  Forall skipped (readlines full_query) →
  ∀ u, parse_input_file (prompt entries full_query) !! u = questions_of u entries.
Proof.
  intros Hwf _ Hquery u. unfold parse_input_file.
  destruct (prompt_lines entries full_query Hwf) as (head_lines & Hhead & ->).
  rewrite !fold_left_app, (read_lines_skipped ∅ head_lines) by done.
  rewrite (read_lines_skipped _ (_ :: _))
    by (constructor; [by left|done]).
  assert (Hfold : ∀ acc,
    fold_left read_line ((λ e, chars (context_line e) ++ ["010"%char]) <$> entries) acc
    = fold_left
        (λ m e, <[PairFile.str (user_id e) :=
                    default [] (m !! PairFile.str (user_id e))
                    ++ [text (strip (chars (question e)))]]> m)
        entries acc).
  { induction Hwf as [|e entries He _ IH]; intros acc; [done|].
    rewrite fmap_cons. cbn [fold_left].
    rewrite read_context_line by done. apply IH. }
  rewrite Hfold, grouped_lookup. unfold questions_of.
  rewrite lookup_empty. simpl.
  by destruct (filter _ entries).
Qed.

Lemma parse_input_file_round_trip_witness :
  parse_input_file (prompt sample_entries sample_query) !! "12345"
  = questions_of "12345" sample_entries.
Proof.
  apply (parse_input_file_round_trip sample_entries sample_query).
  - repeat constructor; try done; by vm_compute.
  - apply (bool_decide_unpack _). by vm_compute.
  - by repeat constructor; vm_compute; auto.
Defined.

(** *** What the reader keeps, whatever the file *)

Lemma star_elem (class : ascii → bool) (s m r : list ascii) :
  (m, r) ∈ star class s → Forall (λ c, class c = true) m.
Proof.
  revert m. induction s as [|c s IH]; intros m; simpl.
  - intros Hin. apply list_elem_of_singleton in Hin as [= -> _]. constructor.
  - destruct (class c) eqn:Hc.
    + intros Hin. apply elem_of_app in Hin as [Hin|Hin].
      * apply list_elem_of_fmap in Hin as ([m' r'] & [= -> ->] & Hin).
        constructor; [done|]. by apply IH.
      * apply list_elem_of_singleton in Hin as [= -> _]. constructor.
    + intros Hin. apply list_elem_of_singleton in Hin as [= -> _]. constructor.
Qed.

Lemma plus_elem (class : ascii → bool) (s m r : list ascii) :
  (m, r) ∈ plus class s → m ≠ [] ∧ Forall (λ c, class c = true) m.
Proof.
  destruct s as [|c s]; simpl; [by intros Hin%elem_of_nil|].
  destruct (class c) eqn:Hc; [|by intros Hin%elem_of_nil].
  intros Hin. apply list_elem_of_fmap in Hin as ([m' r'] & [= -> ->] & Hin).
  split; [done|]. constructor; [done|]. by apply star_elem in Hin.
Qed.

Lemma pattern_groups (line group1 group2 : list ascii) :
  (group1, group2) ∈ pattern line → digits group1 ∧ group2 ≠ [].
Proof.
  unfold pattern. intros H.
  repeat (apply list_elem_of_bind in H as ([? ?] & H & ?); cbv beta iota in H).
  apply list_elem_of_singleton in H as [= -> ->].
  repeat match goal with
         | H : _ ∈ plus _ _ |- _ => apply plus_elem in H as [? ?]
         end.
  done.
Qed.

Lemma re_match_groups (line group1 group2 : list ascii) :
  re_match line = Some (group1, group2) → digits group1 ∧ group2 ≠ [].
Proof.
  unfold re_match. intros H. apply (pattern_groups line).
  destruct (pattern line); [done|]. simpl in H. injection H as ->. left.
Qed.

(** Whatever an ASCII file contains, the keys of the dict that
    parse_input_file returns are non-empty strings of the decimal digits 0
    to 9, and no key is mapped to an empty list. *)
Theorem parse_input_file_ids (contents : string) (u : string) (qs : list string) :
  ascii_text (chars contents) →
  parse_input_file contents !! u = Some qs →
  digits (chars u) ∧ qs ≠ [].
Proof.
  intros _. unfold parse_input_file. generalize (readlines contents). intros lines.
  assert (Hinv : ∀ acc : gmap string (list string),
    (∀ u qs, acc !! u = Some qs → digits (chars u) ∧ qs ≠ []) →
    ∀ u qs, fold_left read_line lines acc !! u = Some qs → digits (chars u) ∧ qs ≠ []).
  { induction lines as [|line lines IH]; intros acc Hacc; simpl; [done|].
    apply IH. unfold read_line. cbv zeta.
    destruct (_ || _); [done|].
    destruct (re_match (strip line)) as [[group1 group2]|] eqn:Hm; [|done].
    apply re_match_groups in Hm as [Hd _].
    intros u' qs'. destruct (decide (text group1 = u')) as [<-|Hne].
    - rewrite lookup_insert_eq. intros [= <-].
      rewrite list_ascii_of_string_of_list_ascii. split; [done|].
      by destruct (default [] _).
    - rewrite lookup_insert_ne by done. apply Hacc. }
  apply Hinv. intros u' qs'. by rewrite lookup_empty.
Qed.

Lemma parse_input_file_ids_witness :
  digits (chars "12345")
  ∧ [ "What is the capital of France ?"; "How many moons does Mars have ?" ] ≠ [].
Proof.
  apply (parse_input_file_ids (prompt sample_entries sample_query) "12345").
  - apply (bool_decide_unpack _). by vm_compute.
  - by vm_compute.
Defined.

(** ** The batch files *)

Lemma three_batches (n : Z) :
  0 ≤ n →
  (if 0 <? n then (n - 1) / (n / 3 + 1) + 1 else 0) = 3 ↔ n = 5 ∨ 7 ≤ n.
Proof.
  intros Hn. destruct (Z.ltb_spec 0 n) as [Hpos|Hz]; [|lia].
  pose proof (Z.mul_div_le n 3 ltac:(lia)) as Hq1.
  pose proof (Z.mul_succ_div_gt n 3 ltac:(lia)) as Hq2.
  set (q := n / 3) in *.
  assert (0 ≤ q) as Hq by (apply Z.div_pos; lia).
  pose proof (Z.mul_div_le (n - 1) (q + 1) ltac:(lia)) as Hd1.
  pose proof (Z.mul_succ_div_gt (n - 1) (q + 1) ltac:(lia)) as Hd2.
  pose proof (Z.div_pos (n - 1) (q + 1) ltac:(lia) ltac:(lia)) as Hd.
  set (d := (n - 1) / (q + 1)) in *.
  assert (d < 3) as Hd3 by (apply Z.div_lt_upper_bound; lia).
  assert (d = 0 ∨ d = 1 ∨ d = 2) as [->|[->| ->]] by lia; lia.
Qed.

(** The two scripts do not agree on the number of batch files.
    split_for_classification.py writes three of them exactly when there
    are five questions or at least seven; classify_questions.py then reads
    them back and its combined result is the classification of the
    questions, one by one and in their order, whatever batch files were
    there before. For any other number of questions fewer than three files
    are written, and in a directory without older batch files
    classify_questions.py stops on a batch file that does not exist. *)
Theorem classified_after_split (classify_question : string → string)
    (files : ClassifyQuestions.directory) (questions_list : list Questions.listed) :
  let n := Z.of_nat (length questions_list) in
  (n = 5 ∨ 7 ≤ n →
     (written ← ClassifyQuestions.write_batches files questions_list;
      ClassifyQuestions.main classify_question written)
     = Return (ClassifyQuestions.process_batch classify_question questions_list))
  ∧ (¬ (n = 5 ∨ 7 ≤ n) →
     (written ← ClassifyQuestions.write_batches ∅ questions_list;
      ClassifyQuestions.main classify_question written)
     = Throw FileNotFoundError).
Proof.
  intros n.
  destruct (split_into_batches_chunks questions_list 3 ltac:(lia))
    as (Hsplit & Hbs & Hcount & Hcover).
  cbv zeta in Hsplit, Hbs, Hcount, Hcover. fold n in Hsplit, Hbs, Hcount, Hcover.
  pose proof (three_batches n ltac:(lia)) as Hthree.
  set (count := if 0 <? n then (n - 1) / (n / 3 + 1) + 1 else 0) in *.
  set (size := Z.to_nat (n / 3 + 1)) in *.
  unfold ClassifyQuestions.write_batches. split.
  - intros Hgood. apply Hthree in Hgood. rewrite Hsplit, Hgood.
    assert (Hcat : concat ((λ j, take size (drop (j * size) questions_list))
                             <$> seq 0 3) = questions_list)
      by (apply chunks_concat; unfold size; lia).
    transitivity
      (Return (ClassifyQuestions.process_batch classify_question
                 (concat ((λ j, take size (drop (j * size) questions_list))
                            <$> seq 0 3))));
      [|by rewrite Hcat].
    unfold ClassifyQuestions.process_batch. simpl.
    generalize (take size (drop 0 questions_list)),
      (take size (drop (size + 0) questions_list)),
      (take size (drop (size + (size + 0)) questions_list)).
    intros b0 b1 b2.
    change (Z.of_nat 2) with 2. change (Z.of_nat 1) with 1. change (Z.of_nat 0) with 0.
    unfold ClassifyQuestions.main, ClassifyQuestions.load,
      ClassifyQuestions.process_batch, ClassifyQuestions.directory in *.
    cbn [for_each].
    rewrite (lookup_insert_ne _ 2 0), (lookup_insert_ne _ 1 0), (lookup_insert_eq _ 0)
      by done.
    rewrite (lookup_insert_ne _ 2 1), (lookup_insert_eq _ 1) by done.
    rewrite (lookup_insert_eq _ 2). simpl.
    by rewrite !fmap_app, app_nil_r, app_assoc.
  - intros Hbad. rewrite Hsplit.
    assert (count = 0 ∨ count = 1 ∨ count = 2) as [->|[->| ->]] by lia;
      simpl;
      change (Z.of_nat 1) with 1; change (Z.of_nat 0) with 0;
      unfold ClassifyQuestions.main, ClassifyQuestions.load,
        ClassifyQuestions.directory in *;
      cbn [for_each];
      rewrite ?(lookup_insert_ne _ 1 0), ?(lookup_insert_ne _ 1 2),
        ?(lookup_insert_ne _ 0 1), ?(lookup_insert_ne _ 0 2),
        ?(lookup_insert_eq _ 0), ?(lookup_insert_eq _ 1), ?lookup_empty by done;
      done.
Qed.

(** ** The list of questions to classify *)

Import SaveQuestions.

Lemma compare_le_trans (a b c : string) :
  String.compare a b ≠ Gt → String.compare b c ≠ Gt → String.compare a c ≠ Gt.
Proof.
  revert b c. induction a as [|x a IH]; intros [|y b] [|z c]; simpl; try done.
  unfold Ascii.compare.
  destruct (N.compare_spec (N_of_ascii x) (N_of_ascii y)) as [Hxy|Hxy|Hxy];
    destruct (N.compare_spec (N_of_ascii y) (N_of_ascii z)) as [Hyz|Hyz|Hyz];
    destruct (N.compare_spec (N_of_ascii x) (N_of_ascii z)) as [Hxz|Hxz|Hxz];
    try done; try lia.
  apply IH.
Qed.

Lemma str_le_compare (a b : string) : str_le a b ↔ String.compare a b ≠ Gt.
Proof. unfold str_le, String.leb. by destruct (String.compare a b). Qed.

#[local] Instance str_le_transitive : Transitive str_le.
Proof. intros a b c. rewrite !str_le_compare. apply compare_le_trans. Qed.

#[local] Instance str_le_total : Total str_le.
Proof. intros a b. unfold str_le. apply String.leb_total. Qed.

#[local] Instance item_le_transitive : Transitive item_le.
Proof. intros a b c. unfold item_le. apply str_le_transitive. Qed.

#[local] Instance item_le_total : Total item_le.
Proof. intros a b. unfold item_le. apply str_le_total. Qed.

Lemma str_le_lt (a b : string) : str_le a b → a ≠ b → str_lt a b.
Proof.
  rewrite str_le_compare. unfold str_lt. intros Hle Hne.
  destruct (String.compare a b) eqn:Hc; [|done|done].
  by apply String.compare_eq_iff in Hc.
Qed.

Lemma sorted_distinct_strict {A} (key : A → string) (l : list A) :
  StronglySorted (λ a b, str_le (key a) (key b)) l →
  NoDup (key <$> l) →
  StronglySorted str_lt (key <$> l).
Proof.
  induction 1 as [|x l Hs IH Hall]; intros Hnd; simpl; [constructor|].
  rewrite fmap_cons in Hnd. apply NoDup_cons in Hnd as [Hx Hnd].
  constructor; [by apply IH|].
  apply Forall_fmap, Forall_forall. intros y Hy. simpl.
  apply str_le_lt; [by apply (proj1 (Forall_forall _ _) Hall)|].
  intros Heq. apply Hx. rewrite Heq. apply list_elem_of_fmap. eauto.
Qed.

Lemma add_user_elem (user_id : string) (questions : list string)
    (m : gmap string (gset string)) (q u : string) :
  u ∈ default ∅
        (fold_left
           (λ question_to_users question,
              <[question := default ∅ (question_to_users !! question)
                            ∪ {[ user_id ]}]> question_to_users)
           questions m !! q)
  ↔ u ∈ default ∅ (m !! q) ∨ (u = user_id ∧ q ∈ questions).
Proof.
  revert m. induction questions as [|q' questions IH]; intros m; simpl.
  - rewrite elem_of_nil. tauto.
  - rewrite IH, elem_of_cons. destruct (decide (q' = q)) as [->|Hne].
    + rewrite lookup_insert_eq. simpl. rewrite elem_of_union, elem_of_singleton.
      intuition auto.
    + rewrite lookup_insert_ne by done. intuition congruence.
Qed.

Lemma add_user_nonempty (user_id : string) (questions : list string)
    (m : gmap string (gset string)) :
  (∀ q us, m !! q = Some us → us ≠ ∅) →
  ∀ q us,
    fold_left
      (λ question_to_users question,
         <[question := default ∅ (question_to_users !! question)
                       ∪ {[ user_id ]}]> question_to_users)
      questions m !! q = Some us →
    us ≠ ∅.
Proof.
  revert m. induction questions as [|q' questions IH]; intros m Hm; simpl; [done|].
  apply IH. intros q us. destruct (decide (q' = q)) as [->|Hne].
  - rewrite lookup_insert_eq. intros [= <-] Hempty.
    assert (user_id ∈ (∅ : gset string)) as Habs; [|by apply not_elem_of_empty in Habs].
    rewrite <- Hempty. apply elem_of_union. right. by apply elem_of_singleton.
  - rewrite lookup_insert_ne by done. apply Hm.
Qed.

Lemma question_to_users_elem (items : list (string * list string))
    (m : gmap string (gset string)) (q u : string) :
  u ∈ default ∅
        (fold_left
           (λ question_to_users '(user_id, questions),
              fold_left
                (λ question_to_users question,
                   <[question := default ∅ (question_to_users !! question)
                                 ∪ {[ user_id ]}]> question_to_users)
                questions question_to_users)
           items m !! q)
  ↔ u ∈ default ∅ (m !! q) ∨ ∃ questions, (u, questions) ∈ items ∧ q ∈ questions.
Proof.
  revert m. induction items as [|[user_id questions] items IH]; intros m; simpl.
  - split; [by left|]. intros [H|(qs & H & _)]; [done|]. by apply elem_of_nil in H.
  - rewrite IH, add_user_elem. split.
    + intros [[H|[-> H]]|(qs & H & Hq)].
      * by left.
      * right. exists questions. split; [left|done].
      * right. exists qs. split; [by right|done].
    + intros [H|(qs & H & Hq)]; [by left; left|].
      apply elem_of_cons in H as [[= -> ->]|H].
      * left. by right.
      * right. eauto.
Qed.

Lemma question_to_users_nonempty (items : list (string * list string))
    (m : gmap string (gset string)) :
  (∀ q us, m !! q = Some us → us ≠ ∅) →
  ∀ q us,
    fold_left
      (λ question_to_users '(user_id, questions),
         fold_left
           (λ question_to_users question,
              <[question := default ∅ (question_to_users !! question)
                            ∪ {[ user_id ]}]> question_to_users)
           questions question_to_users)
      items m !! q = Some us →
    us ≠ ∅.
Proof.
  revert m. induction items as [|[user_id questions] items IH]; intros m Hm; simpl;
    [done|].
  apply IH. by apply add_user_nonempty.
Qed.

(** save_questions_for_classification turns the dict of the questions of
    each user into the list of the distinct questions: the list is in
    strictly ascending order of the questions, so that each question that
    some user asked occurs exactly once and no other does; idx is the
    position in the list, from 0; and the users of an entry are exactly the
    users who asked its question, each once, in strictly ascending order of
    their identifiers as strings. *)
Theorem save_questions_inverts (user_questions : gmap string (list string)) :
  let questions_list := save_questions_for_classification user_questions in
  (∀ k item, questions_list !! k = Some item → Questions.idx item = Z.of_nat k)
  ∧ StronglySorted str_lt (Questions.question <$> questions_list)
  ∧ (∀ q, q ∈ Questions.question <$> questions_list
          ↔ ∃ u, asked user_questions u q)
  ∧ (∀ item, item ∈ questions_list →
       StronglySorted str_lt (Questions.users item)
       ∧ ∀ u, u ∈ Questions.users item
              ↔ asked user_questions u (Questions.question item)).
Proof.
  unfold save_questions_for_classification.
  set (question_to_users :=
         fold_left
           (λ question_to_users '(user_id, questions),
              fold_left
                (λ question_to_users question,
                   <[question := default ∅ (question_to_users !! question)
                                 ∪ {[ user_id ]}]> question_to_users)
                questions question_to_users)
           (map_to_list user_questions) ∅).
  set (items := merge_sort item_le (map_to_list question_to_users)).
  assert (Helem : ∀ q u, u ∈ default ∅ (question_to_users !! q)
                         ↔ asked user_questions u q).
  { intros q u. unfold question_to_users. rewrite question_to_users_elem.
    rewrite lookup_empty. simpl. unfold asked. split.
    - intros [H|(qs & H & Hq)]; [by apply not_elem_of_empty in H|].
      apply elem_of_map_to_list in H. eauto.
    - intros (qs & H & Hq). right. exists qs. by rewrite elem_of_map_to_list. }
  assert (Hnonempty : ∀ q us, question_to_users !! q = Some us → us ≠ ∅).
  { apply question_to_users_nonempty. intros q us. by rewrite lookup_empty. }
  assert (Hitems : ∀ q us, (q, us) ∈ items ↔ question_to_users !! q = Some us).
  { intros q us. unfold items. rewrite merge_sort_Permutation.
    apply elem_of_map_to_list. }
  assert (Hquestions :
    Questions.question
      <$> imap (λ idx '(question, users),
                  {| Questions.idx := Z.of_nat idx;
                     Questions.question := question;
                     Questions.users := merge_sort str_le (elements users) |})
               items
    = items.*1).
  { rewrite fmap_imap. rewrite <- (imap_const fst items).
    apply imap_ext. by intros k [q us] _. }
  cbv zeta. split_and!.
  - intros k item Hk. rewrite list_lookup_imap in Hk.
    destruct (items !! k) as [[q us]|]; simpl in Hk; [|done].
    by injection Hk as <-.
  - rewrite Hquestions. apply (sorted_distinct_strict fst).
    + apply (StronglySorted_merge_sort item_le).
    + unfold items. rewrite merge_sort_Permutation. apply NoDup_fst_map_to_list.
  - intros q. rewrite Hquestions. split.
    + intros Hq. apply list_elem_of_fmap in Hq as ([q' us] & -> & Hin).
      apply Hitems in Hin. simpl.
      destruct (set_choose_L us (Hnonempty _ _ Hin)) as [u Hu].
      exists u. apply Helem. by rewrite Hin.
    + intros [u Hu]. apply Helem in Hu.
      destruct (question_to_users !! q) as [us|] eqn:Hq;
        [|by apply not_elem_of_empty in Hu].
      apply list_elem_of_fmap. exists (q, us). split; [done|]. by apply Hitems.
  - intros item Hitem. apply elem_of_lookup_imap in Hitem as (k & [q us] & -> & Hk).
    simpl. apply list_elem_of_lookup_2 in Hk. apply Hitems in Hk. split.
    + rewrite <- (list_fmap_id (merge_sort str_le (elements us))).
      apply (sorted_distinct_strict (λ u, u)).
      * apply (StronglySorted_merge_sort str_le).
      * rewrite list_fmap_id, merge_sort_Permutation. apply NoDup_elements.
    + intros u. rewrite merge_sort_Permutation, elem_of_elements, <- Helem.
      by rewrite Hk.
Qed.
